(** * electron-lazy-remote: the remote-object marshalling protocol

    A shallow embedding of [lib/browser/rpc-server.js] (the browser, or
    server, side) and [lib/renderer/lazy-object.js] (the renderer, or
    client, side), with the properties of the protocol proved about it.

    Layout: the JavaScript values, the two wire formats, the heap and the
    monad of effects that both processes share; [Browser], which embeds
    rpc-server.js; [Renderer], which embeds lazy-object.js; [Remote], the
    entry points of remote.js; the notions the properties are stated with;
    [Host], a small engine and a few processes to run the model on; the
    theorems; the theorems at concrete inputs. *)

From Stdlib Require Import ZArith Lia Bool.
From stdpp Require Import base option list strings gmap pretty.

Set Warnings "-register-all".

Local Abbreviation length := List.length.

Local Open Scope string_scope.
Local Open Scope list_scope.
Local Open Scope nat_scope.

(* ===================================================================== *)
(** * JavaScript values and the wire formats                              *)
(* ===================================================================== *)

(** A heap address. Objects, arrays, functions, dates, buffers and
    promises live in the heap and are compared by address, as [===] does. *)
Abbreviation loc := nat (only parsing).

(** A JavaScript number: NaN, an infinity, or the dyadic rational
    [m * 2^e] (every finite double is one). The marshalling code never
    computes with numbers, it carries them; the one conversion it relies
    on is that of [Date], see [TimeClip]. The sign of zero is not kept. *)
Inductive number : Type :=
  | NaN
  | Infinity (negative : bool)
  | Finite (m e : Z).

(** Values. Error objects are carried by value: the code creates them,
    sets their fields once ([code], [errno], [cause]) and throws them;
    nothing depends on their address. [own] lists the own properties in
    creation order; [cls] is what [name] resolves to through the
    prototype ("Error", "TypeError"). *)
Inductive value : Type :=
  | VUndefined
  | VNull
  | VBool (b : bool)
  | VNum (n : number)
  | VStr (s : string)
  | VRef (l : loc)
  | VError (cls : string) (own : list (string * value)).

Definition num (z : Z) : value := VNum (Finite z 0).

(** The type, where a parameter is called [value] as in the source. *)
Abbreviation value_t := value (only parsing).

(** ** Renderer to browser: the descriptors of arguments

    What [wrapArgs] of lazy-object.js builds and [unwrapArgs] of
    rpc-server.js reads. The nested descriptors of an array are under
    [value]; [AFunction] and [AOther] are tags the renderer never sends but
    the browser has a case for. *)
Inductive ameta : Type :=
  | AValue (value : value)
  | AArray (value : list ameta)
  | ABuffer (value : list Byte.byte)
  | ADate (value : number)
  | APromise (then_ : ameta)
  | ARemoteObject (id : Z)
  | AObject (name : string) (members : list (string * ameta))
  | AFunctionWithReturnValue (value : ameta)
  | AFunction
  | AOther (type : string).

(** ** Browser to renderer: the descriptors of results

    What [valueToMeta] of rpc-server.js builds and [metaToValue] of
    lazy-object.js reads. *)
Inductive member_type : Type := method | get.

Record member : Type := Member {
  m_name : string;
  m_enumerable : bool;
  m_writable : bool;
  m_type : member_type
}.

Inductive protodesc : Type :=
  | ProtoDesc (members : list member) (proto : option protodesc).

Inductive remote_type : Type := TObject | TFunction.

Inductive meta : Type :=
  | MValue (value : value)
  | MArray (members : list meta)
  | MRemote (type : remote_type) (name : string) (id : Z)
            (members : list member) (proto : option protodesc)
  | MBuffer (value : list Byte.byte)
  | MPromise (then_ : meta)
  | MError (members : list (string * value))
  | MDate (value : number)
  | MException (message stack : value) (cause : meta).

(** ** Commands

    A command is a JavaScript object literal: a [type] string and the
    fields its kind uses. A field the literal does not have reads as
    [undefined], here [None]. *)
Record command : Type := Command {
  c_type : string;
  c_name : option string;
  c_id : option Z;
  c_module : option string;
  c_args : option (list ameta);
  c_value : option (list ameta)
}.

Definition cmd (type : string) : command :=
  {| c_type := type; c_name := None; c_id := None; c_module := None;
     c_args := None; c_value := None |}.

Definition with_type (type : string) (c : command) : command :=
  {| c_type := type; c_name := c_name c; c_id := c_id c;
     c_module := c_module c; c_args := c_args c; c_value := c_value c |}.

Definition with_name (name : string) (c : command) : command :=
  {| c_type := c_type c; c_name := Some name; c_id := c_id c;
     c_module := c_module c; c_args := c_args c; c_value := c_value c |}.

Definition with_id (id : Z) (c : command) : command :=
  {| c_type := c_type c; c_name := c_name c; c_id := Some id;
     c_module := c_module c; c_args := c_args c; c_value := c_value c |}.

Definition with_module (module : string) (c : command) : command :=
  {| c_type := c_type c; c_name := c_name c; c_id := c_id c;
     c_module := Some module; c_args := c_args c; c_value := c_value c |}.

Definition with_args (args : list ameta) (c : command) : command :=
  {| c_type := c_type c; c_name := c_name c; c_id := c_id c;
     c_module := c_module c; c_args := Some args; c_value := c_value c |}.

Definition with_value (value : list ameta) (c : command) : command :=
  {| c_type := c_type c; c_name := c_name c; c_id := c_id c;
     c_module := c_module c; c_args := c_args c; c_value := Some value |}.

(* ===================================================================== *)
(** * The heap of one process                                             *)
(* ===================================================================== *)

(** What a function object does when called. [Native] is host code, run
    by the engine; the others are the closures the two source files
    create. *)
Inductive callable : Type :=
  | Native (f : nat)
  | Bound (target this : value)          (* target.bind(this) *)
  | ConstFn (returnValue : value)        (* function () { return returnValue } *)
  | ThenFn (promise : value)             (* function (onFulfilled, onRejected) { value.then(...) } *)
  | ReplyFn                              (* function (ret) { event.returnValue = valueToMeta(...) } *)
  | RemoteGet (id : Z) (name : string)   (* () => new LazyObject({type: 'remote_object_get', ...}) *)
  | RemoteSet (id : Z) (name : string)   (* (value) => new LazyObject({type: 'remote_object_set', ...}).$ *)
  | LazyProxy (commands : list command). (* the Proxy a LazyObject returns, with this.commands *)

Inductive slot : Type :=
  | Data (v : value) (writable : bool)
  | Accessor (getter setter : option callable).

Record prop : Type := Prop_ {
  p_name : string;
  p_enumerable : bool;
  p_slot : slot
}.

Inductive kind : Type :=
  | KObject
  | KArray (elems : list value)
  | KBuffer (bytes : list Byte.byte)
  | KDate (t : option Z)                 (* the time value; None is NaN *)
  | KPromise (thenable : option value) (handlers : nat)
  | KFunction (c : callable).

(** [value.constructor]: the global [Object], whose [name] the source
    redefines at run time, another constructor, or none. *)
Inductive ctor : Type := CtorObject | CtorNamed (name : string) | CtorNone.

(** The hidden values [v8Util.getHiddenValue] reads. *)
Record hidden : Type := Hidden {
  atomId : option Z;
  simple : bool;
  asynchronous : bool;
  returnValue : bool
}.

Definition no_hidden : hidden :=
  {| atomId := None; simple := false; asynchronous := false; returnValue := false |}.

Record obj : Type := Obj {
  o_kind : kind;
  o_props : list prop;
  o_proto : option loc;      (* None: null or Object.prototype *)
  o_ctor : ctor;
  o_hidden : hidden
}.

Abbreviation heap := (list obj) (only parsing).

(** Modelled from the spec: the Handle Registry ([./objects-registry] is
    required by rpc-server.js and is not among the sources). The spec gives
    [allocate(session, object) -> id], with the same id for the same object,
    and [resolve(session, id) -> object | not-found]; rpc-server.js tests the
    result of [get] with [== null]. One session is modelled. *)
Record registry : Type := Registry {
  storage : gmap Z value;
  ids : gmap loc Z;
  nextId : Z
}.

(** One JavaScript process: its heap and the module-level state of the
    library files loaded in it.

    [p_heap]: the heap. [objectsRegistry]: the registry rpc-server.js
    requires. [remoteObjectCache]: the id map of lazy-object.js (a weak map
    in the source; garbage collection is not modelled, so an entry stays).
    [remoteObjectFreers]: what [v8Util.setRemoteObjectFreer] was given.
    [objectName]: the [name] of the global [Object] constructor.
    [ipcLog]: the chains given to [ipcRenderer.sendSync], oldest first. *)
Record process : Type := Process {
  p_heap : heap;
  objectsRegistry : registry;
  remoteObjectCache : gmap Z value;
  remoteObjectFreers : list (value * Z);
  objectName : string;
  ipcLog : list (list command)
}.

Definition empty_process : process :=
  {| p_heap := [];
     objectsRegistry := {| storage := ∅; ids := ∅; nextId := 0%Z |};
     remoteObjectCache := ∅;
     remoteObjectFreers := [];
     objectName := "Object";
     ipcLog := [] |}.

Definition set_heap (h : heap) (p : process) : process :=
  {| p_heap := h;
     objectsRegistry := objectsRegistry p;
     remoteObjectCache := remoteObjectCache p;
     remoteObjectFreers := remoteObjectFreers p;
     objectName := objectName p;
     ipcLog := ipcLog p |}.

Definition set_registry (r : registry) (p : process) : process :=
  {| p_heap := p_heap p;
     objectsRegistry := r;
     remoteObjectCache := remoteObjectCache p;
     remoteObjectFreers := remoteObjectFreers p;
     objectName := objectName p;
     ipcLog := ipcLog p |}.

Definition set_cache (c : gmap Z value) (p : process) : process :=
  {| p_heap := p_heap p;
     objectsRegistry := objectsRegistry p;
     remoteObjectCache := c;
     remoteObjectFreers := remoteObjectFreers p;
     objectName := objectName p;
     ipcLog := ipcLog p |}.

Definition add_freer (f : value * Z) (p : process) : process :=
  {| p_heap := p_heap p;
     objectsRegistry := objectsRegistry p;
     remoteObjectCache := remoteObjectCache p;
     remoteObjectFreers := remoteObjectFreers p ++ [f];
     objectName := objectName p;
     ipcLog := ipcLog p |}.

Definition set_objectName (n : string) (p : process) : process :=
  {| p_heap := p_heap p;
     objectsRegistry := objectsRegistry p;
     remoteObjectCache := remoteObjectCache p;
     remoteObjectFreers := remoteObjectFreers p;
     objectName := n;
     ipcLog := ipcLog p |}.

Definition set_ipcLog (l : list (list command)) (p : process) : process :=
  {| p_heap := p_heap p;
     objectsRegistry := objectsRegistry p;
     remoteObjectCache := remoteObjectCache p;
     remoteObjectFreers := remoteObjectFreers p;
     objectName := objectName p;
     ipcLog := l |}.

(* ===================================================================== *)
(** * Effects: state, exceptions, unbounded recursion                     *)
(* ===================================================================== *)

(** A computation returns, throws a value, or recurses past its budget
    ([Diverge]: JavaScript would recurse until the call stack is gone). *)
Inductive outcome (A : Type) : Type :=
  | Ok (a : A)
  | Throw (e : value)
  | Diverge.
Arguments Ok {A} a.
Arguments Throw {A} e.
Arguments Diverge {A}.

Definition M (A : Type) : Type := process → outcome A * process.

Global Instance M_ret : MRet M := λ A a p, (Ok a, p).

Global Instance M_bind : MBind M := λ A B f m p,
  match m p with
  | (Ok a, p') => f a p'
  | (Throw e, p') => (Throw e, p')
  | (Diverge, p') => (Diverge, p')
  end.

Definition throw {A} (e : value) : M A := λ p, (Throw e, p).
Definition diverge {A} : M A := λ p, (Diverge, p).

(** [try { m } catch (error) { handler(error) }] *)
Definition try_catch {A} (m : M A) (handler : value → M A) : M A := λ p,
  match m p with
  | (Throw e, p') => handler e p'
  | r => r
  end.

Definition get_process : M process := λ p, (Ok p, p).
Definition modify (f : process → process) : M unit := λ p, (Ok tt, f p).

(** [args.map(f)], with the effects of [f] in list order. *)
Fixpoint mapM {A B} (f : A → M B) (l : list A) : M (list B) :=
  match l with
  | [] => mret []
  | x :: l => y ← f x; ys ← mapM f l; mret (y :: ys)
  end.

(** The heap part of an effect on the whole process. *)
Definition on_heap {A} (f : heap → outcome A * heap) : M A := λ p,
  let '(r, h) := f (p_heap p) in (r, set_heap h p).

Definition alloc (o : obj) : M value := λ p,
  (Ok (VRef (length (p_heap p))), set_heap (p_heap p ++ [o]) p).

Definition cell (p : process) (v : value) : option obj :=
  match v with
  | VRef l => p_heap p !! l
  | _ => None
  end.

Definition kind_of (p : process) (v : value) : option kind := o_kind <$> cell p v.

Definition new_obj (k : kind) (c : ctor) : obj :=
  {| o_kind := k; o_props := []; o_proto := None; o_ctor := c; o_hidden := no_hidden |}.

(* ===================================================================== *)
(** * What the code takes from its environment                            *)
(* ===================================================================== *)

(** The JavaScript engine and the host objects. Property access, calls and
    construction run arbitrary host code (getters, proxies, native
    methods); the marshalling code is modelled over them. *)
Class Engine : Type := {
  js_get : value → string → heap → outcome value * heap;        (* target[prop] *)
  js_set : value → string → value → heap → outcome unit * heap; (* target[prop] = v *)
  js_apply : value → value → list value → heap → outcome value * heap;
                                                                (* func.apply(caller, args) *)
  js_construct : value → list value → heap → outcome value * heap;
                                                                (* new constructor(...args) *)
  js_require : string → heap → outcome value * heap;            (* process.mainModule.require *)
  js_show : value → string;        (* ToString of a number or an object *)
  electron : value;                (* require('electron') *)
  global : value;
  function_prototype : option loc  (* Function.prototype, when the heap holds it *)
}.

(** [../common/buffer-utils] is required by both files and is not among
    the sources. The spec makes the payload of a [buffer] descriptor a
    binary payload and requires the round trip to be exact; the two
    conversions are parameters, and that requirement is their law.
    [isBuffer] is the test for a [KBuffer] object. *)
Class BufferUtils : Type := {
  bufferToMeta : list Byte.byte → list Byte.byte;
  metaToBuffer : list Byte.byte → list Byte.byte;
  metaToBuffer_bufferToMeta : ∀ b, metaToBuffer (bufferToMeta b) = b
}.

(** The transport: [ipcRenderer.sendSync] blocks until the browser has
    set [event.returnValue]. Seen from the renderer, the reply is a function
    of the chains sent so far; [None] when the browser never replies. *)
Class Transport : Type := {
  reply : list (list command) → option meta
}.

(* ===================================================================== *)
(** * Language-level helpers                                              *)
(* ===================================================================== *)

Definition typeof (p : process) (v : value) : string :=
  match v with
  | VUndefined => "undefined"
  | VNull => "object"
  | VBool _ => "boolean"
  | VNum _ => "number"
  | VStr _ => "string"
  | VError _ _ => "object"
  | VRef _ => match kind_of p v with Some (KFunction _) => "function" | _ => "object" end
  end.

(** [v == null] *)
Definition nullish (v : value) : bool :=
  match v with VUndefined | VNull => true | _ => false end.

(** ToBoolean *)
Definition truthy (v : value) : bool :=
  match v with
  | VUndefined | VNull => false
  | VBool b => b
  | VNum NaN => false
  | VNum (Finite m _) => negb (m =? 0)%Z
  | VNum (Infinity _) => true
  | VStr s => negb (String.eqb s "")
  | VRef _ | VError _ _ => true
  end.

(** A value inside a template literal. *)
Definition template `{Engine} (v : value) : string :=
  match v with
  | VUndefined => "undefined"
  | VNull => "null"
  | VBool true => "true"
  | VBool false => "false"
  | VStr s => s
  | _ => js_show v
  end.

Definition newline : string := String (Ascii.ascii_of_nat 10) "".

(** A property key or a handle id that may be absent from a command. *)
Definition key (name : option string) : string := default "undefined" name.
Definition show_id (id : option Z) : string :=
  match id with Some i => pretty i | None => "undefined" end.

(** ** Error objects *)

Fixpoint assoc_set (k : string) (v : value) (own : list (string * value))
  : list (string * value) :=
  match own with
  | [] => [(k, v)]
  | (k', v') :: own => if String.eqb k k' then (k, v) :: own
                       else (k', v') :: assoc_set k v own
  end.

Fixpoint assoc_get (k : string) (own : list (string * value)) : option value :=
  match own with
  | [] => None
  | (k', v) :: own => if String.eqb k k' then Some v else assoc_get k own
  end.

(** [new cls(message)]: [stack] and [message] are own properties. The
    frames the engine appends to [stack] are left out. *)
Definition new_error (cls message : string) : value :=
  VError cls [("stack", VStr (cls +:+ ": " +:+ message)); ("message", VStr message)].

Definition Error (message : string) : value := new_error "Error" message.
Definition TypeError (message : string) : value := new_error "TypeError" message.

(** [error[prop]]: an own property, or [name] and [message] of the prototype. *)
Definition error_get (cls : string) (own : list (string * value)) (prop : string) : value :=
  match assoc_get prop own with
  | Some v => v
  | None => if String.eqb prop "name" then VStr cls
            else if String.eqb prop "message" then VStr ""
            else VUndefined
  end.

(** [error[prop] = v] *)
Definition error_set (prop : string) (v : value) (error : value) : value :=
  match error with
  | VError cls own => VError cls (assoc_set prop v own)
  | _ => error
  end.

(** [target[prop]] *)
Definition get_member `{Engine} (target : value) (prop : string) : M value :=
  match target with
  | VUndefined | VNull =>
      throw (TypeError ("Cannot read property '" +:+ prop +:+ "' of " +:+ template target))
  | VError cls own => mret (error_get cls own prop)
  | _ => on_heap (js_get target prop)
  end.

(** [target[prop] = v] *)
Definition set_member `{Engine} (target : value) (prop : string) (v : value) : M unit :=
  match target with
  | VUndefined | VNull =>
      throw (TypeError ("Cannot set property '" +:+ prop +:+ "' of " +:+ template target))
  | _ => on_heap (js_set target prop v)
  end.

(** [func.apply(caller, args)]; reading [apply] of [undefined] throws. *)
Definition apply_function `{Engine} (func caller : value) (args : list value) : M value :=
  match func with
  | VUndefined | VNull =>
      throw (TypeError ("Cannot read property 'apply' of " +:+ template func))
  | _ => on_heap (js_apply func caller args)
  end.

(** ** Dates *)

(** The largest time value, 8.64e15 ms. *)
Definition max_time : Z := 8640000000000000.

(** TimeClip of ECMAScript, which [new Date(number)] applies: NaN unless
    finite and within [max_time], then truncated to an integer. *)
Definition TimeClip (n : number) : option Z :=
  match n with
  | Finite m e =>
      if (0 <=? e)%Z
      then (if (Z.abs (m * 2 ^ e) <=? max_time)%Z then Some (m * 2 ^ e)%Z else None)
      else (if (Z.abs m <=? max_time * 2 ^ (- e))%Z then Some (m ÷ 2 ^ (- e))%Z else None)
  | _ => None
  end.

(** [date.getTime()] *)
Definition getTime (t : option Z) : number :=
  match t with Some z => Finite z 0 | None => NaN end.

(** What every [Date] object satisfies. *)
Definition time_value_ok (t : option Z) : Prop :=
  match t with Some z => (Z.abs z <= max_time)%Z | None => True end.

(** ** Own properties *)

Definition own_prop (o : obj) (name : string) : option prop :=
  List.find (λ q, String.eqb (p_name q) name) (o_props o).

(** The object at [l] and its prototypes, nearest first. A chain of
    prototypes has no cycle ([Object.setPrototypeOf] refuses one), so it
    is no longer than the heap: one unit of [fuel] per object. *)
Fixpoint proto_chain (fuel : nat) (h : heap) (l : loc) : list obj :=
  match fuel with
  | O => []
  | S fuel =>
      match h !! l with
      | Some o => o :: match o_proto o with
                       | Some proto => proto_chain fuel h proto
                       | None => []
                       end
      | None => []
      end
  end.

Definition chain (p : process) (v : value) : list obj :=
  match v with
  | VRef l => proto_chain (length (p_heap p)) (p_heap p) l
  | _ => []
  end.

(** The property [name] resolves to along a chain: the own property of
    the nearest object that has one. *)
Fixpoint chain_prop (objs : list obj) (name : string) : option prop :=
  match objs with
  | [] => None
  | o :: objs => match own_prop o name with
                 | Some q => Some q
                 | None => chain_prop objs name
                 end
  end.

(** [object[name]] of an own property whose reading runs no code. *)
Definition slot_value (s : slot) : value :=
  match s with Data v _ => v | Accessor _ _ => VUndefined end.

(** [object[name] = v] on an object the code has just made. *)
Definition define_data (name : string) (v : value) (o : obj) : obj :=
  {| o_kind := o_kind o;
     o_props := List.filter (λ q, negb (String.eqb (p_name q) name)) (o_props o)
                ++ [{| p_name := name; p_enumerable := true; p_slot := Data v true |}];
     o_proto := o_proto o; o_ctor := o_ctor o; o_hidden := o_hidden o |}.

Definition add_prop (q : prop) (o : obj) : obj :=
  {| o_kind := o_kind o; o_props := o_props o ++ [q];
     o_proto := o_proto o; o_ctor := o_ctor o; o_hidden := o_hidden o |}.

Definition set_proto (proto : option loc) (o : obj) : obj :=
  {| o_kind := o_kind o; o_props := o_props o;
     o_proto := proto; o_ctor := o_ctor o; o_hidden := o_hidden o |}.

Definition set_kind (k : kind) (o : obj) : obj :=
  {| o_kind := k; o_props := o_props o;
     o_proto := o_proto o; o_ctor := o_ctor o; o_hidden := o_hidden o |}.

Definition set_atomId (id : Z) (o : obj) : obj :=
  {| o_kind := o_kind o; o_props := o_props o;
     o_proto := o_proto o; o_ctor := o_ctor o;
     o_hidden := {| atomId := Some id; simple := simple (o_hidden o);
                    asynchronous := asynchronous (o_hidden o);
                    returnValue := returnValue (o_hidden o) |} |}.

(** [Object.defineProperty(f, 'name', { value: name })] on a function,
    whose [name] is neither enumerable nor writable. *)
Definition define_name (name : string) (o : obj) : obj :=
  {| o_kind := o_kind o;
     o_props := List.filter (λ q, negb (String.eqb (p_name q) "name")) (o_props o)
                ++ [{| p_name := "name"; p_enumerable := false;
                       p_slot := Data (VStr name) false |}];
     o_proto := o_proto o; o_ctor := o_ctor o; o_hidden := o_hidden o |}.

(** An update in place of the object at [v]. *)
Definition update (v : value) (f : obj → obj) : M unit := λ p,
  match v with
  | VRef l => (Ok tt, set_heap (alter f l (p_heap p)) p)
  | _ => (Ok tt, p)
  end.

(** [value.constructor ? value.constructor.name : ''] *)
Definition constructor_name (p : process) (v : value) : string :=
  match v with
  | VError cls _ => cls
  | _ => match cell p v with
         | Some o => match o_ctor o with
                     | CtorObject => objectName p
                     | CtorNamed n => n
                     | CtorNone => ""
                     end
         | None => ""
         end
  end.

(** [v8Util.getHiddenValue(value, key)], false on what holds none. *)
Definition hidden_of (p : process) (v : value) : hidden :=
  match cell p v with Some o => o_hidden o | None => no_hidden end.

(** ** The Handle Registry *)

(** [objectsRegistry.get(id)] *)
Definition registry_get (r : registry) (id : option Z) : value :=
  match id with
  | Some i => default VUndefined (storage r !! i)
  | None => VUndefined
  end.

(** [objectsRegistry.add(sender, contextId, value)] *)
Definition registry_add (v : value) (r : registry) : Z * registry :=
  let fresh := (nextId r + 1)%Z in
  match v with
  | VRef l =>
      match ids r !! l with
      | Some id => (id, r)
      | None => (fresh, {| storage := <[fresh := v]> (storage r);
                           ids := <[l := fresh]> (ids r);
                           nextId := fresh |})
      end
  | _ => (fresh, {| storage := <[fresh := v]> (storage r);
                    ids := ids r; nextId := fresh |})
  end.

(** [objectsRegistry.clear(sender, contextId)] *)
Definition registry_clear (r : registry) : registry :=
  {| storage := ∅; ids := ∅; nextId := nextId r |}.

(* ===================================================================== *)
(** * lib/browser/rpc-server.js                                           *)
(* ===================================================================== *)

Module Browser.
Section Browser.
Context `{Engine} `{BufferUtils}.

(** The internal properties of Function. *)
Definition FUNCTION_PROPERTIES : list string :=
  ["length"; "name"; "arguments"; "caller"; "prototype"].

Definition includes (names : list string) (name : string) : bool :=
  existsb (String.eqb name) names.

(** Return the description of object's members. *)
Definition getObjectMembers (p : process) (object : value) : list member :=
  match cell p object with
  | None => []
  | Some o =>
      let names := o_props o in
      let names :=
        if String.eqb (typeof p object) "function"
        then List.filter (λ q, negb (includes FUNCTION_PROPERTIES (p_name q))) names
        else names in
      List.map (λ q,
        match p_slot q with
        | Data v writable =>
            if String.eqb (typeof p v) "function"
            then Member (p_name q) (p_enumerable q) false method
            else Member (p_name q) (p_enumerable q) writable get
        | Accessor getter setter =>
            Member (p_name q) (p_enumerable q) (bool_decide (is_Some setter)) get
        end) names
  end.

(** Return the description of object's prototype. The walk takes one
    unit of [fuel] per level. *)
Fixpoint getObjectPrototype (fuel : nat) (p : process) (object : value)
  : outcome (option protodesc) :=
  match cell p object with
  | None => Ok None
  | Some o =>
      match o_proto o with
      | None => Ok None                  (* proto === null || proto === Object.prototype *)
      | Some proto =>
          match fuel with
          | O => Diverge
          | S fuel =>
              match getObjectPrototype fuel p (VRef proto) with
              | Ok d => Ok (Some (ProtoDesc (getObjectMembers p (VRef proto)) d))
              | Throw e => Throw e
              | Diverge => Diverge
              end
          end
      end
  end.

(** Convert object to meta by value. *)
Definition plainObjectToMeta (own : list (string * value)) : list (string * value) := own.

(** The first half of [valueToMeta]: determine the type of value. *)
Definition meta_type (p : process) (value : value) (optimizeSimpleObject : bool) : string :=
  let type := typeof p value in
  if String.eqb type "object" then
    match value with
    | VNull => "value"
    | VError _ _ => "error"
    | _ =>
        match cell p value with
        | Some o =>
            match o_kind o with
            | KBuffer _ => "buffer"
            | KArray _ => "array"
            | KDate _ => "date"
            | KPromise _ _ => "promise"
            | _ =>
                if bool_decide (is_Some (own_prop o "callee"))
                   && negb (nullish (default VUndefined
                                       (slot_value ∘ p_slot <$> own_prop o "length")))
                then "array"  (* Treat the arguments object as array. *)
                else if optimizeSimpleObject && simple (o_hidden o)
                then "value"  (* Treat simple objects as value. *)
                else type
            end
        | None => type
        end
    end
  else type.

(** Convert a real value into meta data. One unit of [fuel] per nested
    call; [sender] and [contextId] only reach the registry, which models
    one session. *)
Fixpoint valueToMeta (fuel : nat) (value : value) (optimizeSimpleObject : bool)
  : M meta :=
  let recur : value_t → bool → M meta :=
    match fuel with
    | O => λ _ _, diverge
    | S fuel => valueToMeta fuel
    end in
  p ← get_process;
  let type := meta_type p value optimizeSimpleObject in
  (* Fill the meta object according to value's type. *)
  if String.eqb type "array" then
    match kind_of p value with
    | Some (KArray elems) =>
        members ← mapM (λ el, recur el optimizeSimpleObject) elems;
        mret (MArray members)
    | _ =>
        (* an arguments object is not an Array: it has no [map] *)
        throw (TypeError "value.map is not a function")
    end
  else if String.eqb type "object" || String.eqb type "function" then
    let name := constructor_name p value in
    (* Reference the original value if it's an object. *)
    let '(id, r) := registry_add value (objectsRegistry p) in
    modify (set_registry r);;
    p ← get_process;
    let members := getObjectMembers p value in
    match getObjectPrototype fuel p value with
    | Ok proto =>
        mret (MRemote (if String.eqb type "function" then TFunction else TObject)
                      name id members proto)
    | Throw e => throw e
    | Diverge => diverge
    end
  else if String.eqb type "buffer" then
    match kind_of p value with
    | Some (KBuffer bytes) => mret (MBuffer (bufferToMeta bytes))
    | _ => mret (MBuffer (bufferToMeta []))
    end
  else if String.eqb type "promise" then
    (* Add default handler to prevent unhandled rejections in main process *)
    update value (λ o, match o_kind o with
                       | KPromise t n => set_kind (KPromise t (S n)) o
                       | _ => o
                       end);;
    then_fn ← alloc {| o_kind := KFunction (ThenFn value); o_props := [];
                       o_proto := function_prototype;
                       o_ctor := CtorNamed "Function"; o_hidden := no_hidden |};
    then_ ← recur then_fn false;
    mret (MPromise then_)
  else if String.eqb type "error" then
    match value with
    | VError cls own =>
        (* Error.name is not part of own properties. *)
        mret (MError (plainObjectToMeta own ++ [("name", error_get cls own "name")]))
    | _ => mret (MError [])
    end
  else if String.eqb type "date" then
    match kind_of p value with
    | Some (KDate t) => mret (MDate (getTime t))
    | _ => mret (MDate NaN)
    end
  else
    mret (MValue value).

(** Convert Error into meta data. *)
Definition exceptionToMeta (fuel : nat) (error : value) : M meta :=
  message ← get_member error "message";
  stack ← get_member error "stack";
  cause ← get_member error "cause";
  cause ← valueToMeta fuel cause false;
  mret (MException message (if truthy stack then stack else error) cause).

Definition RPCError (message : string) : value :=
  error_set "errno" (num (-72)) (error_set "code" (VStr "EBADRPC") (Error message)).

Definition throwRPCError {A} (message : string) : M A := throw (RPCError message).

(** Convert array of meta data from renderer into array of real values.
    [metaToValue] is the inner function of [unwrapArgs]. *)
Fixpoint metaToValue (meta : ameta) : M value :=
  match meta with
  | AValue value => mret value
  | ARemoteObject id =>
      p ← get_process;
      mret (registry_get (objectsRegistry p) (Some id))
  | AArray value =>
      args ← mapM metaToValue value;
      alloc (new_obj (KArray args) (CtorNamed "Array"))
  | ABuffer value => alloc (new_obj (KBuffer (metaToBuffer value)) (CtorNamed "Buffer"))
  | ADate value => alloc (new_obj (KDate (TimeClip value)) (CtorNamed "Date"))
  | APromise then_ =>
      then_ ← metaToValue then_;
      thenable ← alloc (define_data "then" then_ (new_obj KObject CtorObject));
      alloc (new_obj (KPromise (Some thenable) 0) (CtorNamed "Promise"))
  | AObject name members =>
      ret ← alloc (new_obj KObject CtorObject);
      modify (set_objectName name);;
      mapM (λ '(name, value),
              v ← metaToValue value;
              update ret (define_data name v)) members;;
      mret ret
  | AFunctionWithReturnValue value =>
      returnValue ← metaToValue value;
      alloc (new_obj (KFunction (ConstFn returnValue)) (CtorNamed "Function"))
  | AFunction => throw (TypeError "Unsupported type: function")
  | AOther type => throw (TypeError ("Unknown type: " +:+ type))
  end.

(** [args.map(metaToValue)]; a command without the field has no [map]. *)
Definition unwrapArgs (args : option (list ameta)) : M (list value) :=
  match args with
  | Some args => mapM metaToValue args
  | None => throw (TypeError "Cannot read property 'map' of undefined")
  end.

(** The two branches of the [try] block of [callFunction] differ in the
    arguments they pass: [args.push(callback)] when the function is marked
    asynchronous and was not given a callback. *)
Definition push_callback (func : value) (args : list value) : M (list value) :=
  p ← get_process;
  let funcMarkedAsync := asynchronous (hidden_of p func) in
  let funcPassedCallback :=
    String.eqb (typeof p (default VUndefined (last args))) "function" in
  if funcMarkedAsync && negb funcPassedCallback then
    callback ← alloc (new_obj (KFunction ReplyFn) (CtorNamed "Function"));
    mret (args ++ [callback])
  else
    mret args.

(** The error the [catch] block of [callFunction] throws. *)
Definition call_error (funcName message error : value) : value :=
  error_set "cause" error
    (Error ("Could not call remote function '" +:+ template funcName +:+
            "'. Check that the function signature is correct. Underlying error: "
            +:+ template message)).

(** Call a function and send reply asynchronously if it's a an asynchronous
    style function and the caller didn't pass a callback. *)
Definition callFunction (func caller : value) (args : list value) : M value :=
  try_catch
    (args ← push_callback func args;
     apply_function func caller args)
    (λ error,
       (* Catch functions thrown further down in function invocation and wrap
          them with the function name so it's easier to trace things *)
       ref ← get_member func "name";
       let funcName := if nullish ref then VStr "anonymous" else ref in
       message ← get_member error "message";
       throw (call_error funcName message error)).

Definition handleMember (target : value) (prop : string) : M value :=
  v ← get_member target prop;
  p ← get_process;
  if String.eqb (typeof p v) "function" then
    f ← get_member target prop;
    alloc {| o_kind := KFunction (Bound f target); o_props := [];
             o_proto := function_prototype;
             o_ctor := CtorNamed "Function"; o_hidden := no_hidden |}
  else
    get_member target prop.

Definition handleFunction (method target : value) (args : option (list ameta)) : M value :=
  args ← unwrapArgs args;
  callFunction method target args.

Definition handleConstructor (constructor : value) (args : option (list ameta)) : M value :=
  args ← unwrapArgs args;
  (* Call new with array of arguments. *)
  on_heap (js_construct constructor args).

(** [objectsRegistry.get(command.id)], then the [obj == null] guard. *)
Definition remote_object (what : string) (command : command) : M value :=
  p ← get_process;
  let obj := registry_get (objectsRegistry p) (c_id command) in
  if nullish obj then
    throwRPCError ("Cannot " +:+ what +:+ " '" +:+ key (c_name command) +:+
                   "' on missing remote object " +:+ show_id (c_id command))
  else mret obj.

(** [command.id == null ? ret : objectsRegistry.get(command.id)], guarded. *)
Definition call_target (what : string) (command : command) (ret : value) : M value :=
  match c_id command with
  | None => mret ret
  | Some id =>
      p ← get_process;
      let func := registry_get (objectsRegistry p) (Some id) in
      if nullish func then
        throwRPCError ("Cannot call " +:+ what +:+ " on missing remote object " +:+ pretty id)
      else mret func
  end.

(** The body of the [switch (command.type)]: the new value of [ret]. *)
Definition exec_command (sender : value) (command : command) (ret : value) : M value :=
  let type := c_type command in
  if String.eqb type "member_get" then
    handleMember ret (key (c_name command))
  else if String.eqb type "member_set" then
    args ← unwrapArgs (c_value command);
    let value := default VUndefined (head args) in
    set_member ret (key (c_name command)) value;;
    mret VNull
  else if String.eqb type "member_call" then
    method ← get_member ret (key (c_name command));
    handleFunction method ret (c_args command)
  else if String.eqb type "member_constructor" then
    constructor ← get_member ret (key (c_name command));
    handleConstructor constructor (c_args command)
  else if String.eqb type "remote_object_get" then
    obj ← remote_object "get property" command;
    handleMember obj (key (c_name command))
  else if String.eqb type "remote_object_set" then
    obj ← remote_object "set property" command;
    args ← unwrapArgs (c_value command);
    let value := default VUndefined (head args) in
    set_member obj (key (c_name command)) value;;
    mret VNull
  else if String.eqb type "remote_object_call" then
    obj ← remote_object "call function" command;
    method ← get_member obj (key (c_name command));
    handleFunction method obj (c_args command)
  else if String.eqb type "remote_object_constructor" then
    obj ← remote_object "call constructor" command;
    constructor ← get_member obj (key (c_name command));
    handleConstructor constructor (c_args command)
  else if String.eqb type "function_call" then
    func ← call_target "function" command ret;
    handleFunction func global (c_args command)
  else if String.eqb type "constructor_call" then
    constructor ← call_target "constructor" command ret;
    handleConstructor constructor (c_args command)
  else if String.eqb type "get_builtin" then
    get_member electron (key (c_module command))
  else if String.eqb type "get_global" then
    get_member global (key (c_name command))
  else if String.eqb type "get_current_window" then
    getOwnerBrowserWindow ← get_member sender "getOwnerBrowserWindow";
    apply_function getOwnerBrowserWindow sender []
  else if String.eqb type "get_current_web_contents" then
    mret sender
  else if String.eqb type "require" then
    on_heap (js_require (key (c_module command)))
  else
    mret ret.

(** The assignment to [optimize] that ends each turn of the loop. *)
Definition is_call (command : command) : bool :=
  String.eqb (c_type command) "function_call" || String.eqb (c_type command) "member_call".

(** The [for] loop over [commands], from the current [ret] and [optimize]. *)
Fixpoint run_commands (sender : value) (commands : list command)
    (ret : value) (optimize : bool) : M (value * bool) :=
  match commands with
  | [] => mret (ret, optimize)
  | command :: commands =>
      ret ← exec_command sender command ret;
      run_commands sender commands ret (is_call command)
  end.

(** [ipcMain.on('ELECTRON_BROWSER_LAZY_REMOTE_COMMIT', ...)]: the value
    given to [event.returnValue]. A throw out of the [catch] block leaves
    [event.returnValue] unset. *)
Definition commit (fuel : nat) (sender : value) (commands : list command) : M meta :=
  try_catch
    ('(ret, optimize) ← run_commands sender commands VUndefined false;
     valueToMeta fuel ret optimize)
    (λ error, exceptionToMeta fuel error).

(** [ipcMain.on('ELECTRON_BROWSER_LAZY_REMOTE_CONTEXT_RELEASE', ...)] *)
Definition context_release : M value :=
  p ← get_process;
  modify (set_registry (registry_clear (objectsRegistry p)));;
  mret VNull.

End Browser.
End Browser.

(* ===================================================================== *)
(** * lib/renderer/lazy-object.js                                         *)
(* ===================================================================== *)

Module Renderer.
Section Renderer.
Context `{Engine} `{BufferUtils} `{Transport}.

(** [visited.has(value)]: a [Set] compares objects by address, and only
    arrays and objects are ever added. *)
Definition has (visited : gset loc) (value : value) : bool :=
  match value with
  | VRef l => bool_decide (l ∈ visited)
  | _ => false
  end.

(** [visited.add(value)]. The source adds before it walks the children and
    deletes after, on one shared [Set]: at every call the set holds the
    arrays and objects on the path from the argument to the current value,
    which is what passing the extended set down gives. *)
Definition add (value : value) (visited : gset loc) : gset loc :=
  match value with
  | VRef l => {[l]} ∪ visited
  | _ => visited
  end.

(** The keys [for...in] visits along a chain: the enumerable properties
    of each object, nearest first; a property is left out when a nearer
    object has a property of that name, enumerable or not. *)
Fixpoint for_in (objs : list obj) (seen : list string) : list string :=
  match objs with
  | [] => []
  | o :: objs =>
      (p_name <$> List.filter (λ q, p_enumerable q
                                    && negb (bool_decide (p_name q ∈ seen)))
                              (o_props o))
      ++ for_in objs (seen ++ (p_name <$> o_props o))
  end.

(** The keys of [for (let prop in value)]: the enumerable properties of
    the object and those it inherits. *)
Definition enumerable_keys (p : process) (value : value) : list string :=
  for_in (chain p value) [].

(** [value[prop]] inside the loop: the property of the object or of the
    nearest prototype that has it; an accessor runs host code. *)
Definition read_prop (value : value) (prop : string) : M value_t :=
  p ← get_process;
  match chain_prop (chain p value) prop with
  | Some q => match p_slot q with
              | Data v _ => mret v
              | Accessor _ _ => on_heap (js_get value prop)
              end
  | None => on_heap (js_get value prop)
  end.

(** The own enumerable properties of an error object: all but [stack] and
    [message], which [new Error] defines as not enumerable. An error
    object, carried by value, cannot hold itself: [visited] never has it. *)
Definition error_enumerable (own : list (string * value)) : list (string * value) :=
  List.filter (λ kv, negb (String.eqb kv.1 "stack") && negb (String.eqb kv.1 "message")) own.

(** The inner function of [wrapArgs], with its calls to itself and to
    [wrapArgs] made through [recur]. *)
Definition valueToMeta_ (recur : gset loc → value_t → M ameta)
    (visited : gset loc) (value : value) : M ameta :=
  (* Check for circular reference. *)
  if has visited value then mret (AValue VNull) else
  p ← get_process;
  match value, cell p value with
  | _, Some {| o_kind := KArray elems |} =>
      (* wrapArgs(value, visited), with value added *)
      metas ← mapM (recur (add value visited)) elems;
      mret (AArray metas)
  | _, Some {| o_kind := KBuffer bytes |} =>
      mret (ABuffer (bufferToMeta bytes))
  | _, Some {| o_kind := KDate t |} =>
      mret (ADate (getTime t))
  | _, Some {| o_kind := KPromise _ _ |} =>
      then_fn ← alloc {| o_kind := KFunction (ThenFn value); o_props := [];
                         o_proto := function_prototype;
                         o_ctor := CtorNamed "Function"; o_hidden := no_hidden |};
      then_ ← recur visited then_fn;
      mret (APromise then_)
  | _, Some ({| o_kind := KObject |} as o) =>
      let id := default 0%Z (atomId (o_hidden o)) in
      if negb (id =? 0)%Z then mret (ARemoteObject id)
      else
        members ← mapM (λ prop, v ← read_prop value prop;
                                m ← recur (add value visited) v;
                                mret (prop, m)) (enumerable_keys p value);
        mret (AObject (constructor_name p value) members)
  | VError cls own, _ =>
      members ← mapM (λ '(prop, v), m ← recur visited v; mret (prop, m))
                     (error_enumerable own);
      mret (AObject cls members)
  | _, Some ({| o_kind := KFunction _ |} as o) =>
      if returnValue (o_hidden o) then
        rv ← apply_function value VUndefined [];
        m ← recur visited rv;
        mret (AFunctionWithReturnValue m)
      else
        throw (TypeError "Unsupported type: function")
  | _, None => mret (AValue value)
  end.

(** The recursion, one unit of [fuel] per nested call. *)
Fixpoint valueToMeta (fuel : nat) : gset loc → value_t → M ameta :=
  valueToMeta_ match fuel with
               | O => λ _ _, diverge
               | S fuel => valueToMeta fuel
               end.

(** Convert the arguments object into an array of meta data. *)
Definition wrapArgs (fuel : nat) (args : list value) (visited : gset loc)
  : M (list ameta) :=
  mapM (valueToMeta fuel visited) args.

(** [object.hasOwnProperty(name)], with the [hasOwnProperty] of
    [Object.prototype]: what the call does once a member of that very name
    has been defined on [object] is not modelled. *)
Definition hasOwnProperty (p : process) (object : value) (name : string) : bool :=
  match cell p object with
  | Some o => bool_decide (is_Some (own_prop o name))
  | None => false
  end.

(** One turn of the loop of [setObjectMembers]. *)
Definition setObjectMember (object : value) (metaId : Z) (member : member) : M unit :=
  p ← get_process;
  if hasOwnProperty p object (m_name member) then mret tt
  else
    let getter := Some (RemoteGet metaId (m_name member)) in
    let setter :=
      match m_type member with
      | method => None
      | get => if m_writable member
               then Some (RemoteSet metaId (m_name member)) else None
      end in
    update object (add_prop {| p_name := m_name member;
                               p_enumerable := m_enumerable member;
                               p_slot := Accessor getter setter |}).

(** Populate object's members from descriptors. *)
Definition setObjectMembers (object : value) (metaId : Z) (members : list member) : M unit :=
  mapM (setObjectMember object metaId) members;;
  mret tt.

(** Populate object's prototype from descriptor. *)
Fixpoint setObjectPrototype_ (object : value) (metaId : Z) (descriptor : protodesc) : M unit :=
  match descriptor with
  | ProtoDesc members descriptor_proto =>
      proto ← alloc (new_obj KObject CtorObject);
      setObjectMembers proto metaId members;;
      match descriptor_proto with
      | None => mret tt
      | Some d => setObjectPrototype_ proto metaId d
      end;;
      update object (set_proto (match proto with VRef l => Some l | _ => None end))
  end.

Definition setObjectPrototype (object : value) (metaId : Z)
    (descriptor : option protodesc) : M unit :=
  match descriptor with
  | None => mret tt                      (* if (descriptor === null) return *)
  | Some d => setObjectPrototype_ object metaId d
  end.

(** Construct a plain object from the meta, for [meta.type === 'error']. *)
Definition metaToPlainObject (members : list (string * value)) : value :=
  foldl (λ obj '(name, value), error_set name value obj)
        (VError "Error" [("stack", VStr "Error")]) members.

(** Construct an exception error from the meta; [cause] is the decoded
    [meta.cause]. [exports.process] is never set in lazy-object.js, so
    [error.from] is [null]. *)
Definition metaToException (message stack : value) (cause : value) : value :=
  error_set "cause" cause
    (error_set "from" VNull
       (Error (template message +:+ newline +:+ template stack))).

(** [new LazyObject(cmd)]: the proxy, with [this.commands = [cmd]]. *)
Definition LazyObject (cmd : command) : M value :=
  alloc {| o_kind := KFunction (LazyProxy [cmd]); o_props := [];
           o_proto := function_prototype;
           o_ctor := CtorNamed "Function"; o_hidden := no_hidden |}.

(** The getter [setObjectMembers] defines for a member, as the engine
    runs it. *)
Definition remote_getter (metaId : Z) (name : string) : M value :=
  LazyObject (with_name name (with_id metaId (cmd "remote_object_get"))).

(** [Object.defineProperty(ret.constructor, 'name', { value: name })],
    where [ret] is the shell of the handle [metaId]. [ret.constructor] is
    the global [Object], unless the shell or one of its prototypes was
    given a member of that name: its getter returns a new proxy, and it is
    the function behind that proxy that is renamed. *)
Definition defineConstructorName (ret : value) (metaId : Z) (name : string) : M unit :=
  p ← get_process;
  match chain_prop (chain p ret) "constructor" with
  | Some _ =>
      constructor ← remote_getter metaId "constructor";
      update constructor (define_name name)
  | None => modify (set_objectName name)
  end.

(** Convert meta data from browser into real value. *)
Fixpoint metaToValue (meta : meta) : M value :=
  match meta with
  | MValue value => mret value
  | MArray members =>
      members ← mapM metaToValue members;
      alloc (new_obj (KArray members) (CtorNamed "Array"))
  | MBuffer value => alloc (new_obj (KBuffer (metaToBuffer value)) (CtorNamed "Buffer"))
  | MPromise then_ =>
      then_ ← metaToValue then_;
      thenable ← alloc (define_data "then" then_ (new_obj KObject CtorObject));
      alloc (new_obj (KPromise (Some thenable) 0) (CtorNamed "Promise"))
  | MError members => mret (metaToPlainObject members)
  | MDate value => alloc (new_obj (KDate (TimeClip value)) (CtorNamed "Date"))
  | MException message stack cause =>
      cause ← metaToValue cause;
      throw (metaToException message stack cause)
  | MRemote type name id members proto =>
      p ← get_process;
      match remoteObjectCache p !! id with
      | Some cached => mret cached
      | None =>
          match type with
          | TFunction =>
              (* A shadow class to represent the remote function object. *)
              LazyObject (with_id id (cmd "function_call"))
          | TObject =>
              ret ← alloc (new_obj KObject CtorObject);
              setObjectMembers ret id members;;
              setObjectPrototype ret id proto;;
              defineConstructorName ret id name;;
              (* Track delegate obj's lifetime & tell browser to clean up
                 when object is GCed. *)
              modify (add_freer (ret, id));;
              update ret (set_atomId id);;
              p ← get_process;
              modify (set_cache (<[id := ret]> (remoteObjectCache p)));;
              mret ret
          end
      end
  end.

(** [this.commands] of the LazyObject behind a proxy. *)
Definition commands (p : process) (wrapper : value) : option (list command) :=
  match kind_of p wrapper with
  | Some (KFunction (LazyProxy commands)) => Some commands
  | _ => None
  end.

Definition set_commands (wrapper : value) (commands : list command) : M unit :=
  update wrapper (set_kind (KFunction (LazyProxy commands))).

(** [_this.commands.push(c)] *)
Definition push (wrapper : value) (c : command) : M unit :=
  p ← get_process;
  set_commands wrapper (default [] (commands p wrapper) ++ [c]).

(** [ipcRenderer.sendSync('ELECTRON_BROWSER_LAZY_REMOTE_COMMIT', contextId, commands)] *)
Definition sendSync (commands : list command) : M meta := λ p,
  let log := ipcLog p ++ [commands] in
  match reply log with
  | Some meta => (Ok meta, set_ipcLog log p)
  | None => (Diverge, set_ipcLog log p)
  end.

Definition commit (wrapper : value) : M value :=
  p ← get_process;
  meta ← sendSync (default [] (commands p wrapper));
  metaToValue meta.

(** The [get] trap. *)
Definition proxy_get (wrapper : value) (prop : string) : M value :=
  if String.eqb prop "$" then commit wrapper
  else
    push wrapper (with_name prop (cmd "member_get"));;
    mret wrapper.

(** The own properties of the target of the proxy, [new Function()],
    that are neither writable nor configurable; both hold [null]. *)
Definition frozen_properties : list string := ["arguments"; "caller"].

(** [wrapper[prop]]: the [get] trap, then the check the engine makes of
    what a trap returns. For a property of the target that is neither
    writable nor configurable the trap has to report the value the target
    holds, [null]; the trap returns the proxy, and the read throws. The
    engine ends the message with the two values. *)
Definition proxy_read (wrapper : value) (prop : string) : M value :=
  result ← proxy_get wrapper prop;
  if bool_decide (prop ∈ frozen_properties) then
    throw (TypeError ("'get' on proxy: property '" +:+ prop +:+
                      "' is a read-only and non-configurable data property on the "
                      +:+ "proxy target but the proxy did not return its actual value"))
  else mret result.

(** The [set] trap. *)
Definition proxy_set (fuel : nat) (wrapper : value) (prop : string) (value : value)
  : M value_t :=
  value ← wrapArgs fuel [value] ∅;
  push wrapper (with_value value (with_name prop (cmd "member_set")));;
  commit wrapper.

(** [last.args = args; last.type = type], on the command object [last]
    refers to: the one at the index that was last when it was read. *)
Definition upgrade (wrapper : value) (i : nat) (type : string) (args : list ameta) : M unit :=
  p ← get_process;
  set_commands wrapper (alter (λ last, with_type type (with_args args last)) i
                          (default [] (commands p wrapper))).

Definition last_index (p : process) (wrapper : value) : nat :=
  length (default [] (commands p wrapper)) - 1.

(** [last.type], [TypeError] when [last] is [undefined]. *)
Definition last_type (wrapper : value) (i : nat) : M string :=
  p ← get_process;
  match default [] (commands p wrapper) !! i with
  | Some last => mret (c_type last)
  | None => throw (TypeError "Cannot read property 'type' of undefined")
  end.

(** The [apply] trap. *)
Definition proxy_apply (fuel : nat) (wrapper : value) (args : list value) : M value :=
  p ← get_process;
  let last := last_index p wrapper in
  args ← wrapArgs fuel args ∅;
  type ← last_type wrapper last;
  (if String.eqb type "member_get" then
     upgrade wrapper last "member_call" args
   else if String.eqb type "remote_object_get" then
     upgrade wrapper last "remote_object_call" args
   else
     push wrapper (with_args args (cmd "function_call")));;
  mret wrapper.

(** The [construct] trap. *)
Definition proxy_construct (fuel : nat) (wrapper : value) (args : list value) : M value :=
  p ← get_process;
  let last := last_index p wrapper in
  args ← wrapArgs fuel args ∅;
  type ← last_type wrapper last;
  (if String.eqb type "function_call" then
     upgrade wrapper last "constructor_call" args
   else if String.eqb type "member_get" then
     upgrade wrapper last "member_constructor" args
   else if String.eqb type "remote_object_get" then
     upgrade wrapper last "remote_object_constructor" args
   else
     push wrapper (with_args args (cmd "constructor_call")));;
  mret wrapper.

(** The setter [setObjectMembers] defines for a writable member, as the
    engine runs it. *)
Definition remote_setter (fuel : nat) (metaId : Z) (name : string) (value : value)
  : M value_t :=
  args ← wrapArgs fuel [value] ∅;
  wrapper ← LazyObject (with_value args (with_name name (with_id metaId
                          (cmd "remote_object_set"))));
  proxy_get wrapper "$".

End Renderer.
End Renderer.


(* ===================================================================== *)
(** * lib/renderer/remote.js                                              *)
(* ===================================================================== *)

Module Remote.
Section Remote.
Context `{Engine}.

Definition require (module : string) : M value :=
  Renderer.LazyObject (with_module module (cmd "require")).

(** Alias to remote.require('electron').xxx. *)
Definition getBuiltin (module : string) : M value :=
  Renderer.LazyObject (with_module module (cmd "get_builtin")).

Definition getCurrentWindow : M value :=
  Renderer.LazyObject (cmd "get_current_window").

(** Get current WebContents object. *)
Definition getCurrentWebContents : M value :=
  Renderer.LazyObject (cmd "get_current_web_contents").

(** Get a global object in browser. *)
Definition getGlobal (name : string) : M value :=
  Renderer.LazyObject (with_name name (cmd "get_global")).

(** Get the process object in browser: the getter of [exports.process]. *)
Definition process_getter : M value := getGlobal "process".

End Remote.
End Remote.

(* ===================================================================== *)
(** * What the properties speak of                                        *)
(* ===================================================================== *)

(** [error[prop]] of a thrown value that is an error object. *)
Definition error_prop (error : value) (prop : string) : value :=
  match error with
  | VError cls own => error_get cls own prop
  | _ => VUndefined
  end.

(** The four commands rooted at a handle, each with the words its error
    message uses for the operation. *)
Definition remote_object_commands : list (string * string) :=
  [("remote_object_get", "get property");
   ("remote_object_set", "set property");
   ("remote_object_call", "call function");
   ("remote_object_constructor", "call constructor")].

Definition missing_message (what name : string) (id : Z) : string :=
  "Cannot " +:+ what +:+ " '" +:+ name +:+ "' on missing remote object " +:+ pretty id.

(** The case labels of the [switch] of the commit handler. *)
Definition recognized_types : list string :=
  ["member_get"; "member_set"; "member_call"; "member_constructor";
   "remote_object_get"; "remote_object_set"; "remote_object_call";
   "remote_object_constructor"; "function_call"; "constructor_call";
   "get_builtin"; "get_global"; "get_current_window";
   "get_current_web_contents"; "require"].


(** ** Values that are passed by value

    The primitive, array, buffer and date values, as trees: what a value in
    a heap stands for when it is one of these, whichever process it is in. *)
Inductive data : Type :=
  | DPrim (v : value)
  | DArray (elems : list data)
  | DBuffer (bytes : list Byte.byte)
  | DDate (t : option Z).

(** string, number, boolean, null, undefined *)
Definition primitive (v : value) : bool :=
  match v with
  | VRef _ | VError _ _ => false
  | _ => true
  end.

(** [P] holds of the two lists element by element. *)
Fixpoint all2 {A B} (P : A → B → Prop) (vs : list A) (ds : list B) {struct ds} : Prop :=
  match ds, vs with
  | [], [] => True
  | d :: ds, v :: vs => P v d ∧ all2 P vs ds
  | _, _ => False
  end.

(** [denotes h v d]: in the heap [h], the value [v] is the data [d]. *)
Fixpoint denotes (h : heap) (v : value) (d : data) {struct d} : Prop :=
  match d with
  | DPrim w => v = w ∧ primitive w = true
  | DArray ds =>
      ∃ l o elems, v = VRef l ∧ h !! l = Some o ∧ o_kind o = KArray elems ∧
                   all2 (denotes h) elems ds
  | DBuffer bytes => ∃ l o, v = VRef l ∧ h !! l = Some o ∧ o_kind o = KBuffer bytes
  | DDate t => ∃ l o, v = VRef l ∧ h !! l = Some o ∧ o_kind o = KDate t ∧ time_value_ok t
  end.

(** How deep the arrays of a data value nest. *)
Fixpoint nesting (d : data) : nat :=
  match d with
  | DArray ds => S (foldr (λ d n, max (nesting d) n) 0 ds)
  | _ => 0
  end.

(** ** Argument graphs *)









(** [m] is decoded, in any renderer process, to a value that stands for
    [d] in a heap that has only grown. *)
Definition decodes `{Engine} `{BufferUtils} (m : meta) (d : data) : Prop :=
  ∀ pc, ∃ v' pc' ext,
    Renderer.metaToValue m pc = (Ok v', pc')
    ∧ p_heap pc' = p_heap pc ++ ext
    ∧ denotes (p_heap pc') v' d.

(* ===================================================================== *)
(** * A small host, to run the model                                      *)
(* ===================================================================== *)

Module Host.

(** Own data properties only; no getters, no prototypes. *)
Definition own_get (h : heap) (target : value) (prop : string) : value :=
  match target with
  | VRef l => default VUndefined
                (h !! l ≫= λ o, slot_value ∘ p_slot <$> own_prop o prop)
  | _ => VUndefined
  end.

(** [Native 0] returns [undefined], [Native 1] throws an [Error], [Native 2]
    returns its first argument; a bound function calls a native target. *)
Definition native (f : nat) (args : list value) : outcome value :=
  match f with
  | 0 => Ok VUndefined
  | 1 => Throw (Error "boom")
  | 2 => Ok (default VUndefined (head args))
  | _ => Throw (TypeError "not implemented")
  end.

Definition apply (func caller : value) (args : list value) (h : heap)
  : outcome value * heap :=
  match func with
  | VRef l =>
      match o_kind <$> h !! l with
      | Some (KFunction (Native f)) => (native f args, h)
      | Some (KFunction (ConstFn v)) => (Ok v, h)
      | Some (KFunction (Bound (VRef t) _)) =>
          match o_kind <$> h !! t with
          | Some (KFunction (Native f)) => (native f args, h)
          | _ => (Throw (TypeError "func.apply is not a function"), h)
          end
      | _ => (Throw (TypeError "func.apply is not a function"), h)
      end
  | _ => (Throw (TypeError "func.apply is not a function"), h)
  end.

Definition show (v : value) : string :=
  match v with
  | VNum (Finite m 0) => pretty m
  | VNum NaN => "NaN"
  | VRef _ => "[object Object]"
  | _ => ""
  end.

Definition engine : Engine :=
  {| js_get target prop h := (Ok (own_get h target prop), h);
     js_set target prop v h :=
       (Ok tt, match target with
               | VRef l => alter (define_data prop v) l h
               | _ => h
               end);
     js_apply := apply;
     js_construct constructor args h :=
       (Ok (VRef (length h)), h ++ [new_obj KObject CtorObject]);
     js_require module h := (Ok VUndefined, h);
     js_show := show;
     electron := VUndefined;
     global := VUndefined;
     function_prototype := None |}.

(** Buffers sent as they are. *)
Definition buffers : BufferUtils :=
  {| bufferToMeta b := b; metaToBuffer b := b;
     metaToBuffer_bufferToMeta b := eq_refl |}.

(** A browser process at [server] that answers every chain in turn. *)
Fixpoint serve (fuel : nat) (sender : value) (server : process)
    (log : list (list command)) : option meta :=
  match log with
  | [] => None
  | commands :: log =>
      match @Browser.commit engine buffers fuel sender commands server with
      | (Ok meta, server) =>
          match log with
          | [] => Some meta
          | _ => serve fuel sender server log
          end
      | _ => None
      end
  end.

Definition transport (fuel : nat) (sender : value) (server : process) : Transport :=
  {| reply := serve fuel sender server |}.

Definition field (name : string) (v : value) : prop :=
  {| p_name := name; p_enumerable := true; p_slot := Data v true |}.

(** A browser with a window at address 0, whose [id] is 7, whose [hide] is
    the native function at address 1 and whose [fail] is the native
    function at address 4, which throws; the sender, at address 2, has
    [getOwnerBrowserWindow] at address 3, which returns the window. The
    window has handle 3 in the registry. *)
Definition window_process : process :=
  set_registry {| storage := {[ 3%Z := VRef 0 ]}; ids := {[ 0 := 3%Z ]}; nextId := 3 |}
    (set_heap
       [ {| o_kind := KObject;
            o_props := [field "id" (num 7); field "hide" (VRef 1); field "fail" (VRef 4)];
            o_proto := None; o_ctor := CtorNamed "BrowserWindow"; o_hidden := no_hidden |};
         new_obj (KFunction (Native 0)) (CtorNamed "Function");
         {| o_kind := KObject; o_props := [field "getOwnerBrowserWindow" (VRef 3)];
            o_proto := None; o_ctor := CtorNamed "WebContents"; o_hidden := no_hidden |};
         new_obj (KFunction (ConstFn (VRef 0))) (CtorNamed "Function");
         {| o_kind := KFunction (Native 1); o_props := [field "name" (VStr "fail")];
            o_proto := None; o_ctor := CtorNamed "Function"; o_hidden := no_hidden |} ]
       empty_process).

(** The sender of the chains [window_process] is sent. *)
Definition sender : value := VRef 2.

(** A renderer whose heap is one proxy, at address 0, the LazyObject of
    [remote.getCurrentWindow().hide] before it is called. *)
Definition lazy_process : process :=
  set_heap [ {| o_kind := KFunction (LazyProxy [cmd "get_current_window";
                                                with_name "hide" (cmd "member_get")]);
                o_props := []; o_proto := None;
                o_ctor := CtorNamed "Function"; o_hidden := no_hidden |} ]
    empty_process.

(** A browser whose heap is a buffer of one byte at address 0, the date of
    1000 ms at address 1, and at address 2 the array
    [[1, "a", buffer, date, null]]. *)
Definition data_process : process :=
  set_heap [ new_obj (KBuffer [Byte.x2a]) (CtorNamed "Buffer");
             new_obj (KDate (Some 1000%Z)) (CtorNamed "Date");
             new_obj (KArray [num 1; VStr "a"; VRef 0; VRef 1; VNull]) (CtorNamed "Array") ]
    empty_process.

Definition data_value : data :=
  DArray [DPrim (num 1); DPrim (VStr "a"); DBuffer [Byte.x2a]; DDate (Some 1000%Z);
          DPrim VNull].

(** A process whose heap is one array, at address 0, holding itself:
    [a = []; a.push(a)]. *)
Definition cyclic_process : process :=
  set_heap [new_obj (KArray [VRef 0]) (CtorNamed "Array")] empty_process.

(** A process whose heap is one function, at address 0, without marks. *)
Definition function_process : process :=
  set_heap [new_obj (KFunction (Native 0)) (CtorNamed "Function")] empty_process.


(** A host like [engine] whose constructors throw [thrown]:
    [function () { throw thrown }]. *)
Definition throwing (thrown : value) : Engine :=
  {| js_get target prop h := (Ok (own_get h target prop), h);
     js_set target prop v h :=
       (Ok tt, match target with
               | VRef l => alter (define_data prop v) l h
               | _ => h
               end);
     js_apply := apply;
     js_construct constructor args h := (Throw thrown, h);
     js_require module h := (Ok VUndefined, h);
     js_show := show;
     electron := VUndefined;
     global := VUndefined;
     function_prototype := None |}.

(** A browser whose heap is the array of [cyclic_process] at address 0,
    a function at address 1, which has handle 5 in the registry, and the
    sender at address 2. *)
Definition constructor_process : process :=
  set_registry {| storage := {[ 5%Z := VRef 1 ]}; ids := {[ 1 := 5%Z ]}; nextId := 5 |}
    (set_heap [ new_obj (KArray [VRef 0]) (CtorNamed "Array");
                new_obj (KFunction (Native 0)) (CtorNamed "Function");
                new_obj KObject (CtorNamed "WebContents") ]
       empty_process).

(** [e = new Error("boom"); e.cause = a], where [a] is the array at
    address 0. *)
Definition cyclic_cause : value := error_set "cause" (VRef 0) (Error "boom").

(** A renderer that holds the proxy of [lazy_process] at address 0, and
    [proto = {}; o = Object.create(proto); proto.child = o; o.n = 1]:
    [proto] at address 1 and [o] at address 2. *)
Definition inherited_cycle_process : process :=
  set_heap [ {| o_kind := KFunction (LazyProxy [cmd "get_current_window";
                                                with_name "hide" (cmd "member_get")]);
                o_props := []; o_proto := None;
                o_ctor := CtorNamed "Function"; o_hidden := no_hidden |};
             {| o_kind := KObject; o_props := [field "child" (VRef 2)];
                o_proto := None; o_ctor := CtorObject; o_hidden := no_hidden |};
             {| o_kind := KObject; o_props := [field "n" (num 1)];
                o_proto := Some 1; o_ctor := CtorObject; o_hidden := no_hidden |} ]
    empty_process.

End Host.

(* ===================================================================== *)
(** * Notions of the further properties                                   *)
(* ===================================================================== *)

(** [p'] still has the cells that [p] has below [n] as they were; it has
    at least [n] cells, and the ipc log and the registry of [p]. *)
Definition keeps (n : nat) (p p' : process) : Prop :=
  n ≤ length (p_heap p')
  ∧ (∀ l, l < n → p_heap p' !! l = p_heap p !! l)
  ∧ ipcLog p' = ipcLog p
  ∧ objectsRegistry p' = objectsRegistry p.

(** Whatever its outcome, [m] keeps the first [n] cells. *)
Definition preserves {A} (n : nat) (m : M A) : Prop :=
  ∀ p r p', n ≤ length (p_heap p) → m p = (r, p') → keeps n p p'.

(** The entry points of remote.js, each with the command its proxy starts
    from. *)
Definition entry_points `{Engine} (module name : string) : list (M value * command) :=
  [(Remote.require module, with_module module (cmd "require"));
   (Remote.getBuiltin module, with_module module (cmd "get_builtin"));
   (Remote.getCurrentWindow, cmd "get_current_window");
   (Remote.getCurrentWebContents, cmd "get_current_web_contents");
   (Remote.getGlobal name, with_name name (cmd "get_global"));
   (Remote.process_getter, with_name "process" (cmd "get_global"))].

(** [m] is decoded, in any browser process, to a value that stands for
    [d] in a heap that has only grown. *)
Definition arg_decodes `{BufferUtils} (m : ameta) (d : data) : Prop :=
  ∀ pb, ∃ v' pb' ext,
    Browser.metaToValue m pb = (Ok v', pb')
    ∧ p_heap pb' = p_heap pb ++ ext
    ∧ denotes (p_heap pb') v' d.

(** Whatever its outcome, [m] leaves [I] true. *)
Definition maintains {A} (I : process → Prop) (m : M A) : Prop :=
  ∀ p r p', I p → m p = (r, p') → I p'.

(** The cell at [l] is an object that is not an array, a function, a
    buffer, a date or a promise. *)
Definition object_at (l : nat) (p : process) : Prop :=
  ∃ o, p_heap p !! l = Some o ∧ o_kind o = KObject.

(** No [exception] descriptor anywhere in [m]. *)
Fixpoint no_exception (m : meta) : bool :=
  match m with
  | MArray members => forallb no_exception members
  | MPromise then_ => no_exception then_
  | MException _ _ _ => false
  | _ => true
  end.

(** No descriptor in [m] has a type [unwrapArgs] throws on. *)
Fixpoint sendable (m : ameta) : bool :=
  match m with
  | AArray value => forallb sendable value
  | APromise then_ => sendable then_
  | AObject _ members => forallb (λ nm, sendable nm.2) members
  | AFunctionWithReturnValue value => sendable value
  | AFunction | AOther _ => false
  | _ => true
  end.

(** The accessor property [setObjectMembers] defines for a member
    descriptor: always a getter, a setter for a writable [get] member. *)
Definition member_accessor (metaId : Z) (m : member) : prop :=
  {| p_name := m_name m;
     p_enumerable := m_enumerable m;
     p_slot := Accessor (Some (RemoteGet metaId (m_name m)))
                 match m_type m with
                 | method => None
                 | get => if m_writable m
                          then Some (RemoteSet metaId (m_name m)) else None
                 end |}.

(** ** Concrete inputs of the further properties *)

(** The browser of [Host.window_process], answering every chain. *)
Definition window_transport : Transport :=
  Host.transport 1 Host.sender Host.window_process.

(** The descriptor of a window with handle 3: a writable [id], a method
    [hide], and a prototype with a method [show]. *)
Definition window_meta : meta :=
  MRemote TObject "BrowserWindow" 3
    [Member "id" true true get; Member "hide" true false method]
    (Some (ProtoDesc [Member "show" false false method] None)).

(** The descriptor of an instance of a class: the prototype of the
    instance holds the [constructor] of the class. *)
Definition constructed_meta : meta :=
  MRemote TObject "BrowserWindow" 3
    [Member "id" true true get]
    (Some (ProtoDesc [Member "constructor" false true method;
                      Member "show" false true method] None)).

(** The chain of the proxy of [Host.lazy_process]. *)
Definition hide_chain : list command :=
  [cmd "get_current_window"; with_name "hide" (cmd "member_get")].

(** A process whose heap is one empty object, at address 0. *)
Definition shell_process : process :=
  set_heap [new_obj KObject CtorObject] empty_process.

(** A process whose heap is one promise, at address 0. *)
Definition promise_process : process :=
  set_heap [new_obj (KPromise None 0) (CtorNamed "Promise")] empty_process.

(** The names of the members of a prototype descriptor, at every level. *)
Fixpoint proto_names (d : protodesc) : list string :=
  match d with
  | ProtoDesc members proto =>
      (m_name <$> members)
      ++ match proto with Some d => proto_names d | None => [] end
  end.

(** The names of the members of an object descriptor, its own and those
    of its prototypes. *)
Definition member_names (members : list member) (proto : option protodesc)
  : list string :=
  (m_name <$> members) ++ match proto with Some d => proto_names d | None => [] end.

(** The names of the [object] descriptors in [m]. *)
Fixpoint object_names (m : meta) : list string :=
  match m with
  | MArray members => concat (List.map object_names members)
  | MRemote TObject name _ _ _ => [name]
  | MPromise then_ => object_names then_
  | MException _ _ cause => object_names cause
  | _ => []
  end.

(** The global [Object] has one of the names [names]. *)
Definition named (names : list string) (p : process) : Prop :=
  objectName p ∈ names.

(** How many levels a prototype descriptor has. *)
Fixpoint levels (d : protodesc) : nat :=
  match d with
  | ProtoDesc _ proto => S match proto with Some d => levels d | None => 0 end
  end.

(** In [h], the cell at [l] is the shell [setObjectPrototype] makes for
    the level [d] of the handle [id]: its own properties are the accessors
    of the members of the level, and its prototype is the shell of the next
    level, if there is one. All these shells are at or above [n]. *)
Fixpoint shell_at (id : Z) (n : nat) (h : list obj) (l : nat) (d : protodesc) : Prop :=
  match d with
  | ProtoDesc members proto =>
      n ≤ l
      ∧ ∃ o, h !! l = Some o
          ∧ (∀ name, own_prop o name
                     = member_accessor id
                         <$> List.find (λ m, String.eqb (m_name m) name) members)
          ∧ match proto with
            | None => o_proto o = None
            | Some d' => ∃ l', o_proto o = Some l' ∧ shell_at id n h l' d'
            end
  end.

(* ===================================================================== *)
(** * Reasoning about effects                                             *)
(* ===================================================================== *)

Lemma bind_Ok {A B} (m : M A) (f : A → M B) p a p' :
  m p = (Ok a, p') → (m ≫= f) p = f a p'.
Proof. intros E. unfold mbind, M_bind. by rewrite E. Qed.

Lemma bind_Throw {A B} (m : M A) (f : A → M B) p e p' :
  m p = (Throw e, p') → (m ≫= f) p = (Throw e, p').
Proof. intros E. unfold mbind, M_bind. by rewrite E. Qed.

Lemma bind_Diverge {A B} (m : M A) (f : A → M B) p p' :
  m p = (Diverge, p') → (m ≫= f) p = (Diverge, p').
Proof. intros E. unfold mbind, M_bind. by rewrite E. Qed.

Lemma bind_assoc {A B C} (m : M A) (f : A → M B) (g : B → M C) p :
  ((m ≫= f) ≫= g) p = (m ≫= λ a, f a ≫= g) p.
Proof. unfold mbind, M_bind. by destruct (m p) as [[]]. Qed.

Lemma try_catch_Ok {A} (m : M A) handler p a p' :
  m p = (Ok a, p') → try_catch m handler p = (Ok a, p').
Proof. intros E. unfold try_catch. by rewrite E. Qed.

Lemma try_catch_Throw {A} (m : M A) handler p e p' :
  m p = (Throw e, p') → try_catch m handler p = handler e p'.
Proof. intros E. unfold try_catch. by rewrite E. Qed.

Lemma mapM_app {A B} (f : A → M B) (l1 l2 : list A) p :
  mapM f (l1 ++ l2) p =
  (ys1 ← mapM f l1; ys2 ← mapM f l2; mret (ys1 ++ ys2)) p.
Proof.
  revert p. induction l1 as [|x l1 IH]; intros p; cbn [mapM app].
  - unfold mbind, M_bind, mret, M_ret.
    destruct (mapM f l2 p) as [[]]; reflexivity.
  - unfold mbind, M_bind, mret, M_ret in *.
    destruct (f x p) as [[y| |] p1]; try reflexivity.
    rewrite IH. destruct (mapM f l1 p1) as [[ys1| |] p2]; try reflexivity.
    destruct (mapM f l2 p2) as [[]]; reflexivity.
Qed.

(** The literal tests of the source, decided by computation. *)
Ltac literals := cbn [String.eqb Ascii.eqb Bool.eqb andb orb negb].

Section BrowserFacts.
Context `{Engine} `{BufferUtils}.
Import Browser.

(** The loop runs a chain in two parts. *)
Lemma run_commands_app sender pre post ret optimize p :
  run_commands sender (pre ++ post) ret optimize p =
  match run_commands sender pre ret optimize p with
  | (Ok (ret, optimize), p) => run_commands sender post ret optimize p
  | (Throw e, p) => (Throw e, p)
  | (Diverge, p) => (Diverge, p)
  end.
Proof.
  revert ret optimize p. induction pre as [|c pre IH]; intros ret optimize p.
  - reflexivity.
  - cbn [app run_commands]. unfold mbind, M_bind.
    destruct (exec_command sender c ret p) as [[r| |] p1]; try reflexivity.
    apply IH.
Qed.

(** A primitive, and [undefined] above all, is sent as it is. *)
Lemma valueToMeta_undefined fuel optimize p :
  valueToMeta fuel VUndefined optimize p = (Ok (MValue VUndefined), p).
Proof. destruct fuel; reflexivity. Qed.

End BrowserFacts.

Section BrowserClaims.
Context `{Engine} `{BufferUtils}.
Import Browser.

(** What [exceptionToMeta] makes of an error object whose [stack] is not
    empty and whose [cause] the encoder accepts. *)
Lemma exceptionToMeta_error fuel cls own p cause p' :
  valueToMeta fuel (error_get cls own "cause") false p = (Ok cause, p') →
  exceptionToMeta fuel (VError cls own) p =
    (Ok (MException (error_get cls own "message")
           (if truthy (error_get cls own "stack") then error_get cls own "stack"
            else VError cls own) cause), p').
Proof.
  intros E. unfold exceptionToMeta. cbn [get_member].
  unfold mbind, M_bind, mret, M_ret. by rewrite E.
Qed.

(** C3. A [remote_object_get], [_set], [_call] or [_constructor] command
    whose handle id the registry does not hold throws an error with code
    EBADRPC whose message names the property and the handle id; the state is
    the one the commands before it left, no later command runs, and the
    response of the chain is that error as an [exception] descriptor. *)
Theorem missing_remote_object_error
    fuel sender pre command post p ret optimize p1 what id :
  (c_type command, what) ∈ remote_object_commands →
  c_id command = Some id →
  run_commands sender pre VUndefined false p = (Ok (ret, optimize), p1) →
  storage (objectsRegistry p1) !! id = None →
  let message := missing_message what (key (c_name command)) id in
  exec_command sender command ret p1 = (Throw (RPCError message), p1)
  ∧ error_prop (RPCError message) "code" = VStr "EBADRPC"
  ∧ error_prop (RPCError message) "message" = VStr message
  ∧ commit fuel sender (pre ++ command :: post) p =
      (Ok (MException (VStr message) (VStr ("Error: " +:+ message))
             (MValue VUndefined)), p1).
Proof.
  intros Hty Hid Hpre Hreg message.
  assert (Hexec : exec_command sender command ret p1 = (Throw (RPCError message), p1)).
  { unfold exec_command, remote_object_commands in *.
    assert (Hmiss : ∀ w, remote_object w command p1 =
              (Throw (RPCError (missing_message w (key (c_name command)) id)), p1)).
    { intros w. unfold remote_object, mbind, M_bind, get_process, registry_get.
      rewrite Hid, Hreg. reflexivity. }
    set_unfold in Hty.
    subst message.
    destruct Hty as [Hty|[Hty|[Hty|[Hty|[]]]]]; inversion Hty as [[Ht Hw]];
      rewrite Ht; literals; (erewrite bind_Throw; [reflexivity|apply Hmiss]). }
  split; [exact Hexec|]. split; [reflexivity|]. split; [reflexivity|].
  unfold commit. erewrite try_catch_Throw.
  2:{ erewrite bind_Throw; [reflexivity|].
      rewrite run_commands_app, Hpre. cbn [run_commands].
      erewrite bind_Throw; [reflexivity|exact Hexec]. }
  unfold RPCError, Error, new_error. cbn [error_set assoc_set]. literals.
  erewrite exceptionToMeta_error; [reflexivity|].
  apply valueToMeta_undefined.
Qed.

(** What [exceptionToMeta] makes of any thrown value whose three fields
    can be read. *)
Lemma exceptionToMeta_Ok fuel error p message p1 stack p2 c p3 cause p4 :
  get_member error "message" p = (Ok message, p1) →
  get_member error "stack" p1 = (Ok stack, p2) →
  get_member error "cause" p2 = (Ok c, p3) →
  valueToMeta fuel c false p3 = (Ok cause, p4) →
  exceptionToMeta fuel error p =
    (Ok (MException message (if truthy stack then stack else error) cause), p4).
Proof.
  intros E1 E2 E3 E4. unfold exceptionToMeta.
  erewrite bind_Ok by exact E1. erewrite bind_Ok by exact E2.
  erewrite bind_Ok by exact E3. erewrite bind_Ok by exact E4. reflexivity.
Qed.

(** C4, as the code has it. When a step of a chain throws a value whose
    [message], [stack] and [cause] can be read and whose [cause] the
    encoder gives a descriptor for, the commands after it do not run
    and the response is one [exception] descriptor: its [message] is the
    [message] of what was thrown, its [stack] the [stack] of what was thrown
    (the thrown value itself when that is empty), its [cause] the encoding
    of the [cause] of what was thrown. And when the function [callFunction]
    invokes throws, what [callFunction] throws is a new error whose message
    holds the name of the function and whose [cause] is the original.
    When what was thrown is [null] or [undefined], the [catch] block throws
    a TypeError; when encoding the [cause] throws or has no end, so does
    the [catch] block: in neither case is there a response. *)
Theorem thrown_error_is_the_response :
  (∀ fuel sender pre command post p ret optimize p1 error p2
     message p3 stack p4 c p5 cause p6,
     run_commands sender pre VUndefined false p = (Ok (ret, optimize), p1) →
     exec_command sender command ret p1 = (Throw error, p2) →
     get_member error "message" p2 = (Ok message, p3) →
     get_member error "stack" p3 = (Ok stack, p4) →
     get_member error "cause" p4 = (Ok c, p5) →
     valueToMeta fuel c false p5 = (Ok cause, p6) →
     commit fuel sender (pre ++ command :: post) p =
       (Ok (MException message (if truthy stack then stack else error) cause), p6))
  ∧ (∀ func caller args p args' p1 error p2 ref p3 message p4,
       push_callback func args p = (Ok args', p1) →
       apply_function func caller args' p1 = (Throw error, p2) →
       get_member func "name" p2 = (Ok ref, p3) →
       get_member error "message" p3 = (Ok message, p4) →
       let funcName := if nullish ref then VStr "anonymous" else ref in
       callFunction func caller args p = (Throw (call_error funcName message error), p4)
       ∧ error_prop (call_error funcName message error) "message" =
           VStr ("Could not call remote function '" +:+ template funcName +:+
                 "'. Check that the function signature is correct. Underlying error: "
                 +:+ template message)
       ∧ error_prop (call_error funcName message error) "cause" = error)
  ∧ (∀ fuel sender pre command post p ret optimize p1 error p2,
       run_commands sender pre VUndefined false p = (Ok (ret, optimize), p1) →
       exec_command sender command ret p1 = (Throw error, p2) →
       nullish error = true →
       commit fuel sender (pre ++ command :: post) p =
         (Throw (TypeError ("Cannot read property 'message' of " +:+ template error)), p2))
  ∧ (∀ fuel sender pre command post p ret optimize p1 error p2
       message p3 stack p4 c p5 r p6,
       run_commands sender pre VUndefined false p = (Ok (ret, optimize), p1) →
       exec_command sender command ret p1 = (Throw error, p2) →
       get_member error "message" p2 = (Ok message, p3) →
       get_member error "stack" p3 = (Ok stack, p4) →
       get_member error "cause" p4 = (Ok c, p5) →
       valueToMeta fuel c false p5 = (r, p6) →
       commit fuel sender (pre ++ command :: post) p =
         (match r with
          | Ok cause => Ok (MException message (if truthy stack then stack else error) cause)
          | Throw e => Throw e
          | Diverge => Diverge
          end, p6)).
Proof.
  assert (Hcaught : ∀ fuel sender pre command post p ret optimize p1 error p2,
            run_commands sender pre VUndefined false p = (Ok (ret, optimize), p1) →
            exec_command sender command ret p1 = (Throw error, p2) →
            commit fuel sender (pre ++ command :: post) p = exceptionToMeta fuel error p2).
  { intros fuel sender pre command post p ret optimize p1 error p2 Hpre Hexec.
    unfold commit. erewrite try_catch_Throw; [reflexivity|].
    erewrite bind_Throw; [reflexivity|].
    rewrite run_commands_app, Hpre. cbn [run_commands].
    erewrite bind_Throw; [reflexivity|exact Hexec]. }
  split; [|split; [|split]].
  - intros fuel sender pre command post p ret optimize p1 error p2
      message p3 stack p4 c p5 cause p6 Hpre Hexec E1 E2 E3 E4.
    erewrite Hcaught by eassumption.
    eapply exceptionToMeta_Ok; eassumption.
  - intros func caller args p args' p1 error p2 ref p3 message p4
      Hpush Happly Hname Hmsg funcName.
    split; [|split; reflexivity].
    unfold callFunction. erewrite try_catch_Throw.
    + erewrite bind_Ok by exact Hname. erewrite bind_Ok by exact Hmsg. reflexivity.
    + erewrite bind_Ok by exact Hpush. exact Happly.
  - intros fuel sender pre command post p ret optimize p1 error p2 Hpre Hexec Hnull.
    erewrite Hcaught by eassumption.
    destruct error; try discriminate Hnull; reflexivity.
  - intros fuel sender pre command post p ret optimize p1 error p2
      message p3 stack p4 c p5 r p6 Hpre Hexec E1 E2 E3 E4.
    erewrite Hcaught by eassumption. unfold exceptionToMeta.
    erewrite bind_Ok by exact E1. erewrite bind_Ok by exact E2.
    erewrite bind_Ok by exact E3.
    destruct r as [cause|e|].
    + erewrite bind_Ok by exact E4. reflexivity.
    + erewrite bind_Throw; [reflexivity|exact E4].
    + erewrite bind_Diverge; [reflexivity|exact E4].
Qed.

Lemma is_call_spec c :
  is_call c = bool_decide (c_type c = "member_call" ∨ c_type c = "function_call").
Proof.
  unfold is_call.
  destruct (String.eqb_spec (c_type c) "function_call") as [E1|N1];
    destruct (String.eqb_spec (c_type c) "member_call") as [E2|N2]; cbn [orb];
    symmetry; first [apply bool_decide_eq_true | apply bool_decide_eq_false]; tauto.
Qed.






(** Only the empty rest of a chain looks at the flag it is started with. *)
Lemma run_commands_flag sender post ret o1 o2 p :
  post ≠ [] → run_commands sender post ret o1 p = run_commands sender post ret o2 p.
Proof. by destruct post. Qed.

(** C10. A command whose [type] is none of the case labels throws
    nothing and changes nothing: [ret] and the state stay as they were,
    [optimize] becomes false, and the loop goes on with the next command.
    Such a command in front of other commands does not change the response;
    at the end of a chain the response is the encoding of [ret] with the
    flag false; alone, the response is the [value] descriptor of
    [undefined]. *)
Theorem unrecognized_command_is_skipped sender command :
  c_type command ∉ recognized_types →
  (∀ ret p, exec_command sender command ret p = (Ok ret, p))
  ∧ (∀ rest ret optimize p,
       run_commands sender (command :: rest) ret optimize p =
       run_commands sender rest ret false p)
  ∧ (∀ fuel pre post p, post ≠ [] →
       commit fuel sender (pre ++ command :: post) p = commit fuel sender (pre ++ post) p)
  ∧ (∀ fuel pre p ret optimize p1,
       run_commands sender pre VUndefined false p = (Ok (ret, optimize), p1) →
       commit fuel sender (pre ++ [command]) p =
       try_catch (valueToMeta fuel ret false) (exceptionToMeta fuel) p1)
  ∧ (∀ fuel p, commit fuel sender [command] p = (Ok (MValue VUndefined), p)).
Proof.
  intros Hnot.
  assert (Hexec : ∀ ret p, exec_command sender command ret p = (Ok ret, p)).
  { intros ret p. unfold exec_command.
    repeat match goal with
    | |- context [String.eqb (c_type command) ?s] =>
        destruct (String.eqb_spec (c_type command) s) as [E|_];
        [exfalso; apply Hnot; rewrite E; unfold recognized_types; set_solver|]
    end.
    reflexivity. }
  assert (Hcall : is_call command = false).
  { rewrite is_call_spec. apply bool_decide_eq_false. intros [E|E];
      apply Hnot; rewrite E; unfold recognized_types; set_solver. }
  assert (Hrun : ∀ rest ret optimize p,
            run_commands sender (command :: rest) ret optimize p =
            run_commands sender rest ret false p).
  { intros. cbn [run_commands]. erewrite bind_Ok by apply Hexec. by rewrite Hcall. }
  split; [exact Hexec|]. split; [exact Hrun|]. split; [|split].
  - intros fuel pre post p Hpost. unfold commit, try_catch, mbind, M_bind.
    rewrite !run_commands_app.
    destruct (run_commands sender pre VUndefined false p) as [[[r o]| |] p1];
      try reflexivity.
    rewrite Hrun, (run_commands_flag _ _ _ false o) by done. reflexivity.
  - intros fuel pre p ret optimize p1 E. unfold commit.
    unfold try_catch at 1. unfold mbind, M_bind.
    rewrite run_commands_app, E, Hrun. reflexivity.
  - intros fuel p. unfold commit. erewrite try_catch_Ok; [reflexivity|].
    erewrite bind_Ok by (rewrite Hrun; reflexivity).
    apply valueToMeta_undefined.
Qed.

(** C9, as the code has it. A [remote-object] descriptor whose handle id
    the registry does not hold is decoded to [undefined]: [unwrapArgs]
    throws nothing and the state is unchanged. The lookup a command is
    rooted at is guarded: for the same id it throws the error with code
    EBADRPC. *)
Theorem unknown_remote_object_is_undefined id p :
  storage (objectsRegistry p) !! id = None →
  metaToValue (ARemoteObject id) p = (Ok VUndefined, p)
  ∧ unwrapArgs (Some [ARemoteObject id]) p = (Ok [VUndefined], p)
  ∧ (∀ what command, c_id command = Some id →
       ∃ error, remote_object what command p = (Throw error, p)
                ∧ error_prop error "code" = VStr "EBADRPC")
  ∧ (∀ what command ret, c_id command = Some id →
       ∃ error, call_target what command ret p = (Throw error, p)
                ∧ error_prop error "code" = VStr "EBADRPC").
Proof.
  intros Hreg.
  assert (E : metaToValue (ARemoteObject id) p = (Ok VUndefined, p)).
  { cbn [metaToValue]. unfold mbind, M_bind, get_process, mret, M_ret, registry_get.
    by rewrite Hreg. }
  split; [exact E|]. split; [|split].
  - cbn [unwrapArgs mapM]. erewrite bind_Ok by exact E. reflexivity.
  - intros what command Hid. unfold remote_object, mbind, M_bind, get_process.
    rewrite Hid. unfold registry_get. rewrite Hreg. cbn [from_option nullish].
    by eexists.
  - intros what command ret Hid. unfold call_target. rewrite Hid.
    unfold mbind, M_bind, get_process, registry_get. rewrite Hreg.
    cbn [from_option nullish]. by eexists.
Qed.

End BrowserClaims.

Section RendererClaims.
Context `{Engine} `{BufferUtils}.

(** A function that carries no [returnValue] mark is refused wherever the
    renderer's encoder meets it off the current path. *)
Lemma unsupported_function fuel visited l o c p :
  p_heap p !! l = Some o → o_kind o = KFunction c →
  returnValue (o_hidden o) = false → l ∉ visited →
  Renderer.valueToMeta fuel visited (VRef l) p =
    (Throw (TypeError "Unsupported type: function"), p).
Proof.
  intros Hcell Hkind Hmark Hvis.
  destruct fuel; cbn [Renderer.valueToMeta]; unfold Renderer.valueToMeta_;
    cbn [Renderer.has]; rewrite bool_decide_eq_false_2 by done;
    unfold mbind, M_bind, get_process; cbn [cell]; rewrite Hcell;
    destruct o as [k ps pr ct hd]; cbn in Hkind, Hmark; subst k;
    cbn [o_hidden]; rewrite Hmark; reflexivity.
Qed.

(** C7. A function without a [returnValue] mark among the arguments makes
    the renderer's [wrapArgs] throw TypeError 'Unsupported type: function'
    as soon as the arguments before it are encoded: no list of descriptors is
    produced and the [apply] trap records no call. A descriptor tagged
    [function] makes the browser's [unwrapArgs] throw the same error as soon
    as the descriptors before it are decoded. *)
Theorem function_argument_is_rejected :
  (∀ fuel pre l post o c metas p p1,
     Renderer.wrapArgs fuel pre ∅ p = (Ok metas, p1) →
     p_heap p1 !! l = Some o → o_kind o = KFunction c →
     returnValue (o_hidden o) = false →
     Renderer.wrapArgs fuel (pre ++ VRef l :: post) ∅ p =
       (Throw (TypeError "Unsupported type: function"), p1)
     ∧ ∀ wrapper, Renderer.proxy_apply fuel wrapper (pre ++ VRef l :: post) p =
       (Throw (TypeError "Unsupported type: function"), p1))
  ∧ (∀ p, Browser.metaToValue AFunction p =
            (Throw (TypeError "Unsupported type: function"), p))
  ∧ (∀ pre post values p p1,
       Browser.unwrapArgs (Some pre) p = (Ok values, p1) →
       Browser.unwrapArgs (Some (pre ++ AFunction :: post)) p =
         (Throw (TypeError "Unsupported type: function"), p1)).
Proof.
  split; [|split].
  - intros fuel pre l post o c metas p p1 Hpre Hcell Hkind Hmark.
    assert (E : Renderer.wrapArgs fuel (pre ++ VRef l :: post) ∅ p =
                (Throw (TypeError "Unsupported type: function"), p1)).
    { unfold Renderer.wrapArgs in *. rewrite mapM_app.
      erewrite bind_Ok by exact Hpre. cbn [mapM].
      erewrite bind_Throw; [reflexivity|].
      erewrite bind_Throw; [reflexivity|].
      eapply unsupported_function; eauto. set_solver. }
    split; [exact E|]. intros wrapper. unfold Renderer.proxy_apply.
    unfold mbind at 1, M_bind at 1. cbn [get_process].
    erewrite bind_Throw; [reflexivity|exact E].
  - reflexivity.
  - intros pre post values p p1 Hpre. cbn [Browser.unwrapArgs] in *.
    rewrite mapM_app. erewrite bind_Ok by exact Hpre. reflexivity.
Qed.

(** Writing [this.commands] of a proxy, and reading it back. *)
Lemma set_commands_spec wrapper old new p :
  Renderer.commands p wrapper = Some old →
  ∃ p', Renderer.set_commands wrapper new p = (Ok tt, p')
        ∧ Renderer.commands p' wrapper = Some new
        ∧ ipcLog p' = ipcLog p.
Proof.
  unfold Renderer.commands, kind_of, Renderer.set_commands, update.
  destruct wrapper as [| | | | |l|]; try done. cbn [cell].
  destruct (p_heap p !! l) as [o|] eqn:Hl; [|done]. intros _.
  eexists. split; [reflexivity|]. split; [|reflexivity].
  cbn [p_heap set_heap fmap]. rewrite list_lookup_alter_eq, Hl. reflexivity.
Qed.

(** One [sendSync] is one more chain on the wire. *)
Lemma sendSync_log `{Transport} chain p :
  ipcLog (Renderer.sendSync chain p).2 = ipcLog p ++ [chain].
Proof. unfold Renderer.sendSync. by destruct (reply _). Qed.

(** C1. The [apply] trap, when encoding the arguments succeeds and leaves
    the chain of the proxy as it was: a chain ending in [member_get] ends in
    [member_call] afterwards, one ending in [remote_object_get] ends in
    [remote_object_call], with the encoded arguments, the other fields of the
    step and the length of the chain kept; any other chain gets a
    [function_call] step with the arguments appended. The trap sends
    nothing; a commit then sends the chain, whole, in one [sendSync]. *)
Theorem apply_trap_compaction fuel wrapper args metas pre last p p1 :
  Renderer.commands p wrapper = Some (pre ++ [last]) →
  Renderer.wrapArgs fuel args ∅ p = (Ok metas, p1) →
  Renderer.commands p1 wrapper = Some (pre ++ [last]) →
  ∃ p2 chain,
    Renderer.proxy_apply fuel wrapper args p = (Ok wrapper, p2)
    ∧ Renderer.commands p2 wrapper = Some chain
    ∧ (c_type last = "member_get" →
         chain = pre ++ [with_type "member_call" (with_args metas last)]
         ∧ length chain = length (pre ++ [last]))
    ∧ (c_type last = "remote_object_get" →
         chain = pre ++ [with_type "remote_object_call" (with_args metas last)]
         ∧ length chain = length (pre ++ [last]))
    ∧ (c_type last ≠ "member_get" → c_type last ≠ "remote_object_get" →
         chain = pre ++ [last; with_args metas (cmd "function_call")])
    ∧ ipcLog p2 = ipcLog p1
    ∧ ∀ T : Transport,
        Renderer.commit wrapper p2 = (Renderer.sendSync chain ≫= Renderer.metaToValue) p2
        ∧ ipcLog (Renderer.sendSync chain p2).2 = ipcLog p2 ++ [chain].
Proof.
  intros Hcmds Hargs Hcmds1.
  assert (Hlast : Renderer.last_index p wrapper = length pre).
  { unfold Renderer.last_index. rewrite Hcmds. cbn [from_option id].
    rewrite length_app. cbn [length]. lia. }
  assert (Htype : Renderer.last_type wrapper (length pre) p1 = (Ok (c_type last), p1)).
  { unfold Renderer.last_type, mbind, M_bind, get_process. rewrite Hcmds1. cbn [from_option id].
    rewrite lookup_app_r, Nat.sub_diag by lia. reflexivity. }
  assert (Hup : ∀ type, ∃ p2,
            Renderer.upgrade wrapper (length pre) type metas p1 = (Ok tt, p2)
            ∧ Renderer.commands p2 wrapper
              = Some (pre ++ [with_type type (with_args metas last)])
            ∧ ipcLog p2 = ipcLog p1).
  { intros type. unfold Renderer.upgrade, mbind, M_bind, get_process.
    rewrite Hcmds1. cbn [from_option id].
    replace (length pre) with (length pre + 0) by lia.
    rewrite alter_app_r. cbn [alter list_alter].
    eapply set_commands_spec, Hcmds1. }
  assert (Hpush : ∃ p2,
            Renderer.push wrapper (with_args metas (cmd "function_call")) p1 = (Ok tt, p2)
            ∧ Renderer.commands p2 wrapper
              = Some (pre ++ [last; with_args metas (cmd "function_call")])
            ∧ ipcLog p2 = ipcLog p1).
  { unfold Renderer.push, mbind, M_bind, get_process. rewrite Hcmds1. cbn [from_option id].
    rewrite <- app_assoc. eapply set_commands_spec, Hcmds1. }
  assert (Hcommit : ∀ p2 chain, Renderer.commands p2 wrapper = Some chain →
            ∀ T : Transport, Renderer.commit wrapper p2 =
              (Renderer.sendSync chain ≫= Renderer.metaToValue) p2).
  { intros p2 chain E T. unfold Renderer.commit.
    unfold mbind at 1, M_bind at 1. cbn [get_process]. rewrite E. reflexivity. }
  unfold Renderer.proxy_apply.
  unfold mbind at 1, M_bind at 1. cbn [get_process]. rewrite Hlast.
  erewrite bind_Ok by exact Hargs. erewrite bind_Ok by exact Htype.
  destruct (String.eqb_spec (c_type last) "member_get") as [E1|N1].
  - destruct (Hup "member_call") as (p2 & E & Hc & Hlog).
    exists p2, (pre ++ [with_type "member_call" (with_args metas last)]).
    erewrite bind_Ok by exact E.
    split; [reflexivity|]. split; [exact Hc|].
    split; [intros _; split; [reflexivity|rewrite !length_app; reflexivity]|].
    split; [intros E2; rewrite E1 in E2; discriminate|].
    split; [intros N; contradiction|].
    split; [exact Hlog|]. intros T. split; [by apply Hcommit|]. apply sendSync_log.
  - destruct (String.eqb_spec (c_type last) "remote_object_get") as [E2|N2].
    + destruct (Hup "remote_object_call") as (p2 & E & Hc & Hlog).
      exists p2, (pre ++ [with_type "remote_object_call" (with_args metas last)]).
      erewrite bind_Ok by exact E.
      split; [reflexivity|]. split; [exact Hc|].
      split; [intros N; contradiction|].
      split; [intros _; split; [reflexivity|rewrite !length_app; reflexivity]|].
      split; [intros _ N; contradiction|].
      split; [exact Hlog|]. intros T. split; [by apply Hcommit|]. apply sendSync_log.
    + destruct Hpush as (p2 & E & Hc & Hlog).
      exists p2, (pre ++ [last; with_args metas (cmd "function_call")]).
      erewrite bind_Ok by exact E.
      split; [reflexivity|]. split; [exact Hc|].
      split; [intros N; contradiction|].
      split; [intros N; contradiction|].
      split; [reflexivity|].
      split; [exact Hlog|]. intros T. split; [by apply Hcommit|]. apply sendSync_log.
Qed.

(** Defining the members of a shell always succeeds and leaves the cache. *)
Lemma setObjectMember_Ok object metaId member p :
  ∃ p', Renderer.setObjectMember object metaId member p = (Ok tt, p')
        ∧ remoteObjectCache p' = remoteObjectCache p.
Proof.
  unfold Renderer.setObjectMember, mbind, M_bind, get_process.
  destruct (Renderer.hasOwnProperty p object (m_name member)).
  - by exists p.
  - unfold update. destruct object; by eexists.
Qed.

Lemma setObjectMembers_Ok object metaId members p :
  ∃ p', Renderer.setObjectMembers object metaId members p = (Ok tt, p')
        ∧ remoteObjectCache p' = remoteObjectCache p.
Proof.
  unfold Renderer.setObjectMembers.
  cut (∃ us p', mapM (Renderer.setObjectMember object metaId) members p = (Ok us, p')
                ∧ remoteObjectCache p' = remoteObjectCache p).
  { intros (us & p' & E & Hc). exists p'. split; [|exact Hc].
    erewrite bind_Ok by exact E. reflexivity. }
  revert p. induction members as [|m members IH]; intros p.
  - by exists [], p.
  - cbn [mapM].
    destruct (setObjectMember_Ok object metaId m p) as (p1 & E1 & Hc1).
    destruct (IH p1) as (us & p2 & E2 & Hc2).
    exists (tt :: us), p2. split; [|congruence].
    erewrite bind_Ok by exact E1. erewrite bind_Ok by exact E2. reflexivity.
Qed.

Lemma setObjectPrototype_Ok : ∀ descriptor object metaId p,
  ∃ p', Renderer.setObjectPrototype_ object metaId descriptor p = (Ok tt, p')
        ∧ remoteObjectCache p' = remoteObjectCache p.
Proof.
  fix IH 1. intros [members proto] object metaId p. cbn [Renderer.setObjectPrototype_].
  unfold mbind at 1, M_bind at 1. unfold alloc at 1.
  set (p0 := set_heap _ p). set (shell := VRef _).
  destruct (setObjectMembers_Ok shell metaId members p0) as (p1 & E1 & Hc1).
  erewrite bind_Ok by exact E1.
  assert (∃ p2, match proto with
                | Some d => Renderer.setObjectPrototype_ shell metaId d
                | None => mret ()
                end p1 = (Ok tt, p2) ∧ remoteObjectCache p2 = remoteObjectCache p1)
    as (p2 & E2 & Hc2).
  { destruct proto as [d|]; [apply IH|by exists p1]. }
  erewrite bind_Ok by exact E2.
  subst p0. cbn [remoteObjectCache set_heap] in Hc1.
  unfold update. destruct object; eexists; (split; [reflexivity|]);
    cbn [remoteObjectCache set_heap]; congruence.
Qed.

(** Naming the constructor of a shell allocates at most a proxy and
    touches no object the heap held; it is the one step of the decoding
    that may rename the global [Object]. *)
Lemma defineConstructorName_Ok ret id name p :
  ∃ p', Renderer.defineConstructorName ret id name p = (Ok tt, p')
        ∧ remoteObjectCache p' = remoteObjectCache p
        ∧ ipcLog p' = ipcLog p
        ∧ objectsRegistry p' = objectsRegistry p
        ∧ (∃ ext, p_heap p' = p_heap p ++ ext)
        ∧ (objectName p' = name ∨ objectName p' = objectName p).
Proof.
  unfold Renderer.defineConstructorName, mbind at 1, M_bind at 1. cbn [get_process].
  destruct (chain_prop (chain p ret) "constructor") as [q|].
  - eexists. split; [reflexivity|]. cbn [update set_heap p_heap remoteObjectCache
      ipcLog objectsRegistry objectName].
    repeat (split; [reflexivity|]). split; [|by right].
    eexists [_]. rewrite alter_app_r_alt, Nat.sub_diag by reflexivity. reflexivity.
  - eexists. split; [reflexivity|]. repeat (split; [reflexivity|]).
    split; [|by left]. exists []. by rewrite app_nil_r.
Qed.

(** A descriptor whose handle id is in the cache decodes to the cached
    proxy, whatever its tag. *)
Lemma metaToValue_cached type name id members proto cached p :
  remoteObjectCache p !! id = Some cached →
  Renderer.metaToValue (MRemote type name id members proto) p = (Ok cached, p).
Proof.
  intros E. cbn [Renderer.metaToValue]. unfold mbind, M_bind, get_process.
  by rewrite E.
Qed.

(** Decoding an [object] descriptor puts the shell in the cache. *)
Lemma metaToValue_object_caches name id members proto p :
  ∃ ret p', Renderer.metaToValue (MRemote TObject name id members proto) p = (Ok ret, p')
            ∧ remoteObjectCache p' !! id = Some ret.
Proof.
  destruct (remoteObjectCache p !! id) as [cached|] eqn:Hc.
  { exists cached, p. split; [by apply metaToValue_cached|done]. }
  cbn [Renderer.metaToValue]. unfold mbind at 1, M_bind at 1. cbn [get_process].
  rewrite Hc. unfold mbind at 1, M_bind at 1. unfold alloc at 1.
  set (p0 := set_heap _ p). set (ret := VRef _).
  destruct (setObjectMembers_Ok ret id members p0) as (p1 & E1 & Hc1).
  erewrite bind_Ok by exact E1.
  assert (∃ p2, Renderer.setObjectPrototype ret id proto p1 = (Ok tt, p2))
    as (p2 & E2).
  { destruct proto as [d|]; [|by exists p1].
    destruct (setObjectPrototype_Ok d ret id p1) as (p2 & E2 & _). by exists p2. }
  erewrite bind_Ok by exact E2.
  destruct (defineConstructorName_Ok ret id name p2) as (p3 & E3 & _).
  erewrite bind_Ok by exact E3.
  eexists _, _. split; [reflexivity|].
  cbn. apply lookup_insert_eq.
Qed.

(** C2, as the code has it. An [object] descriptor decoded twice gives
    the same proxy both times. A [function] descriptor whose handle id is
    not in the cache gives a new proxy each time it is decoded: the two
    results are different objects, and the cache is left without the id. *)
Theorem decoded_twice :
  (∀ name id members proto p,
     ∃ v p1, Renderer.metaToValue (MRemote TObject name id members proto) p = (Ok v, p1)
             ∧ Renderer.metaToValue (MRemote TObject name id members proto) p1 = (Ok v, p1))
  ∧ (∀ name id members proto p,
       remoteObjectCache p !! id = None →
       ∃ v1 p1 v2 p2,
         Renderer.metaToValue (MRemote TFunction name id members proto) p = (Ok v1, p1)
         ∧ Renderer.metaToValue (MRemote TFunction name id members proto) p1 = (Ok v2, p2)
         ∧ v1 ≠ v2
         ∧ remoteObjectCache p2 !! id = None).
Proof.
  split.
  - intros name id members proto p.
    destruct (metaToValue_object_caches name id members proto p) as (v & p1 & E & Hc).
    exists v, p1. split; [exact E|]. by apply metaToValue_cached.
  - intros name id members proto p Hc.
    set (proxy := {| o_kind := KFunction (LazyProxy [with_id id (cmd "function_call")]);
                     o_props := []; o_proto := function_prototype;
                     o_ctor := CtorNamed "Function"; o_hidden := no_hidden |}).
    set (p1 := set_heap (p_heap p ++ [proxy]) p).
    exists (VRef (length (p_heap p))), p1,
           (VRef (length (p_heap p1))), (set_heap (p_heap p1 ++ [proxy]) p1).
    cbn [Renderer.metaToValue].
    unfold mbind, M_bind, get_process, Renderer.LazyObject, alloc.
    cbn [remoteObjectCache set_heap p1]. rewrite Hc.
    split; [reflexivity|]. split; [reflexivity|]. split; [|done].
    cbn [p_heap set_heap p1]. rewrite length_app. cbn [length]. intros [=]. lia.
Qed.

(** ** The walk of [wrapArgs] ends *)














End RendererClaims.

Section Cycles.
Context `{Engine} `{BufferUtils}.

(** The browser's [valueToMeta] has no set of visited values: on an array
    that holds itself the recursion has no end. *)
Lemma valueToMeta_self_array fuel optimize l o p :
  p_heap p !! l = Some o → o_kind o = KArray [VRef l] →
  Browser.valueToMeta fuel (VRef l) optimize p = (Diverge, p).
Proof.
  intros Hl Hkind.
  assert (Hty : Browser.meta_type p (VRef l) optimize = "array").
  { unfold Browser.meta_type, typeof, kind_of. cbn [cell]. rewrite Hl.
    cbn [fmap option_fmap option_map]. rewrite Hkind. reflexivity. }
  assert (Hk : kind_of p (VRef l) = Some (KArray [VRef l])).
  { unfold kind_of. cbn [cell]. rewrite Hl. cbn. by rewrite Hkind. }
  induction fuel as [|fuel IH];
    cbn [Browser.valueToMeta]; unfold mbind at 1, M_bind at 1; cbn [get_process];
    rewrite Hty; literals; rewrite Hk; cbn [mapM].
  - reflexivity.
  - erewrite bind_Diverge; [reflexivity|].
    erewrite bind_Diverge; [reflexivity|]. exact IH.
Qed.


End Cycles.

(* ===================================================================== *)
(** * From the browser to the renderer and back to a value                *)
(* ===================================================================== *)

Section RoundTrip.
Context `{Engine} `{BufferUtils}.

(** Induction on data, with the elements of an array. *)
Lemma data_ind' (P : data → Prop) :
  (∀ v, P (DPrim v)) →
  (∀ ds, Forall P ds → P (DArray ds)) →
  (∀ bytes, P (DBuffer bytes)) →
  (∀ t, P (DDate t)) →
  ∀ d, P d.
Proof.
  intros Hp Ha Hb Hd. fix IH 1. intros [v|ds|bytes|t];
    [apply Hp|apply Ha|apply Hb|apply Hd].
  induction ds as [|d ds IHds]; constructor; [apply IH|exact IHds].
Qed.

Lemma all2_Forall2 {A B} (P : A → B → Prop) vs ds : all2 P vs ds ↔ Forall2 P vs ds.
Proof.
  revert vs. induction ds as [|d ds IH]; intros [|v vs]; cbn [all2].
  - split; [constructor|done].
  - split; [done|inversion 1].
  - split; [done|inversion 1].
  - rewrite IH. split; [intros []; by constructor|by inversion 1].
Qed.

(** What a value stands for does not change when the heap grows. *)
Lemma denotes_extend d : ∀ h ext v, denotes h v d → denotes (h ++ ext) v d.
Proof.
  induction d as [w|ds IH|bytes|t] using data_ind'; intros h ext v; cbn [denotes].
  - done.
  - intros (l & o & elems & -> & Hl & Hk & Hall).
    exists l, o, elems. split; [done|]. split; [by apply lookup_app_l_Some|].
    split; [done|]. apply all2_Forall2. apply all2_Forall2 in Hall.
    clear Hl Hk. revert elems Hall. induction IH as [|d ds Hd _ IHds];
      intros elems Hall; inversion Hall; subst; constructor; auto.
  - intros (l & o & -> & Hl & Hk). exists l, o. by rewrite (lookup_app_l_Some _ _ _ _ Hl).
  - intros (l & o & -> & Hl & Hk & Ht). exists l, o.
    by rewrite (lookup_app_l_Some _ _ _ _ Hl).
Qed.

Lemma valueToMeta_primitive fuel w optimize p :
  primitive w = true → Browser.valueToMeta fuel w optimize p = (Ok (MValue w), p).
Proof. destruct w; try done; intros _; destruct fuel; reflexivity. Qed.

Lemma TimeClip_getTime t : time_value_ok t → TimeClip (getTime t) = t.
Proof.
  destruct t as [z|]; [|done]. cbn [time_value_ok getTime TimeClip]. intros Hz.
  change (0 <=? 0)%Z with true. cbn [Z.pow]. rewrite Z.mul_1_r.
  by rewrite (proj2 (Z.leb_le _ _) Hz).
Qed.

(** The elements of an array, decoded one after the other. *)
Lemma decodes_mapM ms ds :
  Forall2 decodes ms ds →
  ∀ pc, ∃ vs pc' ext,
    mapM Renderer.metaToValue ms pc = (Ok vs, pc')
    ∧ p_heap pc' = p_heap pc ++ ext
    ∧ Forall2 (denotes (p_heap pc')) vs ds.
Proof.
  induction 1 as [|m d ms ds Hm _ IH]; intros pc; cbn [mapM].
  - exists [], pc, []. by rewrite app_nil_r.
  - destruct (Hm pc) as (v & pc1 & ext1 & E1 & Hh1 & Hv).
    destruct (IH pc1) as (vs & pc2 & ext2 & E2 & Hh2 & Hvs).
    exists (v :: vs), pc2, (ext1 ++ ext2).
    erewrite bind_Ok by exact E1. erewrite bind_Ok by exact E2.
    split; [reflexivity|]. split; [by rewrite Hh2, Hh1, app_assoc|].
    constructor; [|exact Hvs]. rewrite Hh2. by apply denotes_extend.
Qed.

Lemma encode_then_decode d : ∀ v ps fuel optimize,
  denotes (p_heap ps) v d → nesting d ≤ fuel →
  ∃ m, Browser.valueToMeta fuel v optimize ps = (Ok m, ps) ∧ decodes m d.
Proof.
  induction d as [w|ds IH|bytes|t] using data_ind';
    intros v ps fuel optimize Hv Hfuel; cbn [denotes] in Hv.
  - destruct Hv as [-> Hprim]. exists (MValue w).
    split; [by apply valueToMeta_primitive|].
    intros pc. exists w, pc, []. by rewrite app_nil_r.
  - destruct Hv as (l & o & elems & -> & Hl & Hk & Hall).
    apply all2_Forall2 in Hall.
    destruct fuel as [|fuel]; [cbn in Hfuel; lia|].
    assert (Hms : ∃ ms, mapM (λ el, Browser.valueToMeta fuel el optimize) elems ps
                        = (Ok ms, ps) ∧ Forall2 decodes ms ds).
    { cbn [nesting] in Hfuel. apply Nat.succ_le_mono in Hfuel.
      clear Hl Hk. revert elems Hall Hfuel.
      induction IH as [|d ds Hd _ IHds]; intros elems Hall Hfuel.
      - inversion Hall; subst. by exists [].
      - inversion Hall as [|el ? els ? Hel Hels]; subst. cbn [foldr] in Hfuel.
        destruct (Hd el ps fuel optimize Hel) as (m & E & Hm); [lia|].
        destruct (IHds els Hels) as (ms & Es & Hms); [lia|].
        exists (m :: ms). cbn [mapM].
        erewrite bind_Ok by exact E. erewrite bind_Ok by exact Es.
        split; [reflexivity|by constructor]. }
    destruct Hms as (ms & Ems & Hms). exists (MArray ms). split.
    + cbn [Browser.valueToMeta]. unfold mbind at 1, M_bind at 1. cbn [get_process].
      assert (Hty : Browser.meta_type ps (VRef l) optimize = "array").
      { unfold Browser.meta_type, typeof, kind_of. cbn [cell]. rewrite Hl. cbn [fmap option_fmap option_map].
        rewrite Hk. literals. by rewrite ?Hk. }
      rewrite Hty. literals. unfold kind_of. cbn [cell]. rewrite Hl.
      cbn [fmap option_fmap option_map]. rewrite Hk.
      erewrite bind_Ok by exact Ems. reflexivity.
    + intros pc. destruct (decodes_mapM ms ds Hms pc) as (vs & pc' & ext & E & Hh & Hvs).
      eexists _, _, (ext ++ [_]). cbn [Renderer.metaToValue].
      erewrite bind_Ok by exact E. unfold alloc.
      split; [reflexivity|]. cbn [p_heap set_heap].
      split; [by rewrite Hh, app_assoc|].
      cbn [denotes]. eexists _, _, vs. split; [reflexivity|].
      split; [by apply list_lookup_middle|]. split; [reflexivity|].
      apply all2_Forall2. eapply Forall2_impl; [exact Hvs|].
      intros; by apply denotes_extend.
  - destruct Hv as (l & o & -> & Hl & Hk). exists (MBuffer (bufferToMeta bytes)). split.
    + assert (Hty : Browser.meta_type ps (VRef l) optimize = "buffer").
      { unfold Browser.meta_type, typeof, kind_of. cbn [cell]. rewrite Hl.
        cbn [fmap option_fmap option_map]. rewrite Hk. literals. by rewrite ?Hk. }
      destruct fuel; cbn [Browser.valueToMeta]; unfold mbind at 1, M_bind at 1;
        cbn [get_process]; rewrite Hty; literals; unfold kind_of; cbn [cell];
        rewrite Hl; cbn [fmap option_fmap option_map]; rewrite Hk; reflexivity.
    + intros pc. eexists _, _, [_]. cbn [Renderer.metaToValue]. unfold alloc.
      split; [reflexivity|]. split; [reflexivity|].
      cbn [denotes p_heap set_heap]. eexists _, _. split; [reflexivity|].
      split; [by apply list_lookup_middle|]. cbn [o_kind new_obj].
      by rewrite metaToBuffer_bufferToMeta.
  - destruct Hv as (l & o & -> & Hl & Hk & Ht). exists (MDate (getTime t)). split.
    + assert (Hty : Browser.meta_type ps (VRef l) optimize = "date").
      { unfold Browser.meta_type, typeof, kind_of. cbn [cell]. rewrite Hl.
        cbn [fmap option_fmap option_map]. rewrite Hk. literals. by rewrite ?Hk. }
      destruct fuel; cbn [Browser.valueToMeta]; unfold mbind at 1, M_bind at 1;
        cbn [get_process]; rewrite Hty; literals; unfold kind_of; cbn [cell];
        rewrite Hl; cbn [fmap option_fmap option_map]; rewrite Hk; reflexivity.
    + intros pc. eexists _, _, [_]. cbn [Renderer.metaToValue]. unfold alloc.
      split; [reflexivity|]. split; [reflexivity|].
      cbn [denotes p_heap set_heap]. eexists _, _. split; [reflexivity|].
      split; [by apply list_lookup_middle|]. cbn [o_kind new_obj].
      by rewrite TimeClip_getTime.
Qed.

(** C5. A primitive, array, buffer or date value, encoded by the
    browser's [valueToMeta] and decoded by the renderer's [metaToValue],
    is again that value: the same primitive, an array with the same
    elements in the same order, a buffer with the same bytes, a date with
    the same time value. Encoding leaves the browser as it was. *)
Theorem round_trip d v ps fuel optimize pc :
  denotes (p_heap ps) v d → nesting d ≤ fuel →
  ∃ m v' pc',
    Browser.valueToMeta fuel v optimize ps = (Ok m, ps)
    ∧ Renderer.metaToValue m pc = (Ok v', pc')
    ∧ denotes (p_heap pc') v' d.
Proof.
  intros Hv Hfuel.
  destruct (encode_then_decode d v ps fuel optimize Hv Hfuel) as (m & E & Hm).
  destruct (Hm pc) as (v' & pc' & ext & E' & _ & Hv').
  by exists m, v', pc'.
Qed.

End RoundTrip.

(* ===================================================================== *)
(** * Further properties: decoding in the renderer only allocates         *)
(* ===================================================================== *)

Lemma bind_Ok_inv {A B} (m : M A) (f : A → M B) p b p' :
  (m ≫= f) p = (Ok b, p') → ∃ a p1, m p = (Ok a, p1) ∧ f a p1 = (Ok b, p').
Proof.
  unfold mbind, M_bind. destruct (m p) as [[a|e|] p1]; [|done..].
  intros E. by exists a, p1.
Qed.

Lemma keeps_refl n p : n ≤ length (p_heap p) → keeps n p p.
Proof. by intros; repeat split. Qed.

Lemma keeps_trans n p1 p2 p3 : keeps n p1 p2 → keeps n p2 p3 → keeps n p1 p3.
Proof.
  intros (L1 & H1 & I1 & R1) (L2 & H2 & I2 & R2).
  split; [done|]. split; [|split; congruence].
  intros l Hl. rewrite H2, H1; done.
Qed.

Lemma preserves_ret {A} n (a : A) : preserves n (mret a).
Proof. intros p r p' Hn [= <- <-]. by apply keeps_refl. Qed.

Lemma preserves_throw {A} n e : preserves n (@throw A e).
Proof. intros p r p' Hn [= <- <-]. by apply keeps_refl. Qed.

Lemma preserves_get_process n : preserves n get_process.
Proof. intros p r p' Hn [= <- <-]. by apply keeps_refl. Qed.

Lemma preserves_bind' {A B} n (m : M A) (f : A → M B) :
  preserves n m →
  (∀ a p p1, n ≤ length (p_heap p) → m p = (Ok a, p1) →
     n ≤ length (p_heap p1) →
     ∀ r p2, f a p1 = (r, p2) → keeps n p1 p2) →
  preserves n (m ≫= f).
Proof.
  intros Hm Hf p r p' Hn. unfold mbind, M_bind.
  destruct (m p) as [[a|e|] p1] eqn:E.
  - intros Ef. pose proof (Hm _ _ _ Hn E) as Hk.
    eapply keeps_trans; [exact Hk|]. eapply Hf; try done. by destruct Hk.
  - intros [= <- <-]. by eapply Hm.
  - intros [= <- <-]. by eapply Hm.
Qed.

Lemma preserves_bind {A B} n (m : M A) (f : A → M B) :
  preserves n m → (∀ a, preserves n (f a)) → preserves n (m ≫= f).
Proof.
  intros Hm Hf. apply preserves_bind'; [done|].
  intros a p p1 Hn E Hn1 r p2 Ef. by eapply Hf.
Qed.

Lemma preserves_mapM {A B} n (f : A → M B) l :
  (∀ x, x ∈ l → preserves n (f x)) → preserves n (mapM f l).
Proof.
  induction l as [|x l IH]; intros Hf; cbn [mapM].
  - apply preserves_ret.
  - apply preserves_bind; [apply Hf; left|]. intros y.
    apply preserves_bind; [apply IH; intros; apply Hf; by right|].
    intros; apply preserves_ret.
Qed.

Lemma preserves_alloc n o : preserves n (alloc o).
Proof.
  intros p r p' Hn [= <- <-]. split; [|split; [|done]].
  - cbn [p_heap set_heap]. rewrite length_app. lia.
  - intros l Hl. cbn [p_heap set_heap]. apply lookup_app_l. lia.
Qed.

(** An update of a cell at or above [n], or of no cell. *)
Lemma preserves_update n v f :
  (∀ l, v = VRef l → n ≤ l) → preserves n (update v f).
Proof.
  intros Hv p r p' Hn. unfold update. destruct v; intros [= <- <-];
    try by apply keeps_refl.
  split; [|split; [|done]].
  - cbn [p_heap set_heap]. by rewrite length_alter.
  - intros l' Hl'. cbn [p_heap set_heap]. apply list_lookup_alter_ne.
    specialize (Hv _ eq_refl). lia.
Qed.

Lemma preserves_modify n (g : process → process) :
  (∀ p, p_heap (g p) = p_heap p ∧ ipcLog (g p) = ipcLog p
        ∧ objectsRegistry (g p) = objectsRegistry p) →
  preserves n (modify g).
Proof.
  intros Hg p r p' Hn [= <- <-]. destruct (Hg p) as (Hh & Hi & Hr).
  split; [by rewrite Hh|]. split; [by rewrite Hh|done].
Qed.

Lemma maintains_ret {A} I (a : A) : maintains I (mret a).
Proof. by intros p r p' HI [= <- <-]. Qed.

Lemma maintains_get_process I : maintains I get_process.
Proof. by intros p r p' HI [= <- <-]. Qed.

Lemma maintains_bind {A B} I (m : M A) (f : A → M B) :
  maintains I m → (∀ a, maintains I (f a)) → maintains I (m ≫= f).
Proof.
  intros Hm Hf p r p' HI. unfold mbind, M_bind.
  destruct (m p) as [[a|e|] p1] eqn:E.
  - intros Ef. eapply Hf; [|exact Ef]. by eapply Hm.
  - intros [= <- <-]. by eapply Hm.
  - intros [= <- <-]. by eapply Hm.
Qed.

Lemma maintains_mapM {A B} I (f : A → M B) l :
  (∀ x, maintains I (f x)) → maintains I (mapM f l).
Proof.
  intros Hf. induction l as [|x l IH]; cbn [mapM].
  - apply maintains_ret.
  - apply maintains_bind; [apply Hf|]. intros y.
    apply maintains_bind; [apply IH|]. intros; apply maintains_ret.
Qed.

Lemma named_alloc names o : maintains (named names) (alloc o).
Proof. by intros p r p' HI [= <- <-]. Qed.

Lemma named_update names v f : maintains (named names) (update v f).
Proof. intros p r p' HI. unfold update. by destruct v; intros [= <- <-]. Qed.

Lemma named_modify names (g : process → process) :
  (∀ p, objectName (g p) = objectName p ∨ objectName (g p) ∈ names) →
  maintains (named names) (modify g).
Proof.
  intros Hg p r p' HI [= <- <-]. unfold named in *.
  destruct (Hg p) as [-> | ?]; done.
Qed.

Section Decoding.
Context `{Engine} `{BufferUtils}.

Lemma setObjectMembers_preserves n object metaId members :
  (∀ l, object = VRef l → n ≤ l) →
  preserves n (Renderer.setObjectMembers object metaId members).
Proof.
  intros Hobj. unfold Renderer.setObjectMembers.
  apply preserves_bind; [|intros; apply preserves_ret].
  apply preserves_mapM. intros m _. unfold Renderer.setObjectMember.
  apply preserves_bind; [apply preserves_get_process|]. intros p.
  destruct (Renderer.hasOwnProperty _ _ _); [apply preserves_ret|].
  by apply preserves_update.
Qed.

(** What [alloc] returns is a reference to the cell it has added. *)
Lemma alloc_fresh o p a p1 :
  alloc o p = (Ok a, p1) → a = VRef (length (p_heap p)).
Proof. by intros [= <- <-]. Qed.

Lemma setObjectPrototype_preserves n : ∀ descriptor object metaId,
  (∀ l, object = VRef l → n ≤ l) →
  preserves n (Renderer.setObjectPrototype_ object metaId descriptor).
Proof.
  fix IH 1. intros [members proto] object metaId Hobj.
  cbn [Renderer.setObjectPrototype_].
  apply preserves_bind'; [apply preserves_alloc|].
  intros a p p1 Hn Ea Hn1. apply alloc_fresh in Ea as ->.
  assert (Hshell : ∀ l, VRef (length (p_heap p)) = VRef l → n ≤ l)
    by (intros l [= <-]; lia).
  intros r p2 E.
  refine ((_ : preserves n
            (Renderer.setObjectMembers (VRef (length (p_heap p))) metaId members;;
             match proto with
             | Some d => Renderer.setObjectPrototype_ (VRef (length (p_heap p))) metaId d
             | None => mret ()
             end;;
             update object (set_proto (Some (length (p_heap p)))))) p1 r p2 Hn1 E).
  apply preserves_bind; [by apply setObjectMembers_preserves|]. intros _.
  apply preserves_bind; [|intros; by apply preserves_update].
  destruct proto as [d|]; [by apply IH|apply preserves_ret].
Qed.

Lemma defineConstructorName_preserves n ret id name :
  preserves n (Renderer.defineConstructorName ret id name).
Proof.
  unfold Renderer.defineConstructorName.
  apply preserves_bind; [apply preserves_get_process|]. intros p.
  destruct (chain_prop (chain p ret) "constructor") as [q|];
    [|by apply preserves_modify].
  apply preserves_bind'; [apply preserves_alloc|].
  intros a p0 p1 Hn Ea Hn1. apply alloc_fresh in Ea as ->.
  intros r p2 E.
  refine (preserves_update n (VRef (length (p_heap p0))) _ _ p1 r p2 Hn1 E).
  intros l [= <-]. lia.
Qed.

Lemma setObjectMembers_named names object metaId members :
  maintains (named names) (Renderer.setObjectMembers object metaId members).
Proof.
  unfold Renderer.setObjectMembers.
  apply maintains_bind; [|intros; apply maintains_ret].
  apply maintains_mapM. intros m. unfold Renderer.setObjectMember.
  apply maintains_bind; [apply maintains_get_process|]. intros p.
  destruct (Renderer.hasOwnProperty _ _ _); [apply maintains_ret|].
  apply named_update.
Qed.

Lemma setObjectPrototype_named names : ∀ descriptor object metaId,
  maintains (named names) (Renderer.setObjectPrototype_ object metaId descriptor).
Proof.
  fix IH 1. intros [members proto] object metaId.
  cbn [Renderer.setObjectPrototype_].
  apply maintains_bind; [apply named_alloc|]. intros shell.
  apply maintains_bind; [apply setObjectMembers_named|]. intros _.
  apply maintains_bind; [|intros; apply named_update].
  destruct proto as [d|]; [apply IH|apply maintains_ret].
Qed.

Lemma defineConstructorName_named names ret id name :
  name ∈ names → maintains (named names) (Renderer.defineConstructorName ret id name).
Proof.
  intros Hname. unfold Renderer.defineConstructorName.
  apply maintains_bind; [apply maintains_get_process|]. intros p.
  destruct (chain_prop (chain p ret) "constructor").
  - apply maintains_bind; [apply named_alloc|]. intros; apply named_update.
  - apply named_modify. intros q. by right.
Qed.

(** Induction on descriptors, with the members of an array. *)
Lemma meta_ind' (P : meta → Prop) :
  (∀ v, P (MValue v)) →
  (∀ ms, Forall P ms → P (MArray ms)) →
  (∀ type name id members proto, P (MRemote type name id members proto)) →
  (∀ bytes, P (MBuffer bytes)) →
  (∀ m, P m → P (MPromise m)) →
  (∀ members, P (MError members)) →
  (∀ n, P (MDate n)) →
  (∀ message stack cause, P cause → P (MException message stack cause)) →
  ∀ m, P m.
Proof.
  intros Hv Ha Hr Hb Hp He Hd Hx. fix IH 1. intros [v|ms|? ? ? ? ?|bytes|m|ms|n|? ? c].
  - apply Hv.
  - apply Ha. induction ms as [|m ms IHms]; constructor; [apply IH|exact IHms].
  - apply Hr.
  - apply Hb.
  - apply Hp, IH.
  - apply He.
  - apply Hd.
  - apply Hx, IH.
Qed.

Lemma metaToValue_preserves n meta : preserves n (Renderer.metaToValue meta).
Proof.
  induction meta as [v|ms IH|type name id members proto|bytes|m IH|ms|d|msg st c IH]
    using meta_ind'; cbn [Renderer.metaToValue].
  - apply preserves_ret.
  - apply preserves_bind; [|intros; apply preserves_alloc].
    apply preserves_mapM. intros m Hm. rewrite Forall_forall in IH. by apply IH.
  - apply preserves_bind; [apply preserves_get_process|]. intros p.
    destruct (remoteObjectCache p !! id); [apply preserves_ret|].
    destruct type; [|apply preserves_alloc].
    apply preserves_bind'; [apply preserves_alloc|].
    intros a p0 p1 Hn Ea Hn1. apply alloc_fresh in Ea as ->.
    assert (Hret : ∀ l, VRef (length (p_heap p0)) = VRef l → n ≤ l)
      by (intros l [= <-]; lia).
    intros r p2 E.
    refine ((_ : preserves n
      (Renderer.setObjectMembers (VRef (length (p_heap p0))) id members;;
       Renderer.setObjectPrototype (VRef (length (p_heap p0))) id proto;;
       Renderer.defineConstructorName (VRef (length (p_heap p0))) id name;;
       modify (add_freer (VRef (length (p_heap p0)), id));;
       update (VRef (length (p_heap p0))) (set_atomId id);;
       p ← get_process;
       modify (set_cache (<[id:=VRef (length (p_heap p0))]> (remoteObjectCache p)));;
       mret (VRef (length (p_heap p0))))) p1 r p2 Hn1 E).
    apply preserves_bind; [by apply setObjectMembers_preserves|]. intros _.
    apply preserves_bind.
    { destruct proto as [d|]; [by apply setObjectPrototype_preserves|apply preserves_ret]. }
    intros _. apply preserves_bind; [apply defineConstructorName_preserves|]. intros _.
    apply preserves_bind; [by apply preserves_modify|]. intros _.
    apply preserves_bind; [by apply preserves_update|]. intros _.
    apply preserves_bind; [apply preserves_get_process|]. intros p'.
    apply preserves_bind; [by apply preserves_modify|]. intros _.
    apply preserves_ret.
  - apply preserves_alloc.
  - apply preserves_bind; [exact IH|]. intros t.
    apply preserves_bind; [apply preserves_alloc|]. intros; apply preserves_alloc.
  - apply preserves_ret.
  - apply preserves_alloc.
  - apply preserves_bind; [exact IH|]. intros; apply preserves_throw.
Qed.

Lemma own_prop_add_prop q o name :
  own_prop (add_prop q o) name =
  match own_prop o name with
  | Some x => Some x
  | None => if String.eqb (p_name q) name then Some q else None
  end.
Proof.
  unfold own_prop, add_prop. cbn [o_props].
  induction (o_props o) as [|x xs IH]; cbn [app List.find].
  - done.
  - destruct (String.eqb (p_name x) name); [done|exact IH].
Qed.

Lemma setObjectMember_own l o id m name p :
  p_heap p !! l = Some o →
  ∃ p' o', Renderer.setObjectMember (VRef l) id m p = (Ok tt, p')
    ∧ p_heap p' !! l = Some o'
    ∧ own_prop o' name = match own_prop o name with
                         | Some x => Some x
                         | None => if String.eqb (m_name m) name
                                   then Some (member_accessor id m) else None
                         end.
Proof.
  intros Hl. unfold Renderer.setObjectMember, Renderer.hasOwnProperty.
  unfold mbind at 1, M_bind at 1. cbn [get_process cell]. rewrite Hl.
  destruct (own_prop o (m_name m)) as [x|] eqn:Hown.
  - rewrite bool_decide_eq_true_2 by eauto. exists p, o. split; [done|]. split; [done|].
    destruct (own_prop o name) as [y|] eqn:Hy; [done|].
    destruct (String.eqb (m_name m) name) eqn:En; [|done].
    apply String.eqb_eq in En. congruence.
  - rewrite bool_decide_eq_false_2 by (intros [? ?]; done).
    eexists _, _. split; [reflexivity|]. cbn [p_heap set_heap].
    split; [by rewrite list_lookup_alter_eq, Hl|].
    by rewrite own_prop_add_prop.
Qed.

Lemma setObjectMembers_own members : ∀ l o id name p,
  p_heap p !! l = Some o →
  ∃ p' o', Renderer.setObjectMembers (VRef l) id members p = (Ok tt, p')
    ∧ p_heap p' !! l = Some o'
    ∧ own_prop o' name =
      match own_prop o name with
      | Some q => Some q
      | None => member_accessor id
                  <$> List.find (λ m, String.eqb (m_name m) name) members
      end.
Proof.
  unfold Renderer.setObjectMembers.
  induction members as [|m members IH]; intros l o id name p Hl.
  - exists p, o. split; [reflexivity|]. split; [done|]. by destruct (own_prop o name).
  - destruct (setObjectMember_own l o id m name p Hl) as (p1 & o1 & E1 & Hl1 & Ho1).
    destruct (IH l o1 id name p1 Hl1) as (p2 & o2 & E2 & Hl2 & Ho2).
    apply bind_Ok_inv in E2 as (us & p2' & Eus & [= ->]).
    exists p2, o2. split; [|split; [done|]].
    + cbn [mapM]. erewrite bind_Ok; [reflexivity|].
      erewrite bind_Ok by exact E1. erewrite bind_Ok by exact Eus. reflexivity.
    + rewrite Ho2, Ho1. cbn [List.find].
      destruct (own_prop o name); [done|].
      by destruct (String.eqb (m_name m) name).
Qed.

(** ** The shape of a decoded shell *)

(** [setObjectMembers] on the cell at [l] changes no other cell, and of
    the cell neither its prototype nor its kind. *)
Lemma setObjectMembers_frame l id members p :
  ∃ p', Renderer.setObjectMembers (VRef l) id members p = (Ok tt, p')
    ∧ length (p_heap p') = length (p_heap p)
    ∧ (∀ l', l' ≠ l → p_heap p' !! l' = p_heap p !! l')
    ∧ (∀ o, p_heap p !! l = Some o →
         ∃ o', p_heap p' !! l = Some o' ∧ o_proto o' = o_proto o).
Proof.
  unfold Renderer.setObjectMembers.
  cut (∃ us p', mapM (Renderer.setObjectMember (VRef l) id) members p = (Ok us, p')
         ∧ length (p_heap p') = length (p_heap p)
         ∧ (∀ l', l' ≠ l → p_heap p' !! l' = p_heap p !! l')
         ∧ (∀ o, p_heap p !! l = Some o →
              ∃ o', p_heap p' !! l = Some o' ∧ o_proto o' = o_proto o)).
  { intros (us & p' & E & Hrest). exists p'. split; [|exact Hrest].
    erewrite bind_Ok by exact E. reflexivity. }
  revert p. induction members as [|m members IH]; intros p; cbn [mapM].
  - exists [], p. split; [reflexivity|]. split; [reflexivity|]. split; [done|]. eauto.
  - assert (∃ p1, Renderer.setObjectMember (VRef l) id m p = (Ok tt, p1)
              ∧ length (p_heap p1) = length (p_heap p)
              ∧ (∀ l', l' ≠ l → p_heap p1 !! l' = p_heap p !! l')
              ∧ (∀ o, p_heap p !! l = Some o →
                   ∃ o', p_heap p1 !! l = Some o' ∧ o_proto o' = o_proto o))
      as (p1 & E1 & Hlen1 & Hframe1 & Hcell1).
    { unfold Renderer.setObjectMember, mbind, M_bind, get_process.
      destruct (Renderer.hasOwnProperty p (VRef l) (m_name m)).
      - exists p. split; [reflexivity|]. split; [reflexivity|]. split; [done|]. eauto.
      - eexists. split; [reflexivity|]. cbn [p_heap set_heap].
        split; [by rewrite length_alter|]. split.
        + intros l' Hne. by apply list_lookup_alter_ne.
        + intros o Hl. eexists. rewrite list_lookup_alter_eq, Hl. by split. }
    destruct (IH p1) as (us & p2 & E2 & Hlen2 & Hframe2 & Hcell2).
    exists (tt :: us), p2. erewrite bind_Ok by exact E1.
    erewrite bind_Ok by exact E2. split; [reflexivity|]. split; [congruence|]. split.
    + intros l' Hne. by rewrite Hframe2, Hframe1.
    + intros o Hl. destruct (Hcell1 o Hl) as (o1 & Hl1 & Hp1).
      destruct (Hcell2 o1 Hl1) as (o2 & Hl2 & Hp2). exists o2. split; [done|congruence].
Qed.

Lemma shell_at_frame id n h h' : ∀ d l,
  (∀ l' o, n ≤ l' → h !! l' = Some o → h' !! l' = Some o) →
  shell_at id n h l d → shell_at id n h' l d.
Proof.
  fix IH 1. intros [members proto] l Hframe. cbn [shell_at].
  intros (Hn & o & Hl & Hown & Hproto). split; [exact Hn|].
  exists o. split; [by apply Hframe|]. split; [exact Hown|].
  destruct proto as [d'|]; [|exact Hproto].
  destruct Hproto as (l' & Hp & Hshell). exists l'. split; [exact Hp|by apply IH].
Qed.

Lemma shell_at_bound id n n' h : ∀ d l,
  n' ≤ n → shell_at id n h l d → shell_at id n' h l d.
Proof.
  fix IH 1. intros [members proto] l Hle. cbn [shell_at].
  intros (Hn & o & Hl & Hown & Hproto). split; [lia|].
  exists o. split; [exact Hl|]. split; [exact Hown|].
  destruct proto as [d'|]; [|exact Hproto].
  destruct Hproto as (l' & Hp & Hshell). exists l'. split; [exact Hp|by apply IH].
Qed.

Lemma find_member_name name members :
  is_Some (List.find (λ m, String.eqb (m_name m) name) members)
  ↔ name ∈ m_name <$> members.
Proof.
  induction members as [|m members IH]; cbn [List.find fmap list_fmap].
  - split; [by intros [? ?]|by intros ?%elem_of_nil].
  - destruct (String.eqb_spec (m_name m) name) as [->|Hne].
    + split; [intros _; apply list_elem_of_here|by eauto].
    + rewrite IH. split; [apply list_elem_of_further|].
      intros [?|?]%elem_of_cons; [congruence|done].
Qed.

(** A property resolves along the shells of a prototype descriptor when
    a level of the descriptor has a member of that name. *)
Lemma chain_prop_shell id n h name : ∀ d l fuel,
  shell_at id n h l d → levels d ≤ fuel →
  is_Some (chain_prop (proto_chain fuel h l) name) ↔ name ∈ proto_names d.
Proof.
  fix IH 1. intros [members proto] l fuel. cbn [shell_at levels proto_names].
  intros (_ & o & Hl & Hown & Hproto) Hfuel.
  destruct fuel as [|fuel]; [lia|]. cbn [proto_chain]. rewrite Hl.
  cbn [chain_prop]. rewrite Hown, elem_of_app, <- find_member_name.
  destruct (List.find _ members) as [m|]; cbn [fmap option_fmap option_map].
  { split; [intros _; left; by eexists|by eauto]. }
  destruct proto as [d'|].
  - destruct Hproto as (l' & -> & Hshell).
    rewrite (IH d' l' fuel Hshell) by lia.
    split; [by right|]. intros [[? [=]]|?]; done.
  - rewrite Hproto. cbn [chain_prop].
    split; [by intros [? ?]|]. intros [[? [=]]|?%elem_of_nil]; done.
Qed.

(** What [setObjectPrototype] builds: one shell a level, behind the
    object, which is changed in its prototype only. *)
Lemma setObjectPrototype_shell id : ∀ d l o p,
  p_heap p !! l = Some o →
  ∃ p', Renderer.setObjectPrototype_ (VRef l) id d p = (Ok tt, p')
    ∧ p_heap p' !! l = Some (set_proto (Some (length (p_heap p))) o)
    ∧ shell_at id (length (p_heap p)) (p_heap p') (length (p_heap p)) d
    ∧ length (p_heap p') = length (p_heap p) + levels d
    ∧ (∀ l', l' < length (p_heap p) → l' ≠ l → p_heap p' !! l' = p_heap p !! l').
Proof.
  fix IH 1. intros [members proto] l o p Hl.
  pose proof (lookup_lt_Some _ _ _ Hl) as Hlt.
  cbn [Renderer.setObjectPrototype_ levels].
  unfold mbind at 1, M_bind at 1. unfold alloc at 1.
  set (n := length (p_heap p)).
  set (p0 := set_heap (p_heap p ++ [new_obj KObject CtorObject]) p).
  assert (Hn0 : p_heap p0 !! n = Some (new_obj KObject CtorObject)).
  { cbn [p0 p_heap set_heap]. by apply list_lookup_middle. }
  destruct (setObjectMembers_own members n _ id "" p0 Hn0) as (p1 & o1 & E1 & Hn1 & _).
  destruct (setObjectMembers_frame n id members p0) as (p1' & E1' & Hlen1 & Hframe1 & Hcell1).
  rewrite E1 in E1'. injection E1' as <-.
  assert (Hown1 : ∀ name, own_prop o1 name
            = member_accessor id <$> List.find (λ m, String.eqb (m_name m) name) members).
  { intros name.
    destruct (setObjectMembers_own members n _ id name p0 Hn0) as (q & o' & Eq & Hq & Ho').
    rewrite E1 in Eq. injection Eq as <-. rewrite Hn1 in Hq. injection Hq as <-.
    exact Ho'. }
  assert (Hproto1 : o_proto o1 = None).
  { destruct (Hcell1 _ Hn0) as (o' & Ho' & Hp'). rewrite Hn1 in Ho'.
    by injection Ho' as <-. }
  assert (Hlen0 : length (p_heap p0) = S n).
  { cbn [p0 p_heap set_heap]. rewrite length_app. cbn [length]. unfold n. lia. }
  assert (Hl1 : p_heap p1 !! l = Some o).
  { rewrite Hframe1 by lia. cbn [p0 p_heap set_heap]. by apply lookup_app_l_Some. }
  erewrite bind_Ok by exact E1.
  destruct proto as [d'|].
  - destruct (IH d' n o1 p1 Hn1) as (p2 & E2 & Hn2 & Hshell2 & Hlen2 & Hframe2).
    erewrite bind_Ok by exact E2.
    eexists. split; [reflexivity|]. cbn [p_heap set_heap].
    assert (Hl2 : p_heap p2 !! l = Some o).
    { rewrite Hframe2 by lia. exact Hl1. }
    split; [by rewrite list_lookup_alter_eq, Hl2|]. split; [|split].
    + cbn [shell_at]. split; [lia|]. exists (set_proto (Some (length (p_heap p1))) o1).
      split; [rewrite list_lookup_alter_ne by lia; exact Hn2|].
      split; [exact Hown1|]. exists (length (p_heap p1)). split; [reflexivity|].
      eapply shell_at_frame; [|eapply shell_at_bound; [|exact Hshell2]]; [|lia].
      intros l' o' Hle Hl'. rewrite list_lookup_alter_ne by lia. exact Hl'.
    + rewrite length_alter, Hlen2, Hlen1, Hlen0. lia.
    + intros l' Hl' Hne. rewrite list_lookup_alter_ne by done.
      rewrite Hframe2 by lia. rewrite Hframe1 by lia.
      cbn [p0 p_heap set_heap]. by apply lookup_app_l.
  - eexists. split; [reflexivity|]. cbn [p_heap set_heap].
    split; [by rewrite list_lookup_alter_eq, Hl1|]. split; [|split].
    + cbn [shell_at]. split; [lia|]. exists o1.
      split; [rewrite list_lookup_alter_ne by lia; exact Hn1|]. by split.
    + rewrite length_alter, Hlen1, Hlen0. lia.
    + intros l' Hl' Hne. rewrite list_lookup_alter_ne by done.
      rewrite Hframe1 by lia. cbn [p0 p_heap set_heap]. by apply lookup_app_l.
Qed.

(** When the shell of an [object] descriptor is made, [ret.constructor]
    finds a property when the descriptor has a member of that name, on
    the object or on a level of its prototype. *)
Lemma shell_constructor id members proto p p1 p2 :
  let ret := VRef (length (p_heap p)) in
  Renderer.setObjectMembers ret id members
    (set_heap (p_heap p ++ [new_obj KObject CtorObject]) p) = (Ok tt, p1) →
  Renderer.setObjectPrototype ret id proto p1 = (Ok tt, p2) →
  is_Some (chain_prop (chain p2 ret) "constructor")
  ↔ "constructor" ∈ member_names members proto.
Proof.
  intros ret E1 E2.
  set (n := length (p_heap p)) in *.
  set (p0 := set_heap (p_heap p ++ [new_obj KObject CtorObject]) p) in *.
  assert (Hn0 : p_heap p0 !! n = Some (new_obj KObject CtorObject)).
  { cbn [p0 p_heap set_heap]. by apply list_lookup_middle. }
  destruct (setObjectMembers_own members n _ id "constructor" p0 Hn0)
    as (q & o1 & Eq & Hn1 & Hown1).
  fold ret in Eq. rewrite E1 in Eq. injection Eq as <-.
  destruct (setObjectMembers_frame n id members p0) as (q & Eq & Hlen1 & _ & Hcell1).
  fold ret in Eq. rewrite E1 in Eq. injection Eq as <-.
  assert (Hproto1 : o_proto o1 = None).
  { destruct (Hcell1 _ Hn0) as (o' & Ho' & Hp'). rewrite Hn1 in Ho'.
    by injection Ho' as <-. }
  assert (Hlen0 : length (p_heap p0) = S n).
  { cbn [p0 p_heap set_heap]. rewrite length_app. cbn [length]. unfold n. lia. }
  cbn [own_prop new_obj o_props List.find] in Hown1.
  unfold member_names. rewrite elem_of_app, <- find_member_name.
  unfold chain, ret.
  destruct proto as [d|]; cbn [Renderer.setObjectPrototype] in E2.
  - destruct (setObjectPrototype_shell id d n o1 p1 Hn1)
      as (q & Eq & Hn2 & Hshell & Hlen2 & _).
    fold ret in Eq. rewrite E2 in Eq. injection Eq as <-.
    rewrite Hlen2, Hlen1, Hlen0. cbn [Nat.add proto_chain]. rewrite Hn2.
    cbn [o_proto set_proto chain_prop].
    change (own_prop (set_proto (Some (length (p_heap p1))) o1) "constructor")
      with (own_prop o1 "constructor").
    rewrite Hown1.
    destruct (List.find _ members) as [m|]; cbn [fmap option_fmap option_map].
    { split; [intros _; left; by eexists|by eauto]. }
    rewrite (chain_prop_shell id _ _ "constructor" d _ (n + levels d) Hshell) by lia.
    split; [by right|]. intros [[? [=]]|?]; done.
  - injection E2 as <-. rewrite Hlen1, Hlen0. cbn [proto_chain]. rewrite Hn1, Hproto1.
    cbn [chain_prop]. rewrite Hown1.
    destruct (List.find _ members) as [m|]; cbn [fmap option_fmap option_map].
    { split; [intros _; left; by eexists|by eauto]. }
    split; [by intros [? ?]|]. intros [[? [=]]|?%elem_of_nil]; done.
Qed.

(** The name of the global [Object] after a decoding is the one it had
    or the name of an [object] descriptor that was decoded. *)
Lemma metaToValue_named names meta :
  (∀ name, name ∈ object_names meta → name ∈ names) →
  maintains (named names) (Renderer.metaToValue meta).
Proof.
  induction meta as [v|ms IH|type name id members proto|bytes|m IH|ms|d|msg st c IH]
    using meta_ind'; cbn [Renderer.metaToValue object_names]; intros Hnames.
  - apply maintains_ret.
  - apply maintains_bind; [|intros; apply named_alloc].
    assert (Hall : Forall (λ m, maintains (named names) (Renderer.metaToValue m)) ms).
    { rewrite Forall_forall in IH. apply Forall_forall. intros m Hm.
      apply IH; [done|]. intros name Hname. apply Hnames.
      apply list_elem_of_In, in_concat. exists (object_names m).
      split; [apply in_map; by apply list_elem_of_In|by apply list_elem_of_In]. }
    clear IH Hnames. induction Hall as [|m ms Hm _ IHms]; cbn [mapM].
    + apply maintains_ret.
    + apply maintains_bind; [exact Hm|]. intros y.
      apply maintains_bind; [exact IHms|]. intros; apply maintains_ret.
  - apply maintains_bind; [apply maintains_get_process|]. intros p.
    destruct (remoteObjectCache p !! id); [apply maintains_ret|].
    destruct type; [|apply named_alloc].
    apply maintains_bind; [apply named_alloc|]. intros ret.
    apply maintains_bind; [apply setObjectMembers_named|]. intros _.
    apply maintains_bind.
    { destruct proto as [d|]; [apply setObjectPrototype_named|apply maintains_ret]. }
    intros _. apply maintains_bind.
    { apply defineConstructorName_named, Hnames, list_elem_of_here. }
    intros _. apply maintains_bind; [by apply named_modify; left|]. intros _.
    apply maintains_bind; [apply named_update|]. intros _.
    apply maintains_bind; [apply maintains_get_process|]. intros p'.
    apply maintains_bind; [by apply named_modify; left|]. intros _.
    apply maintains_ret.
  - apply named_alloc.
  - apply maintains_bind; [by apply IH|]. intros t.
    apply maintains_bind; [apply named_alloc|]. intros; apply named_alloc.
  - apply maintains_ret.
  - apply named_alloc.
  - apply maintains_bind; [by apply IH|]. intros c' p r p' HI [= <- <-]. exact HI.
Qed.

End Decoding.

Section Traps.
Context `{Engine} `{BufferUtils} `{Transport}.

Lemma metaToValue_keeps_cells meta p r p' :
  Renderer.metaToValue meta p = (r, p') →
  (∀ l o, p_heap p !! l = Some o → p_heap p' !! l = Some o)
  ∧ length (p_heap p) ≤ length (p_heap p')
  ∧ ipcLog p' = ipcLog p
  ∧ objectsRegistry p' = objectsRegistry p.
Proof.
  intros E.
  destruct (metaToValue_preserves (length (p_heap p)) meta p r p' (le_n _) E)
    as (Hlen & Hcells & Hlog & Hreg).
  split; [|done]. intros l o Hl. rewrite Hcells; [done|].
  by eapply lookup_lt_Some.
Qed.

(** Decoding an [object] descriptor that is not in the cache renames the
    global [Object] when no member of the descriptor is named
    [constructor], and leaves its name alone when one is. *)
Lemma metaToValue_object_name name id members proto p r p' :
  remoteObjectCache p !! id = None →
  Renderer.metaToValue (MRemote TObject name id members proto) p = (r, p') →
  objectName p'
  = if bool_decide ("constructor" ∈ member_names members proto)
    then objectName p else name.
Proof.
  intros Hc. cbn [Renderer.metaToValue].
  unfold mbind at 1, M_bind at 1. cbn [get_process]. rewrite Hc.
  unfold mbind at 1, M_bind at 1. unfold alloc at 1.
  set (n := length (p_heap p)).
  set (p0 := set_heap (p_heap p ++ [new_obj KObject CtorObject]) p).
  assert (Hn0 : p_heap p0 !! n = Some (new_obj KObject CtorObject)).
  { cbn [p0 p_heap set_heap]. by apply list_lookup_middle. }
  destruct (setObjectMembers_frame n id members p0) as (p1 & E1 & _ & _ & Hcell1).
  destruct (Hcell1 _ Hn0) as (o1 & Hn1 & _).
  assert (∃ p2, Renderer.setObjectPrototype (VRef n) id proto p1 = (Ok tt, p2))
    as (p2 & E2).
  { destruct proto as [d|]; cbn [Renderer.setObjectPrototype]; [|by eexists].
    destruct (setObjectPrototype_shell id d n o1 p1 Hn1) as (p2 & E2 & _). by exists p2. }
  assert (Hname2 : objectName p2 = objectName p).
  { assert (named [objectName p] p2) as Hin;
      [|unfold named in Hin; by apply list_elem_of_singleton in Hin].
    assert (named [objectName p] p1) as Hin1.
    { eapply setObjectMembers_named; [|exact E1]. apply list_elem_of_here. }
    destruct proto as [d|]; cbn [Renderer.setObjectPrototype] in E2.
    - eapply setObjectPrototype_named; [exact Hin1|exact E2].
    - by injection E2 as <-. }
  pose proof (shell_constructor id members proto p p1 p2 E1 E2) as Hctor.
  erewrite bind_Ok by exact E1. erewrite bind_Ok by exact E2.
  unfold Renderer.defineConstructorName.
  unfold mbind at 1, M_bind at 1. unfold mbind at 1 2, M_bind at 1 2. cbn [get_process].
  cbv zeta in Hctor. fold n in Hctor |- *.
  destruct (chain_prop (chain p2 (VRef n)) "constructor") as [q|].
  - rewrite bool_decide_eq_true_2 by (apply Hctor; by eexists).
    intros [= _ <-]. exact Hname2.
  - rewrite bool_decide_eq_false_2 by (intros [? [=]]%Hctor).
    intros [= _ <-]. reflexivity.
Qed.

(** X1. Decoding a descriptor in the renderer changes no object of the
    heap: every cell the heap held is still there as it was, nothing is
    sent, and the registry is not touched, whether the decoding returns or
    throws. The one thing it changes outside the cells it allocates, the
    cache and the list of freers is the name of the global [Object]
    constructor, and that only to the name of an [object] descriptor it
    has decoded. For an [object] descriptor that is not in the cache and
    has no member named [hasOwnProperty], the global [Object] takes the
    name of the descriptor when no member of the descriptor, its own or
    of a level of its prototype, is named [constructor]; when one is, it
    is the function behind a new proxy that takes the name, and the
    global [Object] keeps its own. *)
Theorem metaToValue_only_allocates meta p r p' :
  Renderer.metaToValue meta p = (r, p') →
  (∀ l o, p_heap p !! l = Some o → p_heap p' !! l = Some o)
  ∧ length (p_heap p) ≤ length (p_heap p')
  ∧ ipcLog p' = ipcLog p
  ∧ objectsRegistry p' = objectsRegistry p
  ∧ objectName p' ∈ objectName p :: object_names meta
  ∧ (∀ name id members proto,
       meta = MRemote TObject name id members proto →
       remoteObjectCache p !! id = None →
       ("hasOwnProperty" ∉ member_names members proto) →
       objectName p'
       = if bool_decide ("constructor" ∈ member_names members proto)
         then objectName p else name).
Proof.
  intros E.
  destruct (metaToValue_keeps_cells meta p r p' E) as (Hcells & Hlen & Hlog & Hreg).
  repeat (split; [done|]). split.
  - refine (metaToValue_named (objectName p :: object_names meta) meta _ p r p' _ E).
    + intros name Hname. by apply list_elem_of_further.
    + apply list_elem_of_here.
  - intros name id members proto -> Hc _.
    by eapply metaToValue_object_name.
Qed.

Lemma commands_kept wrapper chain p p' :
  (∀ l o, p_heap p !! l = Some o → p_heap p' !! l = Some o) →
  Renderer.commands p wrapper = Some chain → Renderer.commands p' wrapper = Some chain.
Proof.
  intros Hcells. unfold Renderer.commands, kind_of.
  destruct wrapper; try done. cbn [cell].
  destruct (p_heap p !! l) as [o|] eqn:Hl; [|done].
  by rewrite (Hcells _ _ Hl).
Qed.

Lemma commit_once wrapper chain p r p' :
  Renderer.commands p wrapper = Some chain →
  Renderer.commit wrapper p = (r, p') →
  ipcLog p' = ipcLog p ++ [chain] ∧ Renderer.commands p' wrapper = Some chain.
Proof.
  intros Hc. unfold Renderer.commit.
  unfold mbind at 1, M_bind at 1. cbn [get_process]. rewrite Hc. cbn [from_option id].
  unfold mbind, M_bind, Renderer.sendSync.
  destruct (reply (ipcLog p ++ [chain])) as [meta|].
  - destruct (Renderer.metaToValue meta _) as [r0 p0] eqn:E.
    destruct (metaToValue_keeps_cells _ _ _ _ E) as (Hcells & _ & Hlog & _).
    intros Er. assert (p0 = p') as -> by (by destruct r0; injection Er).
    split; [by rewrite Hlog|]. eapply commands_kept; [exact Hcells|exact Hc].
  - intros [= <- <-]. split; [done|exact Hc].
Qed.

(** X2. A commit sends the chain of the proxy, whole, as one message, and
    leaves the chain in place: it is not emptied, whatever the reply. A
    second commit sends the same chain again. *)
Theorem commit_sends_and_keeps wrapper chain p r p' :
  Renderer.commands p wrapper = Some chain →
  Renderer.commit wrapper p = (r, p') →
  ipcLog p' = ipcLog p ++ [chain]
  ∧ Renderer.commands p' wrapper = Some chain
  ∧ ∀ r2 p2, Renderer.commit wrapper p' = (r2, p2) →
      ipcLog p2 = ipcLog p ++ [chain; chain].
Proof.
  intros Hc E. destruct (commit_once _ _ _ _ _ Hc E) as [Hlog Hc'].
  split; [done|]. split; [done|].
  intros r2 p2 E2. destruct (commit_once _ _ _ _ _ Hc' E2) as [Hlog2 _].
  by rewrite Hlog2, Hlog, <- app_assoc.
Qed.

Lemma proxy_get_spec wrapper prop chain p :
  prop ≠ "$" →
  Renderer.commands p wrapper = Some chain →
  ∃ p', Renderer.proxy_get wrapper prop p = (Ok wrapper, p')
        ∧ Renderer.commands p' wrapper
          = Some (chain ++ [with_name prop (cmd "member_get")])
        ∧ ipcLog p' = ipcLog p.
Proof.
  intros Hprop Hc. unfold Renderer.proxy_get.
  destruct (String.eqb_spec prop "$") as [|_]; [done|].
  destruct (set_commands_spec wrapper chain
              (chain ++ [with_name prop (cmd "member_get")]) p Hc) as (p' & E & Hc' & Hlog).
  exists p'. split; [|done].
  unfold Renderer.push. unfold mbind at 1 2, M_bind at 1 2. cbn [get_process].
  rewrite Hc. cbn [from_option id]. by rewrite E.
Qed.

(** X3. The [get] trap, for a property other than [$]: a [member_get]
    step for the property is appended to the chain, the proxy itself is
    returned, and nothing is sent. *)
Theorem get_trap_appends wrapper prop chain p :
  prop ≠ "$" →
  Renderer.commands p wrapper = Some chain →
  ∃ p', Renderer.proxy_get wrapper prop p = (Ok wrapper, p')
        ∧ Renderer.commands p' wrapper
          = Some (chain ++ [with_name prop (cmd "member_get")])
        ∧ ipcLog p' = ipcLog p.
Proof. apply proxy_get_spec. Qed.

(** X4. The [set] trap, when encoding the value succeeds and leaves the
    chain of the proxy as it was: a [member_set] step with the property and
    the encoded value is appended and the chain is sent at once, as one
    message; the chain stays in place afterwards. *)
Theorem set_trap_commits fuel wrapper prop v metas chain p p1 r p' :
  Renderer.wrapArgs fuel [v] ∅ p = (Ok metas, p1) →
  Renderer.commands p1 wrapper = Some chain →
  Renderer.proxy_set fuel wrapper prop v p = (r, p') →
  let sent := chain ++ [with_value metas (with_name prop (cmd "member_set"))] in
  ipcLog p' = ipcLog p1 ++ [sent]
  ∧ Renderer.commands p' wrapper = Some sent.
Proof.
  intros Hargs Hc E sent. unfold Renderer.proxy_set in E.
  erewrite bind_Ok in E by exact Hargs.
  destruct (set_commands_spec wrapper chain sent p1 Hc) as (p2 & Eset & Hc2 & Hlog2).
  assert (Epush : Renderer.push wrapper
            (with_value metas (with_name prop (cmd "member_set"))) p1 = (Ok tt, p2)).
  { unfold Renderer.push. unfold mbind, M_bind. cbn [get_process].
    rewrite Hc. cbn [from_option id]. exact Eset. }
  erewrite bind_Ok in E by exact Epush.
  destruct (commit_once wrapper sent p2 r p' Hc2 E) as (Hlog & Hc').
  split; [by rewrite Hlog, Hlog2|done].
Qed.

Lemma upgrade_spec wrapper pre last type metas p :
  Renderer.commands p wrapper = Some (pre ++ [last]) →
  ∃ p', Renderer.upgrade wrapper (length pre) type metas p = (Ok tt, p')
        ∧ Renderer.commands p' wrapper
          = Some (pre ++ [with_type type (with_args metas last)])
        ∧ ipcLog p' = ipcLog p.
Proof.
  intros Hc. unfold Renderer.upgrade, mbind, M_bind, get_process.
  rewrite Hc. cbn [from_option id].
  replace (length pre) with (length pre + 0) by lia.
  rewrite alter_app_r. cbn [alter list_alter].
  eapply set_commands_spec, Hc.
Qed.

Lemma push_spec wrapper chain c p :
  Renderer.commands p wrapper = Some chain →
  ∃ p', Renderer.push wrapper c p = (Ok tt, p')
        ∧ Renderer.commands p' wrapper = Some (chain ++ [c])
        ∧ ipcLog p' = ipcLog p.
Proof.
  intros Hc. unfold Renderer.push, mbind, M_bind, get_process.
  rewrite Hc. cbn [from_option id]. eapply set_commands_spec, Hc.
Qed.

Lemma last_type_spec wrapper pre last p :
  Renderer.commands p wrapper = Some (pre ++ [last]) →
  Renderer.last_type wrapper (length pre) p = (Ok (c_type last), p).
Proof.
  intros Hc. unfold Renderer.last_type, mbind, M_bind, get_process.
  rewrite Hc. cbn [from_option id].
  rewrite lookup_app_r, Nat.sub_diag by lia. reflexivity.
Qed.

Lemma last_index_spec wrapper pre last p :
  Renderer.commands p wrapper = Some (pre ++ [last]) →
  Renderer.last_index p wrapper = length pre.
Proof.
  intros Hc. unfold Renderer.last_index. rewrite Hc. cbn [from_option id].
  rewrite length_app. cbn [length]. lia.
Qed.

(** X5. The [construct] trap, when encoding the arguments succeeds and
    leaves the chain of the proxy as it was: a chain ending in
    [function_call] ends in [constructor_call] afterwards, one ending in
    [member_get] in [member_constructor], one ending in [remote_object_get]
    in [remote_object_constructor], with the encoded arguments and the other
    fields of the step kept; any other chain gets a [constructor_call] step
    appended. Nothing is sent. *)
Theorem construct_trap_compaction fuel wrapper args metas pre last p p1 :
  Renderer.commands p wrapper = Some (pre ++ [last]) →
  Renderer.wrapArgs fuel args ∅ p = (Ok metas, p1) →
  Renderer.commands p1 wrapper = Some (pre ++ [last]) →
  ∃ p2 chain,
    Renderer.proxy_construct fuel wrapper args p = (Ok wrapper, p2)
    ∧ Renderer.commands p2 wrapper = Some chain
    ∧ (c_type last = "function_call" →
         chain = pre ++ [with_type "constructor_call" (with_args metas last)])
    ∧ (c_type last = "member_get" →
         chain = pre ++ [with_type "member_constructor" (with_args metas last)])
    ∧ (c_type last = "remote_object_get" →
         chain = pre ++ [with_type "remote_object_constructor" (with_args metas last)])
    ∧ (c_type last ≠ "function_call" → c_type last ≠ "member_get" →
       c_type last ≠ "remote_object_get" →
         chain = pre ++ [last; with_args metas (cmd "constructor_call")])
    ∧ ipcLog p2 = ipcLog p1.
Proof.
  intros Hc Hargs Hc1.
  unfold Renderer.proxy_construct.
  unfold mbind at 1, M_bind at 1. cbn [get_process].
  rewrite (last_index_spec _ _ _ _ Hc).
  erewrite bind_Ok by exact Hargs.
  erewrite bind_Ok by (by apply last_type_spec).
  destruct (String.eqb_spec (c_type last) "function_call") as [E1|N1];
    [|destruct (String.eqb_spec (c_type last) "member_get") as [E2|N2];
      [|destruct (String.eqb_spec (c_type last) "remote_object_get") as [E3|N3]]].
  - destruct (upgrade_spec wrapper pre last "constructor_call" metas p1 Hc1)
      as (p2 & E & Hc2 & Hlog).
    exists p2, (pre ++ [with_type "constructor_call" (with_args metas last)]).
    erewrite bind_Ok by exact E.
    repeat (split; [first [reflexivity | assumption | intros; congruence]|]). done.
  - destruct (upgrade_spec wrapper pre last "member_constructor" metas p1 Hc1)
      as (p2 & E & Hc2 & Hlog).
    exists p2, (pre ++ [with_type "member_constructor" (with_args metas last)]).
    erewrite bind_Ok by exact E.
    repeat (split; [first [reflexivity | assumption | intros; congruence]|]). done.
  - destruct (upgrade_spec wrapper pre last "remote_object_constructor" metas p1 Hc1)
      as (p2 & E & Hc2 & Hlog).
    exists p2, (pre ++ [with_type "remote_object_constructor" (with_args metas last)]).
    erewrite bind_Ok by exact E.
    repeat (split; [first [reflexivity | assumption | intros; congruence]|]). done.
  - destruct (push_spec wrapper (pre ++ [last])
                (with_args metas (cmd "constructor_call")) p1 Hc1)
      as (p2 & E & Hc2 & Hlog).
    exists p2, (pre ++ [last; with_args metas (cmd "constructor_call")]).
    erewrite bind_Ok by exact E. rewrite <- app_assoc in Hc2.
    repeat (split; [first [reflexivity | assumption | intros; congruence]|]). done.
Qed.

Lemma LazyObject_spec c p :
  ∃ p', Renderer.LazyObject c p = (Ok (VRef (length (p_heap p))), p')
        ∧ Renderer.commands p' (VRef (length (p_heap p))) = Some [c]
        ∧ ipcLog p' = ipcLog p
        ∧ remoteObjectCache p' = remoteObjectCache p.
Proof.
  eexists. split; [reflexivity|]. split; [|done].
  unfold Renderer.commands, kind_of. cbn [cell p_heap set_heap].
  by rewrite list_lookup_middle.
Qed.

Lemma proxy_read_spec wrapper prop chain p :
  prop ∉ "$" :: Renderer.frozen_properties →
  Renderer.commands p wrapper = Some chain →
  ∃ p', Renderer.proxy_read wrapper prop p = (Ok wrapper, p')
        ∧ Renderer.commands p' wrapper
          = Some (chain ++ [with_name prop (cmd "member_get")])
        ∧ ipcLog p' = ipcLog p.
Proof.
  intros Hprop Hc. apply not_elem_of_cons in Hprop as [Hne Hfrozen].
  destruct (proxy_get_spec wrapper prop chain p Hne Hc) as (p' & E & Hc' & Hlog).
  exists p'. split; [|done]. unfold Renderer.proxy_read.
  erewrite bind_Ok by exact E. by rewrite bool_decide_eq_false_2.
Qed.

(** X6. An entry point of remote.js, a property read and [$]. For a
    property other than [$], [arguments] and [caller], whatever the renderer
    held and whatever the browser answers, one message is sent and it is the
    entry command followed by the [member_get] of the property. For
    [arguments] and [caller] the read of the property throws a TypeError:
    the target of the proxy is a function, whose own property of that name
    the trap may not hide; [$] is not reached and nothing is sent. *)
Theorem entry_then_property_is_one_message module name entry c prop p :
  (entry, c) ∈ entry_points module name →
  (prop ∉ "$" :: Renderer.frozen_properties →
   ∀ r p',
     (w ← entry; w ← Renderer.proxy_read w prop; Renderer.proxy_read w "$") p = (r, p') →
     ipcLog p' = ipcLog p ++ [[c; with_name prop (cmd "member_get")]])
  ∧ (prop ∈ Renderer.frozen_properties →
     ∃ error p',
       (w ← entry; w ← Renderer.proxy_read w prop; Renderer.proxy_read w "$") p
         = (Throw error, p')
       ∧ error_prop error "name" = VStr "TypeError"
       ∧ ipcLog p' = ipcLog p).
Proof.
  intros Hentry.
  assert (entry = Renderer.LazyObject c) as ->.
  { unfold entry_points in Hentry.
    repeat (apply elem_of_cons in Hentry as [[= -> ->]|Hentry]; [reflexivity|]).
    by apply elem_of_nil in Hentry. }
  destruct (LazyObject_spec c p) as (p1 & E1 & Hc1 & Hlog1 & _).
  split.
  - intros Hprop r p'.
    destruct (proxy_read_spec _ prop _ p1 Hprop Hc1) as (p2 & E2 & Hc2 & Hlog2).
    erewrite bind_Ok by exact E1. erewrite bind_Ok by exact E2.
    unfold Renderer.proxy_read, Renderer.proxy_get.
    cbn [String.eqb Ascii.eqb Bool.eqb]. unfold mbind, M_bind.
    destruct (Renderer.commit _ p2) as [r0 p3] eqn:E.
    destruct (commit_once _ _ _ _ _ Hc2 E) as (Hlog & _).
    assert (Hfree : bool_decide ("$" ∈ Renderer.frozen_properties) = false).
    { apply bool_decide_eq_false. unfold Renderer.frozen_properties. intros Hin.
      repeat (apply elem_of_cons in Hin as [Hin|Hin]; [discriminate|]).
      by apply elem_of_nil in Hin. }
    rewrite Hfree. intros Er.
    assert (p3 = p') as <- by (destruct r0; by injection Er).
    rewrite Hlog, Hlog2, Hlog1. reflexivity.
  - intros Hprop.
    assert (Hne : prop ≠ "$").
    { intros ->. unfold Renderer.frozen_properties in Hprop.
      repeat (apply elem_of_cons in Hprop as [Hprop|Hprop]; [discriminate|]).
      by apply elem_of_nil in Hprop. }
    destruct (proxy_get_spec _ prop _ p1 Hne Hc1) as (p2 & E2 & Hc2 & Hlog2).
    eexists _, p2. erewrite bind_Ok by exact E1.
    split; [|split; [|by rewrite Hlog2, Hlog1]].
    + erewrite bind_Throw; [reflexivity|]. unfold Renderer.proxy_read.
      erewrite bind_Ok by exact E2. by rewrite bool_decide_eq_true_2.
    + reflexivity.
Qed.

End Traps.

(* ===================================================================== *)
(** * Further properties: calls rooted at a handle                        *)
(* ===================================================================== *)

Section Calls.
Context `{Engine} `{BufferUtils}.
Import Browser.

(** The response to a chain whose first failing step throws an error made
    by [new_error], with no cause. *)
Lemma commit_new_error fuel sender pre command post p ret optimize p1 cls message own :
  run_commands sender pre VUndefined false p = (Ok (ret, optimize), p1) →
  exec_command sender command ret p1
    = (Throw (VError cls (("stack", VStr (cls +:+ ": " +:+ message))
                          :: ("message", VStr message) :: own)), p1) →
  cls ≠ "" →
  assoc_get "cause" own = None →
  commit fuel sender (pre ++ command :: post) p
    = (Ok (MException (VStr message) (VStr (cls +:+ ": " +:+ message))
             (MValue VUndefined)), p1).
Proof.
  intros Hpre Hexec Hcls Hcause. unfold commit. erewrite try_catch_Throw.
  2:{ erewrite bind_Throw; [reflexivity|].
      rewrite run_commands_app, Hpre. cbn [run_commands].
      erewrite bind_Throw; [reflexivity|exact Hexec]. }
  erewrite exceptionToMeta_error.
  2:{ unfold error_get. cbn [assoc_get]. literals. rewrite Hcause. literals.
      apply valueToMeta_undefined. }
  unfold error_get. cbn [assoc_get]. literals.
  destruct cls; [done|]. reflexivity.
Qed.

(** X7. A [function_call] or [constructor_call] command that names a
    handle id the registry does not hold throws an error with code EBADRPC
    whose message names the id; no later command runs, the state is the one
    the commands before it left, and the response is that error as an
    [exception] descriptor. Without an id the command takes [ret] and looks
    nothing up. *)
Theorem missing_call_target_error
    fuel sender pre command post p ret optimize p1 what id :
  (c_type command, what) ∈ [("function_call", "function");
                            ("constructor_call", "constructor")] →
  c_id command = Some id →
  run_commands sender pre VUndefined false p = (Ok (ret, optimize), p1) →
  storage (objectsRegistry p1) !! id = None →
  let message := "Cannot call " +:+ what +:+ " on missing remote object " +:+ pretty id in
  exec_command sender command ret p1 = (Throw (RPCError message), p1)
  ∧ error_prop (RPCError message) "code" = VStr "EBADRPC"
  ∧ commit fuel sender (pre ++ command :: post) p =
      (Ok (MException (VStr message) (VStr ("Error: " +:+ message))
             (MValue VUndefined)), p1).
Proof.
  intros Hty Hid Hpre Hreg message.
  assert (Hmiss : ∀ w, call_target w command ret p1 =
            (Throw (RPCError ("Cannot call " +:+ w +:+ " on missing remote object "
                              +:+ pretty id)), p1)).
  { intros w. unfold call_target. rewrite Hid.
    unfold mbind, M_bind, get_process, registry_get. rewrite Hreg. reflexivity. }
  assert (Hexec : exec_command sender command ret p1 = (Throw (RPCError message), p1)).
  { unfold exec_command. subst message. set_unfold in Hty.
    destruct Hty as [Hty|[Hty|[]]]; inversion Hty as [[Ht Hw]];
      rewrite Ht; literals; (erewrite bind_Throw; [reflexivity|apply Hmiss]). }
  split; [exact Hexec|]. split; [reflexivity|].
  refine (commit_new_error fuel sender pre command post p ret optimize p1 "Error" message
            [("code", VStr "EBADRPC"); ("errno", num (-72))] Hpre Hexec _ _);
    [done|reflexivity].
Qed.

Lemma function_call_without_args
    fuel sender pre command post p ret optimize p1 :
  c_type command = "function_call" →
  c_args command = None →
  run_commands sender pre VUndefined false p = (Ok (ret, optimize), p1) →
  (∀ id, c_id command = Some id →
         nullish (registry_get (objectsRegistry p1) (Some id)) = false) →
  commit fuel sender (pre ++ command :: post) p =
    (Ok (MException (VStr "Cannot read property 'map' of undefined")
           (VStr "TypeError: Cannot read property 'map' of undefined")
           (MValue VUndefined)), p1).
Proof.
  intros Hty Hargs Hpre Hres.
  refine (commit_new_error fuel sender pre command post p ret optimize p1 "TypeError"
            "Cannot read property 'map' of undefined" [] Hpre _ _ _);
    [|done|reflexivity].
  unfold exec_command. rewrite Hty. literals.
  assert (∃ func, call_target "function" command ret p1 = (Ok func, p1)) as [func E].
  { unfold call_target. destruct (c_id command) as [id|] eqn:Hid; [|by eexists].
    unfold mbind, M_bind, get_process. rewrite (Hres id eq_refl). by eexists. }
  erewrite bind_Ok by exact E.
  unfold handleFunction. rewrite Hargs. reflexivity.
Qed.

(** X8. A [function_call] command that has no [args] field fails even
    when its target resolves: decoding the absent argument list throws a
    TypeError before anything is called, the state is unchanged, and the
    response is that error as an [exception] descriptor. *)
Theorem function_call_without_args_fails
    fuel sender pre command post p ret optimize p1 :
  c_type command = "function_call" →
  c_args command = None →
  run_commands sender pre VUndefined false p = (Ok (ret, optimize), p1) →
  (∀ id, c_id command = Some id →
         nullish (registry_get (objectsRegistry p1) (Some id)) = false) →
  commit fuel sender (pre ++ command :: post) p =
    (Ok (MException (VStr "Cannot read property 'map' of undefined")
           (VStr "TypeError: Cannot read property 'map' of undefined")
           (MValue VUndefined)), p1).
Proof. apply function_call_without_args. Qed.

End Calls.

Section FunctionProxy.
Context `{Engine} `{BufferUtils}.

(** X9. A [function] descriptor, decoded, is a proxy whose chain is the
    single step [function_call] with the handle id and no arguments. Calling
    that proxy appends a second [function_call] step with the arguments, and
    the first step stays without arguments: the browser answers such a chain
    with an exception even when the handle resolves. Constructing with that
    proxy instead turns the first step into [constructor_call] with the
    handle id and the arguments. *)
Theorem decoded_function_proxy name id members proto p :
  remoteObjectCache p !! id = None →
  ∃ w p1,
    Renderer.metaToValue (MRemote TFunction name id members proto) p = (Ok w, p1)
    ∧ Renderer.commands p1 w = Some [with_id id (cmd "function_call")]
    ∧ ∀ fuel args metas,
        Renderer.wrapArgs fuel args ∅ p1 = (Ok metas, p1) →
        (∃ p2, Renderer.proxy_apply fuel w args p1 = (Ok w, p2)
               ∧ Renderer.commands p2 w
                 = Some [with_id id (cmd "function_call");
                         with_args metas (cmd "function_call")])
        ∧ (∃ p2, Renderer.proxy_construct fuel w args p1 = (Ok w, p2)
                 ∧ Renderer.commands p2 w
                   = Some [with_args metas (with_id id (cmd "constructor_call"))])
        ∧ ∀ bfuel sender pb,
            nullish (registry_get (objectsRegistry pb) (Some id)) = false →
            Browser.commit bfuel sender
              [with_id id (cmd "function_call"); with_args metas (cmd "function_call")] pb
            = (Ok (MException (VStr "Cannot read property 'map' of undefined")
                     (VStr "TypeError: Cannot read property 'map' of undefined")
                     (MValue VUndefined)), pb).
Proof.
  intros Hmiss.
  destruct (LazyObject_spec (with_id id (cmd "function_call")) p) as (p1 & E1 & Hc1 & _).
  exists (VRef (length (p_heap p))), p1. split; [|split; [exact Hc1|]].
  { cbn [Renderer.metaToValue]. unfold mbind, M_bind, get_process. by rewrite Hmiss. }
  intros fuel args metas Hargs.
  change [with_id id (cmd "function_call")]
    with ([] ++ [with_id id (cmd "function_call")]) in Hc1.
  split; [|split].
  - unfold Renderer.proxy_apply. unfold mbind at 1, M_bind at 1. cbn [get_process].
    rewrite (last_index_spec _ _ _ _ Hc1).
    erewrite bind_Ok by exact Hargs.
    erewrite bind_Ok by (by apply last_type_spec).
    cbn [c_type with_id cmd]. literals.
    destruct (push_spec _ _ (with_args metas (cmd "function_call")) p1 Hc1)
      as (p2 & E & Hc2 & _).
    exists p2. erewrite bind_Ok by exact E. done.
  - unfold Renderer.proxy_construct. unfold mbind at 1, M_bind at 1. cbn [get_process].
    rewrite (last_index_spec _ _ _ _ Hc1).
    erewrite bind_Ok by exact Hargs.
    erewrite bind_Ok by (by apply last_type_spec).
    cbn [c_type with_id cmd]. literals.
    destruct (upgrade_spec _ _ _ "constructor_call" metas p1 Hc1) as (p2 & E & Hc2 & _).
    exists p2. erewrite bind_Ok by exact E. done.
  - intros bfuel sender pb Hres.
    apply (function_call_without_args bfuel sender [] _ _ pb VUndefined false pb);
      try done.
    by intros id' [= <-].
Qed.

End FunctionProxy.

(* ===================================================================== *)
(** * Further properties: arguments, from the renderer to the browser     *)
(* ===================================================================== *)

Section Arguments.
Context `{Engine} `{BufferUtils}.

(** A value stands for one data value at most. *)
Lemma denotes_functional h d : ∀ v d', denotes h v d → denotes h v d' → d = d'.
Proof.
  induction d as [w|ds IH|bytes|t] using data_ind'; intros v d'.
  - intros [-> Hp]. destruct d' as [w'|ds'|bytes'|t']; cbn [denotes].
    + by intros [-> _].
    + intros (l & ? & ? & -> & _). done.
    + intros (l & ? & -> & _). done.
    + intros (l & ? & -> & _). done.
  - intros (l & o & elems & -> & Hl & Hk & Hall).
    destruct d' as [w'|ds'|bytes'|t']; cbn [denotes].
    + intros [<- Hp]. done.
    + intros (l' & o' & elems' & [= <-] & Hl' & Hk' & Hall').
      rewrite Hl in Hl'. injection Hl' as <-. rewrite Hk in Hk'. injection Hk' as <-.
      f_equal. apply all2_Forall2 in Hall, Hall'.
      clear Hl Hk. revert ds' elems Hall Hall'.
      induction IH as [|d ds Hd _ IHds]; intros ds' elems Hall Hall'.
      * inversion Hall; subst. by inversion Hall'.
      * inversion Hall; subst. inversion Hall'; subst. f_equal; eauto.
    + intros (l' & o' & [= <-] & Hl' & Hk'). congruence.
    + intros (l' & o' & [= <-] & Hl' & Hk' & _). congruence.
  - intros (l & o & -> & Hl & Hk).
    destruct d' as [w'|ds'|bytes'|t']; cbn [denotes].
    + intros [<- Hp]. done.
    + intros (l' & o' & elems' & [= <-] & Hl' & Hk' & _). congruence.
    + intros (l' & o' & [= <-] & Hl' & Hk'). congruence.
    + intros (l' & o' & [= <-] & Hl' & Hk' & _). congruence.
  - intros (l & o & -> & Hl & Hk & Ht).
    destruct d' as [w'|ds'|bytes'|t']; cbn [denotes].
    + intros [<- Hp]. done.
    + intros (l' & o' & elems' & [= <-] & Hl' & Hk' & _). congruence.
    + intros (l' & o' & [= <-] & Hl' & Hk'). congruence.
    + intros (l' & o' & [= <-] & Hl' & Hk' & _). congruence.
Qed.

(** The descriptors of an array, decoded by the browser one after the
    other. *)
Lemma arg_decodes_mapM ms ds :
  Forall2 arg_decodes ms ds →
  ∀ pb, ∃ vs pb' ext,
    mapM Browser.metaToValue ms pb = (Ok vs, pb')
    ∧ p_heap pb' = p_heap pb ++ ext
    ∧ Forall2 (denotes (p_heap pb')) vs ds.
Proof.
  induction 1 as [|m d ms ds Hm _ IH]; intros pb; cbn [mapM].
  - exists [], pb, []. by rewrite app_nil_r.
  - destruct (Hm pb) as (v & pb1 & ext1 & E1 & Hh1 & Hv).
    destruct (IH pb1) as (vs & pb2 & ext2 & E2 & Hh2 & Hvs).
    exists (v :: vs), pb2, (ext1 ++ ext2).
    erewrite bind_Ok by exact E1. erewrite bind_Ok by exact E2.
    split; [reflexivity|]. split; [by rewrite Hh2, Hh1, app_assoc|].
    constructor; [|exact Hvs]. rewrite Hh2. by apply denotes_extend.
Qed.

Lemma nesting_elem d ds : d ∈ ds → nesting d < nesting (DArray ds).
Proof.
  cbn [nesting]. induction ds as [|d' ds IH]; intros Hin.
  - by apply elem_of_nil in Hin.
  - cbn [foldr]. apply elem_of_cons in Hin as [->|Hin]; [lia|].
    specialize (IH Hin). lia.
Qed.

(** The renderer's encoder on a value that is data: the arrays on the path
    stand for data that nests deeper, so none of them is met again. *)
Lemma wrap_then_unwrap d : ∀ v p fuel visited,
  denotes (p_heap p) v d → nesting d ≤ fuel →
  (∀ l, l ∈ visited → ∃ d', denotes (p_heap p) (VRef l) d' ∧ nesting d < nesting d') →
  ∃ m, Renderer.valueToMeta fuel visited v p = (Ok m, p) ∧ arg_decodes m d.
Proof.
  induction d as [w|ds IH|bytes|t] using data_ind';
    intros v p fuel visited Hv Hfuel Hvis.
  - cbn [denotes] in Hv. destruct Hv as [-> Hprim]. exists (AValue w). split.
    + destruct fuel; cbn [Renderer.valueToMeta]; unfold Renderer.valueToMeta_;
        destruct w; try done.
    + intros pb. exists w, pb, []. by rewrite app_nil_r.
  - assert (Hnot : Renderer.has visited v = false).
    { assert (∃ l, v = VRef l) as [l ->]
        by (cbn [denotes] in Hv; destruct Hv as (l & ? & ? & -> & _); eauto).
      cbn [Renderer.has]. apply bool_decide_eq_false. intros Hin.
      destruct (Hvis l Hin) as (d' & Hd' & Hlt).
      rewrite <- (denotes_functional _ _ _ _ Hd' Hv) in Hlt. lia. }
    pose proof Hv as Hv0.
    cbn [denotes] in Hv. destruct Hv as (l & o & elems & -> & Hl & Hk & Hall).
    apply all2_Forall2 in Hall.
    destruct fuel as [|fuel]; [cbn in Hfuel; lia|].
    assert (Hms : ∃ ms, mapM (Renderer.valueToMeta fuel ({[l]} ∪ visited)) elems p
                        = (Ok ms, p) ∧ Forall2 arg_decodes ms ds).
    { assert (Hsub : ∀ d, d ∈ ds → nesting d ≤ fuel ∧
                ∀ l', l' ∈ ({[l]} ∪ visited : gset nat) →
                  ∃ d', denotes (p_heap p) (VRef l') d' ∧ nesting d < nesting d').
      { intros d Hd. pose proof (nesting_elem _ _ Hd) as Hlt. split; [lia|].
        intros l' [->%elem_of_singleton|Hin]%elem_of_union.
        - by exists (DArray ds).
        - destruct (Hvis l' Hin) as (d' & Hd' & Hlt'). exists d'. split; [done|lia]. }
      clear Hl Hk Hv0 Hnot Hfuel Hvis. revert elems Hall Hsub.
      induction IH as [|d ds Hd _ IHds]; intros elems Hall Hsub.
      - inversion Hall; subst. by exists [].
      - inversion Hall as [|el ? els ? Hel Hels]; subst.
        destruct (Hsub d) as [Hf Hv']; [by left|].
        destruct (Hd el p fuel _ Hel Hf Hv') as (m & E & Hm).
        destruct (IHds els Hels) as (ms & Es & Hms).
        { intros d0 Hd0. apply Hsub. by right. }
        exists (m :: ms). cbn [mapM].
        erewrite bind_Ok by exact E. erewrite bind_Ok by exact Es.
        split; [reflexivity|by constructor]. }
    destruct Hms as (ms & Ems & Hms). exists (AArray ms). split.
    + cbn [Renderer.valueToMeta]. unfold Renderer.valueToMeta_ at 1. rewrite Hnot.
      unfold mbind at 1, M_bind at 1. cbn [get_process cell]. rewrite Hl.
      destruct o as [k ? ? ? ?]. cbn in Hk. subst k. cbn [Renderer.add].
      erewrite bind_Ok by exact Ems. reflexivity.
    + intros pb. destruct (arg_decodes_mapM ms ds Hms pb) as (vs & pb' & ext & E & Hh & Hvs).
      eexists _, _, (ext ++ [_]). cbn [Browser.metaToValue].
      erewrite bind_Ok by exact E. unfold alloc.
      split; [reflexivity|]. cbn [p_heap set_heap].
      split; [by rewrite Hh, app_assoc|].
      cbn [denotes]. eexists _, _, vs. split; [reflexivity|].
      split; [by apply list_lookup_middle|]. split; [reflexivity|].
      apply all2_Forall2. eapply Forall2_impl; [exact Hvs|].
      intros; by apply denotes_extend.
  - assert (Hnot : Renderer.has visited v = false).
    { assert (∃ l, v = VRef l) as [l ->]
        by (cbn [denotes] in Hv; destruct Hv as (l & ? & -> & _); eauto).
      cbn [Renderer.has]. apply bool_decide_eq_false. intros Hin.
      destruct (Hvis l Hin) as (d' & Hd' & Hlt).
      rewrite <- (denotes_functional _ _ _ _ Hd' Hv) in Hlt. cbn in Hlt. lia. }
    cbn [denotes] in Hv. destruct Hv as (l & o & -> & Hl & Hk).
    exists (ABuffer (bufferToMeta bytes)). split.
    + destruct fuel; cbn [Renderer.valueToMeta]; unfold Renderer.valueToMeta_ at 1;
        rewrite Hnot; unfold mbind at 1, M_bind at 1; cbn [get_process cell];
        rewrite Hl; destruct o as [k ? ? ? ?]; cbn in Hk; subst k; reflexivity.
    + intros pb. eexists _, _, [_]. cbn [Browser.metaToValue]. unfold alloc.
      split; [reflexivity|]. split; [reflexivity|].
      cbn [denotes p_heap set_heap]. eexists _, _. split; [reflexivity|].
      split; [by apply list_lookup_middle|]. cbn [o_kind new_obj].
      by rewrite metaToBuffer_bufferToMeta.
  - assert (Hnot : Renderer.has visited v = false).
    { assert (∃ l, v = VRef l) as [l ->]
        by (cbn [denotes] in Hv; destruct Hv as (l & ? & -> & _); eauto).
      cbn [Renderer.has]. apply bool_decide_eq_false. intros Hin.
      destruct (Hvis l Hin) as (d' & Hd' & Hlt).
      rewrite <- (denotes_functional _ _ _ _ Hd' Hv) in Hlt. cbn in Hlt. lia. }
    cbn [denotes] in Hv. destruct Hv as (l & o & -> & Hl & Hk & Ht).
    exists (ADate (getTime t)). split.
    + destruct fuel; cbn [Renderer.valueToMeta]; unfold Renderer.valueToMeta_ at 1;
        rewrite Hnot; unfold mbind at 1, M_bind at 1; cbn [get_process cell];
        rewrite Hl; destruct o as [k ? ? ? ?]; cbn in Hk; subst k; reflexivity.
    + intros pb. eexists _, _, [_]. cbn [Browser.metaToValue]. unfold alloc.
      split; [reflexivity|]. split; [reflexivity|].
      cbn [denotes p_heap set_heap]. eexists _, _. split; [reflexivity|].
      split; [by apply list_lookup_middle|]. cbn [o_kind new_obj].
      by rewrite TimeClip_getTime.
Qed.

(** X10. Arguments that are primitive, array, buffer or date values,
    encoded by the renderer's [wrapArgs] and decoded by the browser's
    [unwrapArgs], are again those values, in the same order: the same
    primitives, arrays with the same elements, buffers with the same bytes,
    dates with the same time value. Encoding leaves the renderer as it
    was. *)
Theorem argument_round_trip ds args p fuel pb :
  Forall2 (denotes (p_heap p)) args ds →
  Forall (λ d, nesting d ≤ fuel) ds →
  ∃ metas values pb',
    Renderer.wrapArgs fuel args ∅ p = (Ok metas, p)
    ∧ Browser.unwrapArgs (Some metas) pb = (Ok values, pb')
    ∧ Forall2 (denotes (p_heap pb')) values ds.
Proof.
  intros Hargs Hfuel.
  assert (Hms : ∃ metas, Renderer.wrapArgs fuel args ∅ p = (Ok metas, p)
                         ∧ Forall2 arg_decodes metas ds).
  { unfold Renderer.wrapArgs. induction Hargs as [|v d args ds Hv _ IH].
    - by exists [].
    - inversion Hfuel; subst.
      destruct (wrap_then_unwrap d v p fuel ∅ Hv) as (m & E & Hm); [done|set_solver|].
      destruct IH as (ms & Es & Hms); [done|].
      exists (m :: ms). cbn [mapM].
      erewrite bind_Ok by exact E. erewrite bind_Ok by exact Es.
      split; [reflexivity|by constructor]. }
  destruct Hms as (metas & E & Hms).
  destruct (arg_decodes_mapM metas ds Hms pb) as (vs & pb' & ext & E' & _ & Hvs).
  by exists metas, vs, pb'.
Qed.

End Arguments.

(* ===================================================================== *)
(** * Further properties: a proxy sent back is sent as its handle         *)
(* ===================================================================== *)

Lemma object_at_alloc l o : maintains (object_at l) (alloc o).
Proof.
  intros p r p' (o' & Hl & Hk) [= <- <-]. exists o'. split; [|done].
  cbn [p_heap set_heap]. by apply lookup_app_l_Some.
Qed.

Lemma object_at_update l v f :
  (∀ o, o_kind (f o) = o_kind o) → maintains (object_at l) (update v f).
Proof.
  intros Hf p r p' (o & Hl & Hk). unfold update.
  destruct v as [| | | | |l'|]; intros [= <- <-]; try by exists o.
  unfold object_at. cbn [p_heap set_heap]. destruct (decide (l' = l)) as [->|Hne].
  - exists (f o). rewrite list_lookup_alter_eq, Hl. split; [done|by rewrite Hf].
  - exists o. by rewrite list_lookup_alter_ne.
Qed.

Section SentBack.
Context `{Engine} `{BufferUtils}.

Lemma setObjectMembers_object_at l object metaId members :
  maintains (object_at l) (Renderer.setObjectMembers object metaId members).
Proof.
  unfold Renderer.setObjectMembers.
  apply maintains_bind; [|intros; apply maintains_ret].
  apply maintains_mapM. intros m. unfold Renderer.setObjectMember.
  apply maintains_bind; [apply maintains_get_process|]. intros p.
  destruct (Renderer.hasOwnProperty _ _ _); [apply maintains_ret|].
  by apply object_at_update.
Qed.

Lemma setObjectPrototype_object_at l : ∀ descriptor object metaId,
  maintains (object_at l) (Renderer.setObjectPrototype_ object metaId descriptor).
Proof.
  fix IH 1. intros [members proto] object metaId.
  cbn [Renderer.setObjectPrototype_].
  apply maintains_bind; [apply object_at_alloc|]. intros shell.
  apply maintains_bind; [apply setObjectMembers_object_at|]. intros _.
  apply maintains_bind; [|intros; by apply object_at_update].
  destruct proto as [d|]; [apply IH|apply maintains_ret].
Qed.

Lemma defineConstructorName_object_at l ret id name :
  maintains (object_at l) (Renderer.defineConstructorName ret id name).
Proof.
  unfold Renderer.defineConstructorName.
  apply maintains_bind; [apply maintains_get_process|]. intros p.
  destruct (chain_prop (chain p ret) "constructor") as [q|].
  - apply maintains_bind; [apply object_at_alloc|]. intros c.
    by apply object_at_update.
  - by intros q r q' HI [= <- <-].
Qed.

(** X11. The shell the renderer makes for an [object] descriptor with a
    handle id other than 0 is an object marked with that id, and it is what
    the cache then holds for the id. Passed as an argument, the shell is
    encoded as the [remote-object] descriptor of its handle id and none of
    its accessors is read. The encoding is stated for a shell without a
    member named [then], the property [isPromise] reads first. *)
Theorem shell_is_sent_as_its_handle name id members proto p :
  remoteObjectCache p !! id = None →
  id ≠ 0%Z →
  ∃ ret p1,
    Renderer.metaToValue (MRemote TObject name id members proto) p = (Ok ret, p1)
    ∧ remoteObjectCache p1 !! id = Some ret
    ∧ atomId (hidden_of p1 ret) = Some id
    ∧ ("then" ∉ member_names members proto →
       ∀ fuel pre post metas,
         Renderer.wrapArgs fuel pre ∅ p1 = (Ok metas, p1) →
         (∀ metas', Renderer.wrapArgs fuel post ∅ p1 = (Ok metas', p1) →
            Renderer.wrapArgs fuel (pre ++ ret :: post) ∅ p1
            = (Ok (metas ++ ARemoteObject id :: metas'), p1))).
Proof.
  intros Hmiss Hid.
  set (n := length (p_heap p)).
  set (p0 := set_heap (p_heap p ++ [new_obj KObject CtorObject]) p).
  assert (H0n : object_at n p0).
  { exists (new_obj KObject CtorObject). split; [|done].
    cbn [p0 p_heap set_heap]. by apply list_lookup_middle. }
  destruct (Renderer.setObjectMembers (VRef n) id members p0) as [r1 p1] eqn:E1.
  pose proof (setObjectMembers_object_at n _ _ _ _ _ _ H0n E1) as H1n.
  destruct (setObjectMembers_Ok (VRef n) id members p0) as (p1' & E1' & _).
  rewrite E1 in E1'. injection E1' as -> <-.
  assert (∃ p2, Renderer.setObjectPrototype (VRef n) id proto p1 = (Ok tt, p2)
                ∧ object_at n p2) as (p2 & E2 & H2n).
  { destruct proto as [d|]; [|by exists p1].
    destruct (setObjectPrototype_Ok d (VRef n) id p1) as (p2 & E2 & _).
    exists p2. split; [done|]. by eapply setObjectPrototype_object_at. }
  destruct (defineConstructorName_Ok (VRef n) id name p2) as (p2' & E3 & _).
  pose proof (defineConstructorName_object_at n _ _ _ _ _ _ H2n E3) as H3n.
  destruct H3n as (o & Hl & Hk).
  set (p3 := add_freer (VRef n, id) p2').
  set (p4 := set_heap (alter (set_atomId id) n (p_heap p3)) p3).
  set (p5 := set_cache (<[id := VRef n]> (remoteObjectCache p4)) p4).
  assert (Hcell : p_heap p5 !! n = Some (set_atomId id o)).
  { cbn [p5 p4 p3 p_heap set_cache set_heap add_freer].
    by rewrite list_lookup_alter_eq, Hl. }
  assert (Hdec : Renderer.metaToValue (MRemote TObject name id members proto) p
                 = (Ok (VRef n), p5)).
  { cbn [Renderer.metaToValue]. unfold mbind at 1, M_bind at 1. cbn [get_process].
    rewrite Hmiss. unfold mbind at 1, M_bind at 1. unfold alloc at 1. fold n. fold p0.
    erewrite bind_Ok by exact E1. erewrite bind_Ok by exact E2.
    erewrite bind_Ok by exact E3. reflexivity. }
  assert (Henc : ∀ fuel, Renderer.valueToMeta fuel ∅ (VRef n) p5
                         = (Ok (ARemoteObject id), p5)).
  { intros fuel. destruct fuel; cbn [Renderer.valueToMeta];
      unfold Renderer.valueToMeta_; cbn [Renderer.has];
      rewrite bool_decide_eq_false_2 by set_solver;
      unfold mbind at 1, M_bind at 1; cbn [get_process cell]; rewrite Hcell;
      destruct o as [k ? ? ? hd]; cbn in Hk; subst k;
      cbn [set_atomId o_kind o_hidden atomId from_option]; unfold Datatypes.id;
      rewrite (proj2 (Z.eqb_neq _ _) Hid); reflexivity. }
  exists (VRef n), p5. split; [exact Hdec|]. split; [|split].
  - cbn [p5 remoteObjectCache set_cache]. apply lookup_insert_eq.
  - unfold hidden_of. cbn [cell]. by rewrite Hcell.
  - intros _ fuel pre post metas Hpre metas' Hpost. unfold Renderer.wrapArgs in *.
    assert (Hmid : mapM (Renderer.valueToMeta fuel ∅) (VRef n :: post) p5
                   = (Ok (ARemoteObject id :: metas'), p5)).
    { cbn [mapM]. erewrite bind_Ok by apply Henc.
      erewrite bind_Ok by exact Hpost. reflexivity. }
    rewrite mapM_app. erewrite bind_Ok by exact Hpre.
    erewrite bind_Ok by exact Hmid. reflexivity.
Qed.

End SentBack.

(* ===================================================================== *)
(** * Further properties: what the renderer makes of a reply              *)
(* ===================================================================== *)

Lemma mapM_Ok_Forall {A B} (P : B → Prop) (f : A → M B) l :
  (∀ x p y p', f x p = (Ok y, p') → P y) →
  ∀ p ys p', mapM f l p = (Ok ys, p') → Forall P ys.
Proof.
  intros Hf. induction l as [|x l IH]; intros p ys p'; cbn [mapM].
  - intros [= <- <-]. constructor.
  - intros E. apply bind_Ok_inv in E as (y & p1 & Ey & E).
    apply bind_Ok_inv in E as (ys' & p2 & Eys & [= <- <-]).
    constructor; [by eapply Hf|by eapply IH].
Qed.

Section Replies.
Context `{Engine} `{BufferUtils}.

Lemma valueToMeta_no_exception fuel : ∀ v optimize p m p',
  Browser.valueToMeta fuel v optimize p = (Ok m, p') → no_exception m = true.
Proof.
  induction fuel as [|fuel IH]; intros v optimize p m p';
    cbn [Browser.valueToMeta]; unfold mbind at 1, M_bind at 1; cbn [get_process];
    (destruct (String.eqb (Browser.meta_type p v optimize) "array");
     [destruct (kind_of p v) as [[]|]; try done;
      intros E; apply bind_Ok_inv in E as (ms & p1 & Ems & [= <- <-]);
      cbn [no_exception]; apply forallb_forall; intros m Hm;
      apply (mapM_Ok_Forall (λ m, no_exception m = true)) in Ems;
      [rewrite List.Forall_forall in Ems; by apply Ems
      |intros x q y q' Ex; first [discriminate Ex | by eapply IH]]
     |]);
    (destruct (String.eqb (Browser.meta_type p v optimize) "object"
               || String.eqb (Browser.meta_type p v optimize) "function");
     [destruct (registry_add v (objectsRegistry p)) as [id r];
      intros E; apply bind_Ok_inv in E as ([] & p1 & _ & E);
      apply bind_Ok_inv in E as (p2 & p3 & _ & E);
      destruct (Browser.getObjectPrototype _ p2 v); [|done..];
      by injection E as <- <-
     |]);
    (destruct (String.eqb (Browser.meta_type p v optimize) "buffer");
     [destruct (kind_of p v) as [[]|]; by intros [= <- <-]|]);
    (destruct (String.eqb (Browser.meta_type p v optimize) "promise");
     [intros E; apply bind_Ok_inv in E as ([] & p1 & _ & E);
      apply bind_Ok_inv in E as (fn & p2 & _ & E);
      apply bind_Ok_inv in E as (t & p3 & Et & [= <- <-]);
      cbn [no_exception]; first [discriminate Et | by eapply IH]
     |]);
    (destruct (String.eqb (Browser.meta_type p v optimize) "error");
     [destruct v; by intros [= <- <-]|]);
    (destruct (String.eqb (Browser.meta_type p v optimize) "date");
     [destruct (kind_of p v) as [[]|]; by intros [= <- <-]|]);
    by intros [= <- <-].
Qed.

Lemma mapM_Ok {A B} (f : A → M B) l :
  Forall (λ x, ∀ p, ∃ y p', f x p = (Ok y, p')) l →
  ∀ p, ∃ ys p', mapM f l p = (Ok ys, p').
Proof.
  induction 1 as [|x l Hx _ IH]; intros p; cbn [mapM].
  - by exists [], p.
  - destruct (Hx p) as (y & p1 & Ey). destruct (IH p1) as (ys & p2 & Eys).
    exists (y :: ys), p2. erewrite bind_Ok by exact Ey.
    erewrite bind_Ok by exact Eys. reflexivity.
Qed.

Lemma metaToValue_returns m :
  no_exception m = true → ∀ p, ∃ v p', Renderer.metaToValue m p = (Ok v, p').
Proof.
  induction m as [v|ms IH|type name id members proto|bytes|m IH|members|n|? ? c _]
    using meta_ind'; cbn [no_exception]; intros Hm p; cbn [Renderer.metaToValue];
    try done; try by eexists _, _.
  - assert (Hall : Forall (λ m, ∀ p, ∃ v p', Renderer.metaToValue m p = (Ok v, p')) ms).
    { rewrite List.Forall_forall in IH. apply List.Forall_forall. intros m Hin.
      apply IH; [done|]. rewrite forallb_forall in Hm. by apply Hm. }
    destruct (mapM_Ok _ _ Hall p) as (vs & p1 & E).
    erewrite bind_Ok by exact E. by eexists _, _.
  - unfold mbind at 1, M_bind at 1. cbn [get_process].
    destruct (remoteObjectCache p !! id) as [cached|]; [by eexists _, _|].
    destruct type; [|by eexists _, _].
    unfold mbind at 1, M_bind at 1. unfold alloc at 1.
    destruct (setObjectMembers_Ok (VRef (length (p_heap p))) id members
                (set_heap (p_heap p ++ [new_obj KObject CtorObject]) p)) as (p1 & E1 & _).
    erewrite bind_Ok by exact E1.
    assert (∃ p2, Renderer.setObjectPrototype (VRef (length (p_heap p))) id proto p1
                  = (Ok tt, p2)) as (p2 & E2).
    { destruct proto as [d|]; [|by exists p1].
      destruct (setObjectPrototype_Ok d (VRef (length (p_heap p))) id p1) as (p2 & E2 & _).
      by exists p2. }
    erewrite bind_Ok by exact E2.
    destruct (defineConstructorName_Ok (VRef (length (p_heap p))) id name p2)
      as (p3 & E3 & _).
    erewrite bind_Ok by exact E3. by eexists _, _.
  - destruct (IH Hm p) as (v & p1 & E). erewrite bind_Ok by exact E. by eexists _, _.
Qed.

(** X12. A reply the browser made from a value, as opposed to from an
    error that was thrown, never makes the renderer's [metaToValue] throw:
    the commit returns a value. No [exception] descriptor is nested in what
    [valueToMeta] builds, and [metaToValue] throws on nothing else. *)
Theorem value_reply_is_decoded fuel v optimize pb m pb' pr :
  Browser.valueToMeta fuel v optimize pb = (Ok m, pb') →
  ∃ v' pr', Renderer.metaToValue m pr = (Ok v', pr').
Proof.
  intros E. apply metaToValue_returns. by eapply valueToMeta_no_exception.
Qed.

(** X13. A reply the browser made with [exceptionToMeta] makes the
    renderer throw, whatever was thrown in the browser. What the renderer
    throws is a new [Error]: its [message] is the browser's message, a line
    break and the browser's stack; its [from] is [null]; its [cause] is the
    decoded cause. Its [name] is [Error] and it has no [code] and no [errno],
    also when the browser's error had them. *)
Theorem exception_reply_is_thrown fuel error pb m pb' pr :
  Browser.exceptionToMeta fuel error pb = (Ok m, pb') →
  ∃ message stack cause c pr',
    m = MException message stack cause
    ∧ Renderer.metaToValue cause pr = (Ok c, pr')
    ∧ Renderer.metaToValue m pr = (Throw (Renderer.metaToException message stack c), pr')
    ∧ error_prop (Renderer.metaToException message stack c) "message"
      = VStr (template message +:+ newline +:+ template stack)
    ∧ error_prop (Renderer.metaToException message stack c) "from" = VNull
    ∧ error_prop (Renderer.metaToException message stack c) "cause" = c
    ∧ error_prop (Renderer.metaToException message stack c) "name" = VStr "Error"
    ∧ error_prop (Renderer.metaToException message stack c) "code" = VUndefined
    ∧ error_prop (Renderer.metaToException message stack c) "errno" = VUndefined.
Proof.
  unfold Browser.exceptionToMeta. intros E.
  apply bind_Ok_inv in E as (message & p1 & _ & E).
  apply bind_Ok_inv in E as (stack & p2 & _ & E).
  apply bind_Ok_inv in E as (c0 & p3 & _ & E).
  apply bind_Ok_inv in E as (cause & p4 & Ec & [= <- <-]).
  apply valueToMeta_no_exception in Ec.
  destruct (metaToValue_returns cause Ec pr) as (c & pr' & Edec).
  exists message, (if truthy stack then stack else error), cause, c, pr'.
  split; [reflexivity|]. split; [exact Edec|]. split.
  { cbn [Renderer.metaToValue]. erewrite bind_Ok by exact Edec. reflexivity. }
  repeat split.
Qed.

End Replies.

(* ===================================================================== *)
(** * Further properties: member descriptors                              *)
(* ===================================================================== *)

Section Members.
Context `{Engine} `{BufferUtils}.

(** X14. Every member descriptor [getObjectMembers] gives for an object
    is that of an own property of the object, with its name and its
    [enumerable] flag. A [method] member is never marked writable. For a
    function, [length], [name], [arguments], [caller] and [prototype] are
    left out. *)
Theorem described_members p object m :
  m ∈ Browser.getObjectMembers p object →
  (∃ o q, cell p object = Some o ∧ q ∈ o_props o
          ∧ m_name m = p_name q ∧ m_enumerable m = p_enumerable q)
  ∧ (m_type m = method → m_writable m = false)
  ∧ (typeof p object = "function" → m_name m ∉ Browser.FUNCTION_PROPERTIES).
Proof.
  unfold Browser.getObjectMembers. destruct (cell p object) as [o|] eqn:Ho.
  2: { intros Hin. by apply elem_of_nil in Hin. }
  intros Hin. apply list_elem_of_In, in_map_iff in Hin as (q & <- & Hq).
  assert (Hq' : q ∈ o_props o
                ∧ (typeof p object = "function"
                   → Browser.includes Browser.FUNCTION_PROPERTIES (p_name q) = false)).
  { destruct (String.eqb (typeof p object) "function") eqn:Ety.
    - apply filter_In in Hq as [Hq Hf]. split; [by apply list_elem_of_In|].
      intros _. by apply negb_true_iff.
    - split; [by apply list_elem_of_In|]. intros Hty. rewrite Hty in Ety. done. }
  destruct Hq' as [Hq1 Hq2]. split; [|split].
  - exists o, q. split; [done|]. split; [done|].
    destruct (p_slot q) as [v w|g s]; [destruct (String.eqb (typeof p v) "function")|]; done.
  - destruct (p_slot q) as [v w|g s]; [destruct (String.eqb (typeof p v) "function")|]; done.
  - intros Hty Hin. specialize (Hq2 Hty).
    assert (Hn : m_name (match p_slot q with
                | Data v writable =>
                    if String.eqb (typeof p v) "function"
                    then Member (p_name q) (p_enumerable q) false method
                    else Member (p_name q) (p_enumerable q) writable get
                | Accessor getter setter =>
                    Member (p_name q) (p_enumerable q) (bool_decide (is_Some setter)) get
                end) = p_name q).
    { destruct (p_slot q) as [v w|g s]; [destruct (String.eqb (typeof p v) "function")|]; done. }
    rewrite Hn in Hin. unfold Browser.includes in Hq2.
    apply not_true_iff_false in Hq2. apply Hq2. apply existsb_exists.
    exists (p_name q). split; [by apply list_elem_of_In|]. apply String.eqb_refl.
Qed.

(** X15. What [setObjectMembers] leaves under a name: an own property the
    object had is kept as it was, and otherwise the property is the
    accessor of the first descriptor of that name, a later one of the same
    name being skipped. The accessor has a getter for a method and for a
    value alike, and a setter only for a [get] member marked writable.
    Stated for an object and descriptors without the name [hasOwnProperty],
    the method the loop calls on the object. *)
Theorem shell_member_accessors members l o id name p :
  p_heap p !! l = Some o →
  own_prop o "hasOwnProperty" = None →
  "hasOwnProperty" ∉ m_name <$> members →
  ∃ p' o', Renderer.setObjectMembers (VRef l) id members p = (Ok tt, p')
    ∧ p_heap p' !! l = Some o'
    ∧ own_prop o' name =
      match own_prop o name with
      | Some q => Some q
      | None => member_accessor id
                  <$> List.find (λ m, String.eqb (m_name m) name) members
      end.
Proof. intros Hl _ _. by apply setObjectMembers_own. Qed.

End Members.

(* ===================================================================== *)
(** * Further properties: an error object as a result                     *)
(* ===================================================================== *)

Lemma assoc_get_set k k' v own :
  assoc_get k (assoc_set k' v own) = if String.eqb k k' then Some v else assoc_get k own.
Proof.
  induction own as [|[k0 v0] own IH]; cbn [assoc_set assoc_get]; [done|].
  destruct (String.eqb k' k0) eqn:E0; cbn [assoc_get].
  - apply String.eqb_eq in E0 as ->. by destruct (String.eqb k k0).
  - rewrite IH. destruct (String.eqb k k0) eqn:E1; [|done].
    apply String.eqb_eq in E1 as ->. by rewrite String.eqb_sym, E0.
Qed.

Lemma assoc_get_None k (own : list (string * value)) : k ∉ own.*1 → assoc_get k own = None.
Proof.
  induction own as [|[k0 v0] own IH]; cbn [assoc_get fmap list_fmap]; [done|].
  intros Hk. apply not_elem_of_cons in Hk as [Hne Hk]. cbn [fst] in Hne.
  destruct (String.eqb k k0) eqn:E; [by apply String.eqb_eq in E|by apply IH].
Qed.

Lemma foldl_error_set ms : ∀ cls own,
  foldl (λ obj '(name, value), error_set name value obj) (VError cls own) ms
  = VError cls (foldl (λ own '(name, value), assoc_set name value own) own ms).
Proof.
  induction ms as [|[n v] ms IH]; intros cls own; cbn [foldl error_set]; [done|apply IH].
Qed.

Lemma assoc_get_foldl k ms : ∀ own,
  NoDup ms.*1 →
  assoc_get k (foldl (λ own '(name, value), assoc_set name value own) own ms)
  = match assoc_get k ms with Some v => Some v | None => assoc_get k own end.
Proof.
  induction ms as [|[n v] ms IH]; intros own Hnd; cbn [foldl assoc_get]; [done|].
  cbn [fmap list_fmap fst] in Hnd. apply NoDup_cons in Hnd as [Hn Hnd].
  rewrite IH by done. rewrite assoc_get_set.
  destruct (String.eqb k n) eqn:E; [|done].
  apply String.eqb_eq in E as ->. by rewrite assoc_get_None.
Qed.

Section Errors.
Context `{Engine} `{BufferUtils}.

(** X16. An error object that is the result of a chain reaches the
    renderer as an error object on which every own property of the
    browser's error, its [name] and its [message] read as they do in the
    browser. The renderer's object is made with [new Error()], whatever the
    class of the browser's error was. The own properties of the error are
    as JavaScript has them, no name twice, none named [__proto__], and
    their values are primitives, which the descriptor carries as they
    are. *)
Theorem error_round_trip fuel cls own optimize pb pr :
  NoDup own.*1 →
  "__proto__" ∉ own.*1 →
  Forall (λ kv, primitive kv.2 = true) own →
  ∃ m own',
    Browser.valueToMeta fuel (VError cls own) optimize pb = (Ok m, pb)
    ∧ Renderer.metaToValue m pr = (Ok (VError "Error" own'), pr)
    ∧ ∀ prop, is_Some (assoc_get prop own) ∨ prop = "name" ∨ prop = "message" →
        error_prop (VError "Error" own') prop = error_prop (VError cls own) prop.
Proof.
  intros Hnd _ _.
  exists (MError (own ++ [("name", error_get cls own "name")])).
  eexists. split; [by destruct fuel|]. split.
  { cbn [Renderer.metaToValue]. unfold Renderer.metaToPlainObject.
    rewrite foldl_error_set. reflexivity. }
  intros prop Hprop. cbn [error_prop]. unfold error_get at 1 3.
  rewrite foldl_app. cbn [foldl]. rewrite assoc_get_set, assoc_get_foldl by done.
  destruct (String.eqb prop "name") eqn:En.
  { apply String.eqb_eq in En as ->. unfold error_get.
    by destruct (assoc_get "name" own). }
  destruct (assoc_get prop own) as [v|] eqn:Ev; [done|].
  destruct Hprop as [[? Hs] | [-> | ->]]; [discriminate Hs|done|reflexivity].
Qed.

End Errors.

(* ===================================================================== *)
(** * Further properties: what [wrapArgs] sends, [unwrapArgs] accepts     *)
(* ===================================================================== *)

Lemma ameta_ind' (P : ameta → Prop) :
  (∀ v, P (AValue v)) →
  (∀ ms, Forall P ms → P (AArray ms)) →
  (∀ bytes, P (ABuffer bytes)) →
  (∀ n, P (ADate n)) →
  (∀ m, P m → P (APromise m)) →
  (∀ id, P (ARemoteObject id)) →
  (∀ name members, Forall (λ nm, P nm.2) members → P (AObject name members)) →
  (∀ m, P m → P (AFunctionWithReturnValue m)) →
  P AFunction →
  (∀ type, P (AOther type)) →
  ∀ m, P m.
Proof.
  intros Hv Ha Hb Hd Hp Hr Ho Hf Hfn Hot. fix IH 1.
  intros [v|ms|bytes|n|m|id|name members|m| |type].
  - apply Hv.
  - apply Ha. induction ms as [|m ms IHms]; constructor; [apply IH|exact IHms].
  - apply Hb.
  - apply Hd.
  - apply Hp, IH.
  - apply Hr.
  - apply Ho. induction members as [|[n m] members IHms]; constructor;
      [apply IH|exact IHms].
  - apply Hf, IH.
  - apply Hfn.
  - apply Hot.
Qed.

Lemma mapM_length {A B} (f : A → M B) l : ∀ p ys p',
  mapM f l p = (Ok ys, p') → length ys = length l.
Proof.
  induction l as [|x l IH]; intros p ys p'; cbn [mapM].
  - by intros [= <- <-].
  - intros E. apply bind_Ok_inv in E as (y & p1 & Ey & E).
    apply bind_Ok_inv in E as (ys' & p2 & Eys & [= <- <-]).
    cbn [List.length]. f_equal. by eapply IH.
Qed.

Section Accepted.
Context `{Engine} `{BufferUtils}.

Lemma valueToMeta__sendable recur :
  (∀ visited v p m p', recur visited v p = (Ok m, p') → sendable m = true) →
  ∀ visited v p m p',
    Renderer.valueToMeta_ recur visited v p = (Ok m, p') → sendable m = true.
Proof.
  intros Hrec visited v p m p'. unfold Renderer.valueToMeta_.
  destruct (Renderer.has visited v); [by intros [= <- <-]|].
  unfold mbind at 1, M_bind at 1. cbn [get_process].
  assert (Hlist : ∀ vis elems q ms q',
            mapM (recur vis) elems q = (Ok ms, q') → forallb sendable ms = true).
  { intros vis elems q ms q' E. apply forallb_forall. intros x Hx.
    apply (mapM_Ok_Forall (λ m, sendable m = true)) in E.
    - rewrite List.Forall_forall in E. by apply E.
    - intros; by eapply Hrec. }
  assert (Hcell : ∀ o,
    (match o with
     | {| o_kind := KObject |} =>
         let id := default 0%Z (atomId (o_hidden o)) in
         if negb (id =? 0)%Z then mret (ARemoteObject id)
         else
           members ← mapM (λ prop, v0 ← Renderer.read_prop v prop;
                                   m ← recur (Renderer.add v visited) v0;
                                   mret (prop, m)) (Renderer.enumerable_keys p v);
           mret (AObject (constructor_name p v) members)
     | {| o_kind := KArray elems |} =>
         metas ← mapM (recur (Renderer.add v visited)) elems;
         mret (AArray metas)
     | {| o_kind := KBuffer bytes |} => mret (ABuffer (bufferToMeta bytes))
     | {| o_kind := KDate t |} => mret (ADate (getTime t))
     | {| o_kind := KPromise _ _ |} =>
         then_fn ← alloc {| o_kind := KFunction (ThenFn v); o_props := [];
                            o_proto := function_prototype;
                            o_ctor := CtorNamed "Function"; o_hidden := no_hidden |};
         then_ ← recur visited then_fn;
         mret (APromise then_)
     | {| o_kind := KFunction _ |} =>
         if returnValue (o_hidden o) then
           rv ← apply_function v VUndefined [];
           m ← recur visited rv;
           mret (AFunctionWithReturnValue m)
         else
           throw (TypeError "Unsupported type: function")
     end) p = (Ok m, p') → sendable m = true).
  { intros [k ps pr ct hd]. destruct k as [|elems|bytes|t|th n|c]; cbn [o_hidden o_kind].
    - destruct (negb _); [by intros [= <- <-]|].
      intros E. apply bind_Ok_inv in E as (ms & p1 & Ems & [= <- <-]).
      cbn [sendable]. apply forallb_forall. intros x Hx.
      apply (mapM_Ok_Forall (λ nm, sendable nm.2 = true)) in Ems.
      + rewrite List.Forall_forall in Ems. by apply Ems.
      + intros prop q y q' E. apply bind_Ok_inv in E as (v0 & q1 & _ & E).
        apply bind_Ok_inv in E as (m0 & q2 & Em & [= <- <-]). by eapply Hrec.
    - intros E. apply bind_Ok_inv in E as (ms & p1 & Ems & [= <- <-]).
      cbn [sendable]. by eapply Hlist.
    - by intros [= <- <-].
    - by intros [= <- <-].
    - intros E. apply bind_Ok_inv in E as (fn & p1 & _ & E).
      apply bind_Ok_inv in E as (t & p2 & Et & [= <- <-]).
      cbn [sendable]. by eapply Hrec.
    - destruct (returnValue hd); [|done].
      intros E. apply bind_Ok_inv in E as (rv & p1 & _ & E).
      apply bind_Ok_inv in E as (t & p2 & Et & [= <- <-]).
      cbn [sendable]. by eapply Hrec. }
  destruct v as [| | | | |l|cls own]; cbn [cell];
    try (by intros [= <- <-]).
  - destruct (p_heap p !! l) as [o|] eqn:Hl; [|by intros [= <- <-]].
    specialize (Hcell o). destruct o as [[] ? ? ? ?]; exact Hcell.
  - intros E. apply bind_Ok_inv in E as (ms & p1 & Ems & [= <- <-]).
    cbn [sendable]. apply forallb_forall. intros x Hx.
    apply (mapM_Ok_Forall (λ nm, sendable nm.2 = true)) in Ems.
    + rewrite List.Forall_forall in Ems. by apply Ems.
    + intros [prop v0] q y q' E. apply bind_Ok_inv in E as (m0 & q2 & Em & [= <- <-]).
      by eapply Hrec.
Qed.

Lemma valueToMeta_sendable fuel : ∀ visited v p m p',
  Renderer.valueToMeta fuel visited v p = (Ok m, p') → sendable m = true.
Proof.
  induction fuel as [|fuel IH]; cbn [Renderer.valueToMeta];
    apply valueToMeta__sendable; [done|exact IH].
Qed.

Lemma sendable_is_accepted m :
  sendable m = true → ∀ p, ∃ v p', Browser.metaToValue m p = (Ok v, p').
Proof.
  induction m as [v|ms IH|bytes|n|m IH|id|name members IH|m IH| |type]
    using ameta_ind'; cbn [sendable]; intros Hm p; cbn [Browser.metaToValue];
    try done; try by eexists _, _.
  - assert (Hall : Forall (λ m, ∀ p, ∃ v p', Browser.metaToValue m p = (Ok v, p')) ms).
    { rewrite List.Forall_forall in IH. apply List.Forall_forall. intros m Hin.
      apply IH; [done|]. rewrite forallb_forall in Hm. by apply Hm. }
    destruct (mapM_Ok _ _ Hall p) as (vs & p1 & E).
    erewrite bind_Ok by exact E. by eexists _, _.
  - destruct (IH Hm p) as (v & p1 & E). erewrite bind_Ok by exact E.
    unfold mbind at 1, M_bind at 1. unfold alloc at 1. by eexists _, _.
  - unfold mbind at 1, M_bind at 1. unfold alloc at 1.
    unfold mbind at 1, M_bind at 1. unfold modify at 1.
    set (ret := VRef (length (p_heap p))).
    assert (Hall : Forall (λ nm : string * ameta, ∀ p, ∃ (u : unit) p',
               (let '(name, value) := nm in
                v ← Browser.metaToValue value; update ret (define_data name v)) p
               = (Ok u, p')) members).
    { rewrite List.Forall_forall in IH. apply List.Forall_forall. intros [n m] Hin q.
      destruct (IH (n, m) Hin) with (p := q) as (v & q1 & E).
      { rewrite forallb_forall in Hm. by apply (Hm (n, m)). }
      erewrite bind_Ok by exact E. unfold update, ret. by eexists _, _. }
    destruct (mapM_Ok _ _ Hall (set_objectName name
                (set_heap (p_heap p ++ [new_obj KObject CtorObject]) p)))
      as (us & p1 & E).
    erewrite bind_Ok by exact E. by eexists _, _.
  - destruct (IH Hm p) as (v & p1 & E). erewrite bind_Ok by exact E. by eexists _, _.
Qed.

(** X17. Whatever [wrapArgs] returns, the browser's [unwrapArgs] turns
    into as many values without throwing: the renderer sends no descriptor
    of type [function] and none of a type the browser does not know. *)
Theorem wrapped_arguments_are_accepted fuel args visited p metas p' pb :
  Renderer.wrapArgs fuel args visited p = (Ok metas, p') →
  ∃ values pb',
    Browser.unwrapArgs (Some metas) pb = (Ok values, pb')
    ∧ length values = length args.
Proof.
  unfold Renderer.wrapArgs. intros E. cbn [Browser.unwrapArgs].
  assert (Hall : Forall (λ m, ∀ p, ∃ v p', Browser.metaToValue m p = (Ok v, p')) metas).
  { apply (mapM_Ok_Forall (λ m, sendable m = true)) in E.
    - eapply Forall_impl; [exact E|]. intros m Hm. by apply sendable_is_accepted.
    - intros x q y q'. apply valueToMeta_sendable. }
  destruct (mapM_Ok _ _ Hall pb) as (values & pb' & Eu).
  exists values, pb'. split; [exact Eu|].
  apply mapM_length in Eu. apply mapM_length in E. congruence.
Qed.

End Accepted.

(* ===================================================================== *)
(** * Further properties: assignments and the accessors of a shell        *)
(* ===================================================================== *)

Section Assignments.
Context `{Engine} `{BufferUtils} `{Transport}.

Lemma commit_returns_reply wrapper chain m p :
  Renderer.commands p wrapper = Some chain →
  reply (ipcLog p ++ [chain]) = Some m →
  Renderer.commit wrapper p
  = Renderer.metaToValue m (set_ipcLog (ipcLog p ++ [chain]) p).
Proof.
  intros Hc Hr. unfold Renderer.commit. unfold mbind at 1, M_bind at 1.
  cbn [get_process]. rewrite Hc. cbn [from_option]. unfold Datatypes.id.
  unfold mbind, M_bind, Renderer.sendSync. by rewrite Hr.
Qed.

(** X18. An assignment through a proxy, where the browser runs the chain
    and the assignment without a throw and the transport delivers the
    browser's answer: the browser answers [null], not the value assigned,
    and [null] is what the [set] trap returns. *)
Theorem assignment_answers_null
    fuel bfuel sender wrapper prop v metas chain p p1 pb ret optimize pb1 r pb2 :
  let command := with_value metas (with_name prop (cmd "member_set")) in
  Renderer.wrapArgs fuel [v] ∅ p = (Ok metas, p1) →
  Renderer.commands p1 wrapper = Some chain →
  Browser.run_commands sender chain VUndefined false pb = (Ok (ret, optimize), pb1) →
  Browser.exec_command sender command ret pb1 = (Ok r, pb2) →
  (∀ m pb', Browser.commit bfuel sender (chain ++ [command]) pb = (Ok m, pb') →
            reply (ipcLog p1 ++ [chain ++ [command]]) = Some m) →
  Browser.commit bfuel sender (chain ++ [command]) pb = (Ok (MValue VNull), pb2)
  ∧ ∃ p', Renderer.proxy_set fuel wrapper prop v p = (Ok VNull, p').
Proof.
  intros command Hargs Hc Hpre Hexec Hreply.
  assert (Hnull : r = VNull).
  { unfold Browser.exec_command in Hexec. cbn [command c_type with_value with_name cmd] in Hexec.
    revert Hexec. literals. intros Hexec.
    apply bind_Ok_inv in Hexec as (args & q1 & _ & Hexec).
    apply bind_Ok_inv in Hexec as ([] & q2 & _ & Hexec). by injection Hexec as <- _. }
  subst r.
  assert (Hcommit : Browser.commit bfuel sender (chain ++ [command]) pb
                    = (Ok (MValue VNull), pb2)).
  { unfold Browser.commit. erewrite try_catch_Ok; [reflexivity|].
    erewrite bind_Ok.
    2:{ rewrite run_commands_app, Hpre. cbn [Browser.run_commands].
        erewrite bind_Ok by exact Hexec. reflexivity. }
    by destruct bfuel. }
  split; [exact Hcommit|].
  specialize (Hreply _ _ Hcommit).
  destruct (push_spec wrapper chain command p1 Hc) as (p2 & Epush & Hc2 & Hlog2).
  eexists. unfold Renderer.proxy_set. erewrite bind_Ok by exact Hargs.
  erewrite bind_Ok by exact Epush.
  rewrite (commit_returns_reply wrapper (chain ++ [command]) (MValue VNull) p2 Hc2)
    by (by rewrite Hlog2).
  reflexivity.
Qed.

(** X19. The accessors of a shell. Its getter sends nothing: it returns a
    new proxy whose chain is the [remote_object_get] of the member on the
    handle of the shell. Its setter sends at once one message of one
    command, the [remote_object_set] of the member with the encoded value,
    and returns what the reply decodes to or throws what it throws. *)
Theorem shell_accessors metaId name p :
  (∃ wrapper p',
     Renderer.remote_getter metaId name p = (Ok wrapper, p')
     ∧ Renderer.commands p' wrapper
       = Some [with_name name (with_id metaId (cmd "remote_object_get"))]
     ∧ ipcLog p' = ipcLog p)
  ∧ ∀ fuel v metas p1 r p',
      Renderer.wrapArgs fuel [v] ∅ p = (Ok metas, p1) →
      Renderer.remote_setter fuel metaId name v p = (r, p') →
      ipcLog p' = ipcLog p1
                  ++ [[with_value metas (with_name name (with_id metaId
                                           (cmd "remote_object_set")))]].
Proof.
  split.
  - unfold Renderer.remote_getter.
    destruct (LazyObject_spec
                (with_name name (with_id metaId (cmd "remote_object_get"))) p)
      as (p' & E & Hc & Hlog & _).
    by eexists _, p'.
  - intros fuel v metas p1 r p' Hargs E. unfold Renderer.remote_setter in E.
    erewrite bind_Ok in E by exact Hargs.
    destruct (LazyObject_spec
                (with_value metas (with_name name (with_id metaId
                   (cmd "remote_object_set")))) p1) as (p2 & E2 & Hc2 & Hlog2 & _).
    erewrite bind_Ok in E by exact E2.
    unfold Renderer.proxy_get in E. revert E. literals. intros E.
    destruct (commit_once _ _ _ _ _ Hc2 E) as [Hlog _]. by rewrite Hlog, Hlog2.
Qed.

End Assignments.

(* ===================================================================== *)
(** * Further properties: promises, and the name of [Object]              *)
(* ===================================================================== *)

Section Promises.
Context `{Engine} `{BufferUtils}.

(** X20. A promise among the arguments makes the renderer's [wrapArgs]
    throw TypeError 'Unsupported type: function' as soon as the arguments
    before it are encoded: the [then] of its descriptor is the encoding of a
    function the encoder has just made, which carries no [returnValue] mark.
    No list of descriptors is produced and the [apply] trap records no
    call. *)
Theorem promise_argument_is_rejected fuel pre l post o thenable n metas p p1 :
  Renderer.wrapArgs (S fuel) pre ∅ p = (Ok metas, p1) →
  p_heap p1 !! l = Some o → o_kind o = KPromise thenable n →
  ∃ p2,
    Renderer.wrapArgs (S fuel) (pre ++ VRef l :: post) ∅ p
      = (Throw (TypeError "Unsupported type: function"), p2)
    ∧ (∀ l' o', p_heap p1 !! l' = Some o' → p_heap p2 !! l' = Some o')
    ∧ ∀ wrapper, Renderer.proxy_apply (S fuel) wrapper (pre ++ VRef l :: post) p
        = (Throw (TypeError "Unsupported type: function"), p2).
Proof.
  intros Hpre Hcell Hkind.
  set (then_fn := {| o_kind := KFunction (ThenFn (VRef l)); o_props := [];
                     o_proto := function_prototype;
                     o_ctor := CtorNamed "Function"; o_hidden := no_hidden |}).
  set (p2 := set_heap (p_heap p1 ++ [then_fn]) p1).
  assert (Hone : Renderer.valueToMeta (S fuel) ∅ (VRef l) p1
                 = (Throw (TypeError "Unsupported type: function"), p2)).
  { cbn [Renderer.valueToMeta]. unfold Renderer.valueToMeta_ at 1.
    cbn [Renderer.has]. rewrite bool_decide_eq_false_2 by set_solver.
    unfold mbind at 1, M_bind at 1. cbn [get_process cell]. rewrite Hcell.
    destruct o as [k ps pr ct hd]; cbn in Hkind; subst k.
    unfold mbind at 1, M_bind at 1. unfold alloc at 1. fold then_fn. fold p2.
    erewrite bind_Throw; [reflexivity|].
    eapply (unsupported_function fuel ∅ (length (p_heap p1)) then_fn);
      [by apply list_lookup_middle|reflexivity|reflexivity|set_solver]. }
  assert (E : Renderer.wrapArgs (S fuel) (pre ++ VRef l :: post) ∅ p
              = (Throw (TypeError "Unsupported type: function"), p2)).
  { unfold Renderer.wrapArgs in *. rewrite mapM_app.
    erewrite bind_Ok by exact Hpre. cbn [mapM].
    erewrite bind_Throw; [reflexivity|].
    erewrite bind_Throw; [reflexivity|exact Hone]. }
  exists p2. split; [exact E|]. split.
  - intros l' o' Hl'. cbn [p2 p_heap set_heap]. by apply lookup_app_l_Some.
  - intros wrapper. unfold Renderer.proxy_apply.
    unfold mbind at 1, M_bind at 1. cbn [get_process].
    erewrite bind_Throw; [reflexivity|exact E].
Qed.

Lemma define_members_keep_ctor ret members :
  Forall (λ nm : string * ameta, ∃ v, nm.2 = AValue v) members →
  ∀ q, ∃ us q',
    mapM (λ '(name, value), v ← Browser.metaToValue value;
                            update ret (define_data name v)) members q = (Ok us, q')
    ∧ objectName q' = objectName q
    ∧ ∀ l o, p_heap q !! l = Some o →
        ∃ o', p_heap q' !! l = Some o' ∧ o_ctor o' = o_ctor o.
Proof.
  induction 1 as [|[n m] members [v Hv] _ IH]; intros q; cbn [mapM].
  - exists [], q. split; [reflexivity|]. split; [reflexivity|]. eauto.
  - cbn [snd] in Hv. subst m. cbn [Browser.metaToValue].
    set (q1 := (update ret (define_data n v) q).2).
    assert (E1 : (v0 ← mret v; update ret (define_data n v0)) q = (Ok tt, q1)).
    { unfold q1, update. by destruct ret. }
    assert (Hq1 : objectName q1 = objectName q
                  ∧ ∀ l o, p_heap q !! l = Some o →
                      ∃ o', p_heap q1 !! l = Some o' ∧ o_ctor o' = o_ctor o).
    { unfold q1, update. destruct ret as [| | | | |r|]; cbn [snd]; try by eauto.
      split; [reflexivity|]. intros l o Hl. cbn [p_heap set_heap].
      destruct (decide (r = l)) as [->|Hne].
      - exists (define_data n v o). by rewrite list_lookup_alter_eq, Hl.
      - exists o. by rewrite list_lookup_alter_ne. }
    destruct Hq1 as [Hn1 Hc1].
    destruct (IH q1) as (us & q2 & E2 & Hn2 & Hc2).
    exists (tt :: us), q2. erewrite bind_Ok by exact E1.
    erewrite bind_Ok by exact E2. split; [reflexivity|]. split; [congruence|].
    intros l o Hl. destruct (Hc1 l o Hl) as (o1 & Hl1 & Ho1).
    destruct (Hc2 l o1 Hl1) as (o2 & Hl2 & Ho2). exists o2. split; [done|congruence].
Qed.

(** X21. Decoding an [object] descriptor among the arguments sets the
    [name] of the browser's global [Object] constructor to the name in the
    descriptor: [value.constructor.name] of every plain object the browser
    held reads that name afterwards. Stated for a descriptor whose members
    are [value] descriptors. *)
Theorem unwrapping_renames_Object name members pb :
  Forall (λ nm : string * ameta, ∃ v, nm.2 = AValue v) members →
  ∃ ret pb',
    Browser.metaToValue (AObject name members) pb = (Ok ret, pb')
    ∧ objectName pb' = name
    ∧ ∀ l o, p_heap pb !! l = Some o → o_ctor o = CtorObject →
        constructor_name pb' (VRef l) = name.
Proof.
  intros Hflat.
  set (n := length (p_heap pb)).
  set (q := set_objectName name (set_heap (p_heap pb ++ [new_obj KObject CtorObject]) pb)).
  destruct (define_members_keep_ctor (VRef n) members Hflat q)
    as (us & pb' & E & Hname & Hcells).
  exists (VRef n), pb'.
  assert (Hplain : ∀ l o, p_heap q !! l = Some o → o_ctor o = CtorObject →
                     constructor_name pb' (VRef l) = name).
  { intros l o Hl Hctor. destruct (Hcells l o Hl) as (o' & Hl' & Ho').
    unfold constructor_name. cbn [cell]. by rewrite Hl', Ho', Hctor, Hname. }
  split; [|split; [exact Hname|]].
  - cbn [Browser.metaToValue]. unfold mbind at 1, M_bind at 1. unfold alloc at 1.
    unfold mbind at 1, M_bind at 1. unfold modify at 1. fold n. fold q.
    erewrite bind_Ok by exact E. reflexivity.
  - intros l o Hl Hctor. apply (Hplain l o); [|exact Hctor].
    cbn [q p_heap set_objectName set_heap]. by apply lookup_app_l_Some.
Qed.

End Promises.

(* ===================================================================== *)
(** * The theorems at concrete inputs                                     *)
(* ===================================================================== *)

#[local] Existing Instance Host.engine.
#[local] Existing Instance Host.buffers.

(** [remote.getCurrentWindow().hide(1, 2)]: the chain of two steps stays a
    chain of two steps. *)
Lemma apply_trap_compaction_witness :
  Renderer.commands Host.lazy_process (VRef 0)
    = Some ([cmd "get_current_window"] ++ [with_name "hide" (cmd "member_get")])
  ∧ Renderer.wrapArgs 0 [num 1; num 2] ∅ Host.lazy_process
    = (Ok [AValue (num 1); AValue (num 2)], Host.lazy_process)
  ∧ ∃ p2 chain,
      Renderer.proxy_apply 0 (VRef 0) [num 1; num 2] Host.lazy_process = (Ok (VRef 0), p2)
      ∧ Renderer.commands p2 (VRef 0) = Some chain
      ∧ chain = [cmd "get_current_window";
                 with_type "member_call"
                   (with_args [AValue (num 1); AValue (num 2)]
                      (with_name "hide" (cmd "member_get")))]
      ∧ length chain = 2.
Proof.
  split; [reflexivity|]. split; [reflexivity|].
  destruct (apply_trap_compaction 0 (VRef 0) [num 1; num 2]
              [AValue (num 1); AValue (num 2)] [cmd "get_current_window"]
              (with_name "hide" (cmd "member_get"))
              Host.lazy_process Host.lazy_process eq_refl eq_refl eq_refl)
    as (p2 & chain & E & Hc & Hget & _).
  exists p2, chain. destruct (Hget eq_refl) as [Hchain Hlen].
  split; [exact E|]. split; [exact Hc|]. split; [exact Hchain|exact Hlen].
Defined.

(** The same call, committed against a browser that holds the window:
    one chain is sent, of two steps. *)
Example hide_is_one_round_trip :
  let T := Host.transport 1 Host.sender Host.window_process in
  fst ((w ← Renderer.LazyObject (cmd "get_current_window");
        w ← Renderer.proxy_get w "hide";
        w ← Renderer.proxy_apply 0 w [];
        r ← Renderer.proxy_get w "$";
        p ← get_process;
        mret (r, ipcLog p)) empty_process)
  = Ok (VUndefined, [[cmd "get_current_window";
                      with_args [] (with_name "hide" (cmd "member_call"))]]).
Proof. vm_compute. reflexivity. Qed.

(** A [function] descriptor with handle 5, decoded twice by a renderer
    that has no proxy for 5. *)
Lemma decoded_twice_witness :
  remoteObjectCache empty_process !! 5%Z = None
  ∧ ∃ v1 p1 v2 p2,
      Renderer.metaToValue (MRemote TFunction "Function" 5 [] None) empty_process = (Ok v1, p1)
      ∧ Renderer.metaToValue (MRemote TFunction "Function" 5 [] None) p1 = (Ok v2, p2)
      ∧ v1 ≠ v2
      ∧ remoteObjectCache p2 !! 5%Z = None.
Proof.
  split; [reflexivity|].
  apply (proj2 decoded_twice "Function" 5%Z [] None empty_process). reflexivity.
Defined.

(** [window.title = null] through handle 9, which the registry of
    [window_process] does not hold, between two other commands. *)
Lemma missing_remote_object_error_witness :
  storage (objectsRegistry Host.window_process) !! 9%Z = None
  ∧ Browser.commit 1 Host.sender
      [cmd "get_current_web_contents";
       with_value [AValue VNull] (with_name "title" (with_id 9 (cmd "remote_object_set")));
       cmd "get_current_window"] Host.window_process
    = (Ok (MException
             (VStr "Cannot set property 'title' on missing remote object 9")
             (VStr "Error: Cannot set property 'title' on missing remote object 9")
             (MValue VUndefined)), Host.window_process).
Proof.
  split; [reflexivity|].
  refine (proj2 (proj2 (proj2
    (missing_remote_object_error 1 Host.sender [cmd "get_current_web_contents"]
       (with_value [AValue VNull] (with_name "title" (with_id 9 (cmd "remote_object_set"))))
       [cmd "get_current_window"] Host.window_process Host.sender false
       Host.window_process "set property" 9%Z _ eq_refl eq_refl eq_refl)))).
  unfold remote_object_commands. apply list_elem_of_further, list_elem_of_here.
Defined.

(** [window.fail()], where [fail] throws an [Error] saying "boom". *)
Lemma thrown_error_is_the_response_witness :
  Browser.commit 1 Host.sender
    [cmd "get_current_window"; with_args [] (with_name "fail" (cmd "member_call"));
     cmd "get_current_web_contents"] Host.window_process
  = (Ok (MException
           (VStr "Could not call remote function 'fail'. Check that the function signature is correct. Underlying error: boom")
           (VStr "Error: Could not call remote function 'fail'. Check that the function signature is correct. Underlying error: boom")
           (MError [("stack", VStr "Error: boom"); ("message", VStr "boom");
                    ("name", VStr "Error")])), Host.window_process)
  ∧ Browser.callFunction (VRef 4) (VRef 0) [] Host.window_process
    = (Throw (Browser.call_error (VStr "fail") (VStr "boom") (Error "boom")),
       Host.window_process).
Proof.
  split.
  - exact (proj1 thrown_error_is_the_response 1 Host.sender
             [cmd "get_current_window"]
             (with_args [] (with_name "fail" (cmd "member_call")))
             [cmd "get_current_web_contents"] Host.window_process
             (VRef 0) false Host.window_process
             (Browser.call_error (VStr "fail") (VStr "boom") (Error "boom"))
             Host.window_process _ Host.window_process _ Host.window_process
             _ Host.window_process _ Host.window_process
             eq_refl eq_refl eq_refl eq_refl eq_refl eq_refl).
  - exact (proj1 (proj1 (proj2 thrown_error_is_the_response) (VRef 4) (VRef 0) []
             Host.window_process [] Host.window_process (Error "boom")
             Host.window_process (VStr "fail") Host.window_process
             (VStr "boom") Host.window_process
             eq_refl eq_refl eq_refl eq_refl)).
Defined.

(** [new F()] through handle 5. Where [F] throws [undefined], the
    [catch] block reads [error.message] of [undefined], which throws a
    TypeError out of the handler: no response is set, whatever the budget.
    Where [F] throws an error whose [cause] is the array that holds
    itself, encoding the cause has no end, whatever the budget. *)
Lemma thrown_undefined_is_not_answered :
  (@Browser.exec_command (Host.throwing VUndefined) Host.buffers Host.sender
     (with_args [] (with_id 5 (cmd "constructor_call"))) VUndefined
     Host.constructor_process
   = (Throw VUndefined, Host.constructor_process)
   ∧ @Browser.commit (Host.throwing VUndefined) Host.buffers 1 Host.sender
       [with_args [] (with_id 5 (cmd "constructor_call"))] Host.constructor_process
     = (Throw (TypeError "Cannot read property 'message' of undefined"),
        Host.constructor_process)
   ∧ ¬ ∃ fuel response p',
         @Browser.commit (Host.throwing VUndefined) Host.buffers fuel Host.sender
           [with_args [] (with_id 5 (cmd "constructor_call"))]
           Host.constructor_process
         = (Ok response, p'))
  ∧ (@Browser.exec_command (Host.throwing Host.cyclic_cause) Host.buffers Host.sender
       (with_args [] (with_id 5 (cmd "constructor_call"))) VUndefined
       Host.constructor_process
     = (Throw Host.cyclic_cause, Host.constructor_process)
     ∧ ¬ ∃ fuel response p',
           @Browser.commit (Host.throwing Host.cyclic_cause) Host.buffers fuel
             Host.sender [with_args [] (with_id 5 (cmd "constructor_call"))]
             Host.constructor_process
           = (Ok response, p')).
Proof.
  split; [|split; [reflexivity|]].
  - split; [reflexivity|]. split; [reflexivity|].
    intros (fuel & response & p' & E). vm_compute in E. discriminate.
  - intros (fuel & response & p' & E). revert E.
    unfold Browser.commit. erewrite try_catch_Throw; [|reflexivity].
    unfold Browser.exceptionToMeta.
    erewrite bind_Ok by reflexivity. erewrite bind_Ok by reflexivity.
    erewrite bind_Ok by reflexivity.
    erewrite bind_Diverge; [discriminate|].
    change (error_get "Error" _ "cause") with (VRef 0).
    by eapply valueToMeta_self_array.
Qed.

(** The array [[1, "a", buffer, date, null]] of [data_process], sent to a
    renderer with an empty heap. *)
Lemma round_trip_witness :
  denotes (p_heap Host.data_process) (VRef 2) Host.data_value
  ∧ nesting Host.data_value ≤ 1
  ∧ ∃ m v' pc',
      Browser.valueToMeta 1 (VRef 2) false Host.data_process = (Ok m, Host.data_process)
      ∧ Renderer.metaToValue m empty_process = (Ok v', pc')
      ∧ denotes (p_heap pc') v' Host.data_value.
Proof.
  assert (Hd : denotes (p_heap Host.data_process) (VRef 2) Host.data_value).
  { cbn. eexists 2, _, _. split; [reflexivity|]. split; [reflexivity|].
    split; [reflexivity|]. cbn.
    split; [by split|]. split; [by split|].
    split; [by eexists 0, _|].
    split; [eexists 1, _; split; [reflexivity|]; split; [reflexivity|];
            split; [reflexivity|]; by vm_compute|].
    split; [by split|exact I]. }
  assert (Hn : nesting Host.data_value ≤ 1) by (vm_compute; lia).
  split; [exact Hd|]. split; [exact Hn|].
  exact (round_trip Host.data_value (VRef 2) Host.data_process 1 false empty_process Hd Hn).
Defined.


Example wrapArgs_inherited_cycle :
  Renderer.wrapArgs 2 [VRef 2] ∅ Host.inherited_cycle_process
  = (Ok [AObject "Object" [("n", AValue (num 1)); ("child", AValue VNull)]],
     Host.inherited_cycle_process).
Proof. vm_compute. reflexivity. Qed.

Example wrapArgs_self_array :
  Renderer.wrapArgs 1 [VRef 0] ∅ Host.cyclic_process
  = (Ok [AArray [AValue VNull]], Host.cyclic_process).
Proof. vm_compute. reflexivity. Qed.


(** A function after a number among the arguments, and a [function]
    descriptor after a [value] descriptor. *)
Lemma function_argument_is_rejected_witness :
  Renderer.wrapArgs 0 [num 1; VRef 0] ∅ Host.function_process
    = (Throw (TypeError "Unsupported type: function"), Host.function_process)
  ∧ Browser.unwrapArgs (Some [AValue VNull; AFunction]) empty_process
    = (Throw (TypeError "Unsupported type: function"), empty_process).
Proof.
  split.
  - exact (proj1 (proj1 function_argument_is_rejected 0 [num 1] 0 []
             (new_obj (KFunction (Native 0)) (CtorNamed "Function")) (Native 0)
             [AValue (num 1)] Host.function_process Host.function_process
             eq_refl eq_refl eq_refl eq_refl)).
  - exact (proj2 (proj2 function_argument_is_rejected) [AValue VNull] [] [VNull]
             empty_process empty_process eq_refl).
Defined.


(** Handle 99 in a browser whose registry is empty: as an argument it
    is [undefined]; as the function of a [function_call] it is the error
    with code EBADRPC. *)
Lemma unknown_remote_object_is_undefined_witness :
  storage (objectsRegistry empty_process) !! 99%Z = None
  ∧ Browser.unwrapArgs (Some [ARemoteObject 99]) empty_process
    = (Ok [VUndefined], empty_process)
  ∧ ∃ error,
      Browser.call_target "function" (with_id 99 (cmd "function_call")) VUndefined
        empty_process
      = (Throw error, empty_process)
      ∧ error_prop error "code" = VStr "EBADRPC".
Proof.
  split; [reflexivity|].
  pose proof (unknown_remote_object_is_undefined 99%Z empty_process eq_refl)
    as (_ & Hargs & _ & Hcall).
  split; [exact Hargs|].
  exact (Hcall "function" (with_id 99 (cmd "function_call")) VUndefined eq_refl).
Defined.

Lemma unknown_remote_object_does_not_throw :
  storage (objectsRegistry empty_process) !! 99%Z = None
  ∧ ¬ ∃ e p', Browser.metaToValue (ARemoteObject 99) empty_process = (Throw e, p').
Proof.
  split; [reflexivity|]. intros (e & p' & E). vm_compute in E. discriminate.
Qed.

(** [member_construct], the name the spec gives the step the code calls
    [member_constructor], is no case label. *)
Lemma unrecognized_command_is_skipped_witness :
("member_construct" ∉ recognized_types)
  ∧ Browser.commit 0 Host.sender
      [cmd "get_current_window"; with_args [] (with_name "BrowserWindow" (cmd "member_construct"));
       with_name "id" (cmd "member_get")] Host.window_process
    = Browser.commit 0 Host.sender
      [cmd "get_current_window"; with_name "id" (cmd "member_get")] Host.window_process.
Proof.
  assert (Hn : "member_construct" ∉ recognized_types).
  { unfold recognized_types. intros Hin.
    repeat (apply elem_of_cons in Hin as [Hin|Hin]; [discriminate|]).
    by apply elem_of_nil in Hin. }
  split; [exact Hn|].
  exact (proj1 (proj2 (proj2 (unrecognized_command_is_skipped Host.sender
           (with_args [] (with_name "BrowserWindow" (cmd "member_construct"))) Hn)))
           0 [cmd "get_current_window"] [with_name "id" (cmd "member_get")]
           Host.window_process ltac:(discriminate)).
Defined.

(* ===================================================================== *)
(** * The further properties at concrete inputs                           *)
(* ===================================================================== *)

#[local] Existing Instance window_transport.

(** The descriptor of a window, decoded by the renderer that holds the
    proxy of [remote.getCurrentWindow().hide]. *)
Lemma metaToValue_only_allocates_witness :
  let p' := (Renderer.metaToValue window_meta Host.lazy_process).2 in
  (∀ l o, p_heap Host.lazy_process !! l = Some o → p_heap p' !! l = Some o)
  ∧ length (p_heap Host.lazy_process) ≤ length (p_heap p')
  ∧ ipcLog p' = ipcLog Host.lazy_process
  ∧ objectsRegistry p' = objectsRegistry Host.lazy_process
  ∧ objectName p' ∈ objectName Host.lazy_process :: object_names window_meta
  ∧ objectName Host.lazy_process = "Object"
  ∧ objectName p' = "BrowserWindow"
  ∧ objectName (Renderer.metaToValue constructed_meta Host.lazy_process).2 = "Object".
Proof.
  pose proof (metaToValue_only_allocates window_meta Host.lazy_process _ _
                (surjective_pairing _)) as (Hcells & Hlen & Hlog & Hreg & Hname & Hobject).
  pose proof (metaToValue_only_allocates constructed_meta Host.lazy_process _ _
                (surjective_pairing _)) as (_ & _ & _ & _ & _ & Hconstructed).
  repeat (split; [assumption|]). split; [reflexivity|]. split.
  - refine (Hobject _ _ _ _ eq_refl eq_refl _).
    apply (bool_decide_unpack _). by vm_compute.
  - refine (Hconstructed _ _ _ _ eq_refl eq_refl _).
    apply (bool_decide_unpack _). by vm_compute.
Defined.

(** [remote.getCurrentWindow().hide.$], twice. *)
Lemma commit_sends_and_keeps_witness :
  Renderer.commands Host.lazy_process (VRef 0) = Some hide_chain
  ∧ let p' := (Renderer.commit (VRef 0) Host.lazy_process).2 in
    ipcLog p' = ipcLog Host.lazy_process ++ [hide_chain]
    ∧ Renderer.commands p' (VRef 0) = Some hide_chain
    ∧ ∀ r2 p2, Renderer.commit (VRef 0) p' = (r2, p2) →
        ipcLog p2 = ipcLog Host.lazy_process ++ [hide_chain; hide_chain].
Proof.
  split; [reflexivity|].
  exact (commit_sends_and_keeps (VRef 0) hide_chain Host.lazy_process _ _
           eq_refl (surjective_pairing _)).
Defined.

(** [remote.getCurrentWindow().hide.name] *)
Lemma get_trap_appends_witness :
  "name" ≠ "$"
  ∧ Renderer.commands Host.lazy_process (VRef 0) = Some hide_chain
  ∧ ∃ p', Renderer.proxy_get (VRef 0) "name" Host.lazy_process = (Ok (VRef 0), p')
          ∧ Renderer.commands p' (VRef 0)
            = Some (hide_chain ++ [with_name "name" (cmd "member_get")])
          ∧ ipcLog p' = ipcLog Host.lazy_process.
Proof.
  assert (Hne : "name" ≠ "$") by discriminate.
  split; [exact Hne|]. split; [reflexivity|].
  exact (get_trap_appends (VRef 0) "name" hide_chain Host.lazy_process Hne eq_refl).
Defined.

(** [remote.getCurrentWindow().hide.title = "x"] *)
Lemma set_trap_commits_witness :
  Renderer.wrapArgs 0 [VStr "x"] ∅ Host.lazy_process
    = (Ok [AValue (VStr "x")], Host.lazy_process)
  ∧ Renderer.commands Host.lazy_process (VRef 0) = Some hide_chain
  ∧ let p' := (Renderer.proxy_set 0 (VRef 0) "title" (VStr "x") Host.lazy_process).2 in
    let sent := hide_chain ++ [with_value [AValue (VStr "x")]
                                 (with_name "title" (cmd "member_set"))] in
    ipcLog p' = ipcLog Host.lazy_process ++ [sent]
    ∧ Renderer.commands p' (VRef 0) = Some sent.
Proof.
  split; [reflexivity|]. split; [reflexivity|].
  exact (set_trap_commits 0 (VRef 0) "title" (VStr "x") [AValue (VStr "x")] hide_chain
           Host.lazy_process Host.lazy_process _ _ eq_refl eq_refl
           (surjective_pairing _)).
Defined.

(** [new (remote.getCurrentWindow().hide)(1)] *)
Lemma construct_trap_compaction_witness :
  Renderer.commands Host.lazy_process (VRef 0)
    = Some ([cmd "get_current_window"] ++ [with_name "hide" (cmd "member_get")])
  ∧ Renderer.wrapArgs 0 [num 1] ∅ Host.lazy_process
    = (Ok [AValue (num 1)], Host.lazy_process)
  ∧ ∃ p2 chain,
      Renderer.proxy_construct 0 (VRef 0) [num 1] Host.lazy_process = (Ok (VRef 0), p2)
      ∧ Renderer.commands p2 (VRef 0) = Some chain
      ∧ chain = [cmd "get_current_window";
                 with_type "member_constructor"
                   (with_args [AValue (num 1)] (with_name "hide" (cmd "member_get")))]
      ∧ ipcLog p2 = ipcLog Host.lazy_process.
Proof.
  split; [reflexivity|]. split; [reflexivity|].
  destruct (construct_trap_compaction 0 (VRef 0) [num 1] [AValue (num 1)]
              [cmd "get_current_window"] (with_name "hide" (cmd "member_get"))
              Host.lazy_process Host.lazy_process eq_refl eq_refl eq_refl)
    as (p2 & chain & E & Hc & _ & Hget & _ & _ & Hlog).
  exists p2, chain. split; [exact E|]. split; [exact Hc|].
  split; [exact (Hget eq_refl)|exact Hlog].
Defined.

(** [remote.getCurrentWindow().id.$] and [remote.getCurrentWindow().caller.$]
    in a renderer that holds nothing. *)
Lemma entry_then_property_is_one_message_witness :
  (Remote.getCurrentWindow, cmd "get_current_window") ∈ entry_points "electron" "process"
  ∧ ("id" ∉ "$" :: Renderer.frozen_properties)
  ∧ ("caller" ∈ Renderer.frozen_properties)
  ∧ ipcLog ((w ← Remote.getCurrentWindow; w ← Renderer.proxy_read w "id";
             Renderer.proxy_read w "$") empty_process).2
    = ipcLog empty_process
      ++ [[cmd "get_current_window"; with_name "id" (cmd "member_get")]]
  ∧ ∃ error p',
      (w ← Remote.getCurrentWindow; w ← Renderer.proxy_read w "caller";
       Renderer.proxy_read w "$") empty_process = (Throw error, p')
      ∧ error_prop error "name" = VStr "TypeError"
      ∧ ipcLog p' = ipcLog empty_process.
Proof.
  assert (Hin : (Remote.getCurrentWindow, cmd "get_current_window")
                ∈ entry_points "electron" "process").
  { unfold entry_points. apply list_elem_of_further, list_elem_of_further, list_elem_of_here. }
  assert (Hid : "id" ∉ "$" :: Renderer.frozen_properties).
  { apply (bool_decide_unpack _). by vm_compute. }
  assert (Hcaller : "caller" ∈ Renderer.frozen_properties).
  { apply list_elem_of_further, list_elem_of_here. }
  split; [exact Hin|]. split; [exact Hid|]. split; [exact Hcaller|]. split.
  - exact (proj1 (entry_then_property_is_one_message "electron" "process"
             Remote.getCurrentWindow (cmd "get_current_window") "id" empty_process Hin)
             Hid _ _ (surjective_pairing _)).
  - exact (proj2 (entry_then_property_is_one_message "electron" "process"
             Remote.getCurrentWindow (cmd "get_current_window") "caller" empty_process Hin)
             Hcaller).
Defined.

(** A call of the function with handle 9, which the registry of
    [window_process] does not hold. *)
Lemma missing_call_target_error_witness :
  storage (objectsRegistry Host.window_process) !! 9%Z = None
  ∧ Browser.commit 1 Host.sender
      [cmd "get_current_web_contents"; with_args [] (with_id 9 (cmd "function_call"));
       cmd "get_current_window"] Host.window_process
    = (Ok (MException
             (VStr "Cannot call function on missing remote object 9")
             (VStr "Error: Cannot call function on missing remote object 9")
             (MValue VUndefined)), Host.window_process).
Proof.
  split; [reflexivity|].
  refine (proj2 (proj2
    (missing_call_target_error 1 Host.sender [cmd "get_current_web_contents"]
       (with_args [] (with_id 9 (cmd "function_call")))
       [cmd "get_current_window"] Host.window_process Host.sender false
       Host.window_process "function" 9%Z _ eq_refl eq_refl eq_refl))).
  apply list_elem_of_here.
Defined.

(** [getCurrentWindow] followed by a [function_call] step that has no
    [args], as the proxy of a decoded function sends it. *)
Lemma function_call_without_args_fails_witness :
  Browser.commit 1 Host.sender
    [cmd "get_current_window"; cmd "function_call"; cmd "get_current_web_contents"]
    Host.window_process
  = (Ok (MException (VStr "Cannot read property 'map' of undefined")
           (VStr "TypeError: Cannot read property 'map' of undefined")
           (MValue VUndefined)), Host.window_process).
Proof.
  refine (function_call_without_args_fails 1 Host.sender [cmd "get_current_window"]
            (cmd "function_call") [cmd "get_current_web_contents"]
            Host.window_process (VRef 0) false Host.window_process
            eq_refl eq_refl eq_refl _).
  intros id Hid. discriminate Hid.
Defined.

(** The descriptor of a function with handle 3, decoded and then called
    with one argument; handle 3 resolves in [window_process]. *)
Lemma decoded_function_proxy_witness :
  remoteObjectCache empty_process !! 3%Z = None
  ∧ ∃ w p1,
      Renderer.metaToValue (MRemote TFunction "Function" 3 [] None) empty_process
        = (Ok w, p1)
      ∧ Renderer.commands p1 w = Some [with_id 3 (cmd "function_call")]
      ∧ (∃ p2, Renderer.proxy_apply 0 w [num 1] p1 = (Ok w, p2)
               ∧ Renderer.commands p2 w
                 = Some [with_id 3 (cmd "function_call");
                         with_args [AValue (num 1)] (cmd "function_call")])
      ∧ Browser.commit 1 Host.sender
          [with_id 3 (cmd "function_call");
           with_args [AValue (num 1)] (cmd "function_call")] Host.window_process
        = (Ok (MException (VStr "Cannot read property 'map' of undefined")
                 (VStr "TypeError: Cannot read property 'map' of undefined")
                 (MValue VUndefined)), Host.window_process).
Proof.
  split; [reflexivity|].
  destruct (decoded_function_proxy "Function" 3%Z [] None empty_process eq_refl)
    as (w & p1 & E & Hc & Hcall).
  exists w, p1. split; [exact E|]. split; [exact Hc|].
  assert (Hargs : Renderer.wrapArgs 0 [num 1] ∅ p1 = (Ok [AValue (num 1)], p1))
    by reflexivity.
  destruct (Hcall 0 [num 1] [AValue (num 1)] Hargs) as (Happly & _ & Hanswer).
  split; [exact Happly|].
  exact (Hanswer 1 Host.sender Host.window_process eq_refl).
Defined.

(** The array [[1, "a", buffer, date, null]] of [data_process] and a
    string, passed as the two arguments of a call. *)
Lemma argument_round_trip_witness :
  Forall2 (denotes (p_heap Host.data_process)) [VRef 2; VStr "b"]
    [Host.data_value; DPrim (VStr "b")]
  ∧ Forall (λ d, nesting d ≤ 1) [Host.data_value; DPrim (VStr "b")]
  ∧ ∃ metas values pb',
      Renderer.wrapArgs 1 [VRef 2; VStr "b"] ∅ Host.data_process
        = (Ok metas, Host.data_process)
      ∧ Browser.unwrapArgs (Some metas) empty_process = (Ok values, pb')
      ∧ Forall2 (denotes (p_heap pb')) values [Host.data_value; DPrim (VStr "b")].
Proof.
  assert (Hd : denotes (p_heap Host.data_process) (VRef 2) Host.data_value).
  { cbn. eexists 2, _, _. split; [reflexivity|]. split; [reflexivity|].
    split; [reflexivity|]. cbn.
    split; [by split|]. split; [by split|].
    split; [by eexists 0, _|].
    split; [eexists 1, _; split; [reflexivity|]; split; [reflexivity|];
            split; [reflexivity|]; by vm_compute|].
    split; [by split|exact I]. }
  assert (Hargs : Forall2 (denotes (p_heap Host.data_process)) [VRef 2; VStr "b"]
                    [Host.data_value; DPrim (VStr "b")]).
  { constructor; [exact Hd|]. constructor; [by split|constructor]. }
  assert (Hn : Forall (λ d, nesting d ≤ 1) [Host.data_value; DPrim (VStr "b")]).
  { constructor; [vm_compute; lia|]. constructor; [vm_compute; lia|constructor]. }
  split; [exact Hargs|]. split; [exact Hn|].
  exact (argument_round_trip _ _ Host.data_process 1 empty_process Hargs Hn).
Defined.

(** The descriptor of a window with handle 3, decoded by a renderer that
    holds nothing, and the shell passed back between two numbers. *)
Lemma shell_is_sent_as_its_handle_witness :
  remoteObjectCache empty_process !! 3%Z = None
  ∧ 3%Z ≠ 0%Z
  ∧ ("then" ∉ member_names
                [Member "id" true true get; Member "hide" true false method]
                (Some (ProtoDesc [Member "show" false false method] None)))
  ∧ ∃ ret p1,
      Renderer.metaToValue window_meta empty_process = (Ok ret, p1)
      ∧ remoteObjectCache p1 !! 3%Z = Some ret
      ∧ Renderer.wrapArgs 0 ([num 1] ++ ret :: [num 2]) ∅ p1
        = (Ok ([AValue (num 1)] ++ ARemoteObject 3 :: [AValue (num 2)]), p1).
Proof.
  assert (Hne : 3%Z ≠ 0%Z) by discriminate.
  assert (Hthen : "then" ∉ member_names
                    [Member "id" true true get; Member "hide" true false method]
                    (Some (ProtoDesc [Member "show" false false method] None))).
  { apply (bool_decide_unpack _). by vm_compute. }
  split; [reflexivity|]. split; [exact Hne|]. split; [exact Hthen|].
  destruct (shell_is_sent_as_its_handle "BrowserWindow" 3%Z
              [Member "id" true true get; Member "hide" true false method]
              (Some (ProtoDesc [Member "show" false false method] None))
              empty_process eq_refl Hne) as (ret & p1 & E & Hcache & _ & Hsend).
  exists ret, p1. split; [exact E|]. split; [exact Hcache|].
  exact (Hsend Hthen 0 [num 1] [num 2] [AValue (num 1)] eq_refl [AValue (num 2)] eq_refl).
Defined.

(** The window of [window_process] as the result of a chain. *)
Lemma value_reply_is_decoded_witness :
  ∃ m pb' v' pr',
    Browser.valueToMeta 1 (VRef 0) false Host.window_process = (Ok m, pb')
    ∧ Renderer.metaToValue m empty_process = (Ok v', pr').
Proof.
  destruct (Browser.valueToMeta 1 (VRef 0) false Host.window_process) as [r pb'] eqn:E.
  assert (Hr : ∃ m, r = Ok m).
  { apply (f_equal fst) in E. vm_compute in E. subst r. by eexists. }
  destruct Hr as [m ->].
  destruct (value_reply_is_decoded 1 (VRef 0) false Host.window_process m pb'
              empty_process E) as (v' & pr' & E').
  by exists m, pb', v', pr'.
Defined.

(** The error of a missing handle, as the browser answers it and the
    renderer throws it. *)
Lemma exception_reply_is_thrown_witness :
  ∃ m pb' e pr',
    Browser.exceptionToMeta 1 (Browser.RPCError "gone") Host.window_process = (Ok m, pb')
    ∧ Renderer.metaToValue m empty_process = (Throw e, pr')
    ∧ error_prop e "message" = VStr ("gone" +:+ newline +:+ "Error: gone")
    ∧ error_prop e "code" = VUndefined.
Proof.
  destruct (exception_reply_is_thrown 1 (Browser.RPCError "gone") Host.window_process
              (MException (VStr "gone") (VStr "Error: gone") (MValue VUndefined))
              Host.window_process empty_process eq_refl)
    as (message & stack & cause & c & pr' & [= <- <- <-] & _ & E & Hm & _ & _ & _ & Hcode & _).
  eexists _, _, _, pr'. split; [reflexivity|]. split; [exact E|].
  split; [exact Hm|exact Hcode].
Defined.

(** The members of the window of [window_process]: [hide] is a method. *)
Lemma described_members_witness :
  Member "hide" true false method ∈ Browser.getObjectMembers Host.window_process (VRef 0)
  ∧ (∃ o q, cell Host.window_process (VRef 0) = Some o ∧ q ∈ o_props o
            ∧ "hide" = p_name q ∧ true = p_enumerable q)
  ∧ (method = method → false = false)
  ∧ (typeof Host.window_process (VRef 0) = "function"
     → "hide" ∉ Browser.FUNCTION_PROPERTIES).
Proof.
  assert (Hin : Member "hide" true false method
                ∈ Browser.getObjectMembers Host.window_process (VRef 0)).
  { apply list_elem_of_further, list_elem_of_here. }
  split; [exact Hin|].
  exact (described_members Host.window_process (VRef 0) _ Hin).
Defined.

(** Two descriptors named [id] and one named [hide], set on an empty
    object: [id] gets the accessor of the first, with a setter. *)
Lemma shell_member_accessors_witness :
  p_heap shell_process !! 0 = Some (new_obj KObject CtorObject)
  ∧ ("hasOwnProperty" ∉ m_name <$> [Member "id" true true get;
                                    Member "hide" true false method;
                                    Member "id" false false method])
  ∧ ∃ p' o',
      Renderer.setObjectMembers (VRef 0) 3
        [Member "id" true true get; Member "hide" true false method;
         Member "id" false false method] shell_process = (Ok tt, p')
      ∧ p_heap p' !! 0 = Some o'
      ∧ own_prop o' "id"
        = Some {| p_name := "id"; p_enumerable := true;
                  p_slot := Accessor (Some (RemoteGet 3 "id")) (Some (RemoteSet 3 "id")) |}.
Proof.
  assert (Hno : "hasOwnProperty" ∉ m_name <$> [Member "id" true true get;
                                               Member "hide" true false method;
                                               Member "id" false false method]).
  { apply (bool_decide_unpack _). by vm_compute. }
  split; [reflexivity|]. split; [exact Hno|].
  exact (shell_member_accessors
           [Member "id" true true get; Member "hide" true false method;
            Member "id" false false method]
           0 (new_obj KObject CtorObject) 3%Z "id" shell_process eq_refl eq_refl Hno).
Defined.

(** A [TypeError] with a [code], as the result of a chain. *)
Lemma error_round_trip_witness :
  NoDup [("stack", VStr "TypeError: bad"); ("message", VStr "bad"); ("code", VStr "E")].*1
  ∧ ∃ m own',
      Browser.valueToMeta 1
        (VError "TypeError" [("stack", VStr "TypeError: bad"); ("message", VStr "bad");
                             ("code", VStr "E")]) false Host.window_process
        = (Ok m, Host.window_process)
      ∧ Renderer.metaToValue m empty_process = (Ok (VError "Error" own'), empty_process)
      ∧ error_prop (VError "Error" own') "name" = VStr "TypeError"
      ∧ error_prop (VError "Error" own') "code" = VStr "E".
Proof.
  assert (Hnd : NoDup [("stack", VStr "TypeError: bad"); ("message", VStr "bad");
                       ("code", VStr "E")].*1).
  { apply (bool_decide_unpack _). by vm_compute. }
  split; [exact Hnd|].
  assert (Hprim : Forall (λ kv : string * value, primitive kv.2 = true)
                    [("stack", VStr "TypeError: bad"); ("message", VStr "bad");
                     ("code", VStr "E")]).
  { repeat constructor. }
  assert (Hproto : "__proto__" ∉ [("stack", VStr "TypeError: bad"); ("message", VStr "bad");
                                  ("code", VStr "E")].*1).
  { apply (bool_decide_unpack _). by vm_compute. }
  destruct (error_round_trip 1 "TypeError" _ false Host.window_process empty_process
              Hnd Hproto Hprim) as (m & own' & E & E' & Hprop).
  exists m, own'. split; [exact E|]. split; [exact E'|]. split.
  - exact (Hprop "name" (or_intror (or_introl eq_refl))).
  - refine (Hprop "code" (or_introl _)). by eexists.
Defined.

(** The array of [data_process] as the argument of a call. *)
Lemma wrapped_arguments_are_accepted_witness :
  let metas := [AArray [AValue (num 1); AValue (VStr "a"); ABuffer [Byte.x2a];
                        ADate (Finite 1000 0); AValue VNull]] in
  Renderer.wrapArgs 1 [VRef 2] ∅ Host.data_process = (Ok metas, Host.data_process)
  ∧ ∃ values pb',
      Browser.unwrapArgs (Some metas) empty_process = (Ok values, pb')
      ∧ length values = length [VRef 2].
Proof.
  split; [reflexivity|].
  exact (wrapped_arguments_are_accepted 1 [VRef 2] ∅ Host.data_process _
           Host.data_process empty_process eq_refl).
Defined.

(** [remote.getCurrentWindow().hide.x = 1], answered by the browser of
    [window_process]. *)
Lemma assignment_answers_null_witness :
  ∃ pb2 p',
    Browser.commit 1 Host.sender
      (hide_chain ++ [with_value [AValue (num 1)] (with_name "x" (cmd "member_set"))])
      Host.window_process = (Ok (MValue VNull), pb2)
    ∧ Renderer.proxy_set 0 (VRef 0) "x" (num 1) Host.lazy_process = (Ok VNull, p').
Proof.
  destruct (Browser.run_commands Host.sender hide_chain VUndefined false
              Host.window_process) as [r1 pb1] eqn:Hpre.
  assert (r1 = Ok (VRef 5, false)) as ->.
  { apply (f_equal fst) in Hpre. vm_compute in Hpre. by subst r1. }
  destruct (Browser.exec_command Host.sender
              (with_value [AValue (num 1)] (with_name "x" (cmd "member_set")))
              (VRef 5) pb1) as [r2 pb2] eqn:Hexec.
  assert (r2 = Ok VNull) as ->.
  { apply (f_equal fst) in Hexec. assert (Hp := f_equal snd Hpre). cbn [snd] in Hp.
    subst pb1. vm_compute in Hexec. by subst r2. }
  destruct (assignment_answers_null 0 1 Host.sender (VRef 0) "x" (num 1)
              [AValue (num 1)] hide_chain Host.lazy_process Host.lazy_process
              Host.window_process (VRef 5) false pb1 VNull pb2
              eq_refl eq_refl Hpre Hexec) as (Hcommit & p' & Hset).
  { intros m pb' E. cbn [reply window_transport Host.transport Host.serve app ipcLog
                         Host.lazy_process set_heap empty_process].
    by rewrite E. }
  by exists pb2, p'.
Defined.

(** The accessors of the member [id] of the shell with handle 3. *)
Lemma shell_accessors_witness :
  (∃ wrapper p',
     Renderer.remote_getter 3 "id" empty_process = (Ok wrapper, p')
     ∧ Renderer.commands p' wrapper
       = Some [with_name "id" (with_id 3 (cmd "remote_object_get"))]
     ∧ ipcLog p' = ipcLog empty_process)
  ∧ ipcLog (Renderer.remote_setter 0 3 "id" (num 1) empty_process).2
    = ipcLog empty_process
      ++ [[with_value [AValue (num 1)] (with_name "id" (with_id 3
                                          (cmd "remote_object_set")))]].
Proof.
  split.
  - exact (proj1 (shell_accessors 3%Z "id" empty_process)).
  - exact (proj2 (shell_accessors 3%Z "id" empty_process) 0 (num 1) [AValue (num 1)]
             empty_process _ _ eq_refl (surjective_pairing _)).
Defined.

(** A number and a promise as the arguments of a call. *)
Lemma promise_argument_is_rejected_witness :
  Renderer.wrapArgs 1 [num 1] ∅ promise_process = (Ok [AValue (num 1)], promise_process)
  ∧ p_heap promise_process !! 0 = Some (new_obj (KPromise None 0) (CtorNamed "Promise"))
  ∧ ∃ p2,
      Renderer.wrapArgs 1 ([num 1] ++ VRef 0 :: []) ∅ promise_process
        = (Throw (TypeError "Unsupported type: function"), p2)
      ∧ ∀ wrapper, Renderer.proxy_apply 1 wrapper ([num 1] ++ VRef 0 :: []) promise_process
          = (Throw (TypeError "Unsupported type: function"), p2).
Proof.
  split; [reflexivity|]. split; [reflexivity|].
  destruct (promise_argument_is_rejected 0 [num 1] 0 []
              (new_obj (KPromise None 0) (CtorNamed "Promise")) None 0
              [AValue (num 1)] promise_process promise_process
              eq_refl eq_refl eq_refl) as (p2 & E & _ & Happly).
  exists p2. split; [exact E|exact Happly].
Defined.

(** An object of class [Point] as an argument, decoded by a browser that
    holds one empty object. *)
Lemma unwrapping_renames_Object_witness :
  Forall (λ nm : string * ameta, ∃ v, nm.2 = AValue v) [("x", AValue (num 1))]
  ∧ ∃ ret pb',
      Browser.metaToValue (AObject "Point" [("x", AValue (num 1))]) shell_process
        = (Ok ret, pb')
      ∧ objectName pb' = "Point"
      ∧ constructor_name pb' (VRef 0) = "Point".
Proof.
  assert (Hflat : Forall (λ nm : string * ameta, ∃ v, nm.2 = AValue v)
                    [("x", AValue (num 1))]).
  { constructor; [by eexists|constructor]. }
  split; [exact Hflat|].
  destruct (unwrapping_renames_Object "Point" [("x", AValue (num 1))] shell_process Hflat)
    as (ret & pb' & E & Hn & Hall).
  exists ret, pb'. split; [exact E|]. split; [exact Hn|].
  exact (Hall 0 (new_obj KObject CtorObject) eq_refl eq_refl).
Defined.
